(** * PromptBase UI: the local vault store and the vault synchronizer

    A shallow embedding of [src/utils/localStorage.ts], of
    [fetchPromptsBatch] from [src/services/api.ts] and of the state
    handlers of [pages/VaultPage.tsx], together with the properties the
    specification states about them.

    Conventions of the embedding.
    - The browser's [localStorage] is a finite map from keys to texts,
      together with the two ways the Web Storage API can throw: access to
      the storage is denied (every method throws), or the quota is
      exceeded (only [setItem] throws).
    - Code that can throw lives in the monad [JS]: a computation takes the
      storage and gives back an outcome (a value or a thrown exception) and
      the storage it leaves behind.  [try { } catch { }] is [try_catch].
    - [JSON.parse], [JSON.stringify], [Date] parsing and [localeCompare]
      belong to the JavaScript engine, not to the repository; they are the
      operations of the classes [JSON] and [Intl], with the laws the code
      relies on.  [RefEngine] gives an instance of each.
    - [JSON_parse_prompts] is [JSON.parse] at the type the code casts its
      result to, an array of prompts; [LocalStorageValues] has
      [getVaultPrompts] at every value that [JSON.parse] returns.
    - An [await] is a point where the handlers of the page can run:
      [VaultPageAwait] runs the sync effect with the handlers that are
      called while the fetch is awaited, and [PromptDetailModal] has the
      modal's actions from the point where their request is fulfilled.
    - A JavaScript number that holds a count or a time stamp is an integer
      of [Z], or [NaN]. *)

From Stdlib Require Import ZArith Lia Ascii.
From stdpp Require Import base option list gmap strings pretty countable.

Open Scope string_scope.
Open Scope Z_scope.
Open Scope list_scope.

(** ** The data model ([src/types]) *)

Record Prompt := mkPrompt {
  prompt_id : string;
  title : string;
  content : string;
  username : option string;        (* string | null *)
  tags : list string;
  created_at : option string;      (* None: the field is missing *)
  updated_at : option string;
  comment_count : option Z         (* comment_count?: number *)
}.

#[global] Instance Prompt_eq_dec : EqDecision Prompt.
Proof. solve_decision. Defined.

Definition with_comment_count (p : Prompt) (n : Z) : Prompt :=
  {| prompt_id := prompt_id p; title := title p; content := content p;
     username := username p; tags := tags p; created_at := created_at p;
     updated_at := updated_at p; comment_count := Some n |}.

Definition ids (l : list Prompt) : list string := map prompt_id l.

(** The tests on ids that the code makes in its callbacks:
    [p => p.prompt_id === promptId], its negation, and
    [q => q.prompt_id === p.prompt_id]. *)
Definition has_id (promptId : string) (p : Prompt) : bool :=
  bool_decide (prompt_id p = promptId).

Definition other_id (promptId : string) (p : Prompt) : bool :=
  negb (bool_decide (prompt_id p = promptId)).

Definition same_id (p q : Prompt) : bool :=
  bool_decide (prompt_id q = prompt_id p).

(** ** The JavaScript engine *)

Inductive exn :=
  | SecurityError
  | QuotaExceededError
  | SyntaxError.

Inductive outcome (A : Type) :=
  | Returns (a : A)
  | Throws (e : exn).
Arguments Returns {A} a.
Arguments Throws {A} e.

Record Storage := mkStorage {
  items : gmap string string;
  access_denied : bool;
  quota_exceeded : bool
}.

Definition JS (A : Type) : Type := Storage -> outcome A * Storage.

Definition ret {A} (a : A) : JS A := fun st => (Returns a, st).

Definition throw {A} (e : exn) : JS A := fun st => (Throws e, st).

Definition bind {A B} (m : JS A) (k : A -> JS B) : JS B :=
  fun st =>
    match m st with
    | (Returns a, st') => k a st'
    | (Throws e, st') => (Throws e, st')
    end.

Definition try_catch {A} (body : JS A) (handler : exn -> JS A) : JS A :=
  fun st =>
    match body st with
    | (Returns a, st') => (Returns a, st')
    | (Throws e, st') => handler e st'
    end.

#[global] Instance JS_ret : MRet JS := @ret.
#[global] Instance JS_bind : MBind JS := fun A B k m => bind m k.

(** [localStorage.getItem], [setItem] and [removeItem]. *)

Definition getItem (key : string) : JS (option string) :=
  fun st =>
    if access_denied st then (Throws SecurityError, st)
    else (Returns (items st !! key), st).

Definition setItem (key value : string) : JS unit :=
  fun st =>
    if access_denied st then (Throws SecurityError, st)
    else if quota_exceeded st then (Throws QuotaExceededError, st)
    else (Returns tt,
          {| items := <[key := value]> (items st);
             access_denied := access_denied st;
             quota_exceeded := quota_exceeded st |}).

Definition removeItem (key : string) : JS unit :=
  fun st =>
    if access_denied st then (Throws SecurityError, st)
    else (Returns tt,
          {| items := delete key (items st);
             access_denied := access_denied st;
             quota_exceeded := quota_exceeded st |}).

(** A string is truthy when it is not empty. *)
Definition truthy (s : string) : bool :=
  match s with
  | EmptyString => false
  | String _ _ => true
  end.

(** [JSON.stringify] of a vault list, and [JSON.parse] at the two types
    the store casts its result to: the vault list ([as Prompt[]]) and the
    array of [id, code] pairs.  [None] is a [SyntaxError].  The laws: the
    text of a list parses back to the list, and it is not the empty
    string. *)
Class JSON := {
  JSON_stringify_prompts : list Prompt -> string;
  JSON_parse_prompts : string -> option (list Prompt);
  JSON_parse_codes : string -> option (list (string * string));
  parse_stringify_prompts :
    forall l, JSON_parse_prompts (JSON_stringify_prompts l) = Some l;
  stringify_prompts_truthy :
    forall l, truthy (JSON_stringify_prompts l) = true
}.

Definition parse_or_throw {A} (r : option A) : JS A :=
  match r with
  | Some a => mret a
  | None => throw SyntaxError
  end.

(** A JavaScript [Map] with string keys, in insertion order, and a [Set] of
    strings. *)
Definition Map (V : Type) : Type := list (string * V).

Fixpoint Map_set {V} (k : string) (v : V) (m : Map V) : Map V :=
  match m with
  | [] => [(k, v)]
  | (k', v') :: m' =>
      if bool_decide (k' = k) then (k, v) :: m' else (k', v') :: Map_set k v m'
  end.

Fixpoint Map_get {V} (m : Map V) (k : string) : option V :=
  match m with
  | [] => None
  | (k', v') :: m' => if bool_decide (k' = k) then Some v' else Map_get m' k
  end.

Definition Map_has {V} (m : Map V) (k : string) : bool :=
  match Map_get m k with
  | Some _ => true
  | None => false
  end.

Definition Map_new {V} (entries : list (string * V)) : Map V :=
  fold_left (fun m kv => Map_set (fst kv) (snd kv) m) entries [].

Definition JSSet : Type := list string.

Definition Set_has (s : JSSet) (x : string) : bool :=
  existsb (fun y => bool_decide (y = x)) s.

Definition Set_add (x : string) (s : JSSet) : JSSet :=
  if Set_has s x then s else s ++ [x].

Definition Set_new (l : list string) : JSSet :=
  fold_left (fun s x => Set_add x s) l [].

(** [Array.prototype.forEach] with a callback that may touch the storage. *)
Fixpoint forEach {A} (l : list A) (f : A -> JS unit) : JS unit :=
  match l with
  | [] => mret tt
  | x :: l' => f x;; forEach l' f
  end.

(** A number: an integer, or [NaN]. *)
Inductive number :=
  | Finite (z : Z)
  | NaN.

Definition number_sub (a b : number) : number :=
  match a, b with
  | Finite x, Finite y => Finite (x - y)
  | _, _ => NaN
  end.

(** [new Date(s).getTime()] and [a.localeCompare(b)]. *)
Class Intl := {
  Date_getTime : string -> number;
  String_localeCompare : string -> string -> Z
}.

(** ** [src/utils/localStorage.ts] *)

Module LocalStorage.
Section Store.
Context {json : JSON}.

Definition VAULT_KEY : string := "promptVault".
Definition PROMPT_CODES_KEY : string := "promptbase_prompt_codes".
Definition COMMENT_CODES_KEY : string := "promptbase_comment_codes".

Definition getVaultPrompts : JS (list Prompt) :=
  try_catch
    (storedValue ← getItem VAULT_KEY;
     match storedValue with
     | Some s =>
         if truthy s then parse_or_throw (JSON_parse_prompts s) else mret []
     | None => mret []
     end)
    (fun _ => mret []).

(** [Array.prototype.findIndex]: the first index whose element satisfies
    the predicate, or -1. *)
Fixpoint findIndex {A} (f : A -> bool) (l : list A) : Z :=
  match l with
  | [] => -1
  | x :: l' =>
      if f x then 0
      else let i := findIndex f l' in if i >? -1 then i + 1 else -1
  end.

Definition savePromptToVault (promptToSave : Prompt) : JS bool :=
  try_catch
    (currentVault ← getVaultPrompts;
     let existingIndex :=
       findIndex (fun p => bool_decide (prompt_id p = prompt_id promptToSave))
                 currentVault in
     let currentVault' :=
       if existingIndex >? -1
       then <[Z.to_nat existingIndex := promptToSave]> currentVault
       else currentVault ++ [promptToSave] in
     setItem VAULT_KEY (JSON_stringify_prompts currentVault');;
     mret true)
    (fun _ => mret false).

Definition removePromptFromVault (promptId : string) : JS bool :=
  try_catch
    (currentVault ← getVaultPrompts;
     let updatedVault :=
       List.filter (fun p => negb (bool_decide (prompt_id p = promptId)))
                   currentVault in
     if (length updatedVault <? length currentVault)%nat
     then setItem VAULT_KEY (JSON_stringify_prompts updatedVault);;
          mret true
     else mret false)
    (fun _ => mret false).

Definition isPromptInVault (promptId : string) : JS bool :=
  currentVault ← getVaultPrompts;
  mret (existsb (fun p => bool_decide (prompt_id p = promptId)) currentVault).

Definition getPromptCodes : JS (Map string) :=
  try_catch
    (storedCodes ← getItem PROMPT_CODES_KEY;
     match storedCodes with
     | Some s =>
         if truthy s
         then parsedArray ← parse_or_throw (JSON_parse_codes s);
              mret (Map_new parsedArray)
         else mret (Map_new [])
     | None => mret (Map_new [])
     end)
    (fun _ => mret (Map_new [])).

Definition getPromptCode (promptId : string) : JS (option string) :=
  codes ← getPromptCodes;
  mret (Map_get codes promptId).

Definition getCommentCodes : JS (Map string) :=
  try_catch
    (storedCodes ← getItem COMMENT_CODES_KEY;
     match storedCodes with
     | Some s =>
         if truthy s
         then parsedArray ← parse_or_throw (JSON_parse_codes s);
              mret (Map_new parsedArray)
         else mret (Map_new [])
     | None => mret (Map_new [])
     end)
    (fun _ => mret (Map_new [])).

Definition getCommentCode (commentId : string) : JS (option string) :=
  codes ← getCommentCodes;
  mret (Map_get codes commentId).

Definition clearVault : JS unit :=
  try_catch (removeItem VAULT_KEY) (fun _ => mret tt).

(** What a call of [getVaultPrompts()] returns in a given storage. *)
Definition read_vault (st : Storage) : list Prompt :=
  match fst (getVaultPrompts st) with
  | Returns l => l
  | Throws _ => []
  end.

End Store.
End LocalStorage.

(** ** [fetchPromptsBatch] of [src/services/api.ts] *)

Module Api.

(** What a promise rejects with: an [Error] with its message, or some
    other value. *)
Inductive thrown :=
  | ErrorObject (message : string)
  | OtherValue.

Inductive settled (A : Type) :=
  | Fulfilled (a : A)
  | Rejected (reason : thrown).
Arguments Fulfilled {A} a.
Arguments Rejected {A} reason.

Record ErrorData := mkErrorData {
  detail : option string;
  message : option string
}.

(** A response of the server.  [json_as_error] and [json_as_prompts] are
    what [response.json()] settles to at the two types [handleResponse]
    reads it at. *)
Record Response := mkResponse {
  ok : bool;
  status : Z;
  statusText : string;
  json_as_error : option ErrorData;
  json_as_prompts : settled (list Prompt)
}.

Record Request := mkRequest {
  url : string;
  method : string;
  content_type : string;
  body_ids : list string
}.

Record Env := mkEnv {
  API_BASE_URL : string;
  fetch : Request -> settled Response
}.

(** [a || b] on possibly missing strings. *)
Definition or_else (a : option string) (b : string) : string :=
  match a with
  | Some s => if truthy s then s else b
  | None => b
  end.

Definition handleResponse (response : Response) : settled (option (list Prompt)) :=
  if negb (ok response) then
    let errorData :=
      match json_as_error response with
      | Some d => d
      | None => {| detail := Some (statusText response);
                   message := Some (statusText response) |}
      end in
    let errorMessage :=
      or_else (detail errorData)
        (or_else (message errorData)
           ("HTTP error! status: " +:+ pretty (status response))) in
    let errorMessage :=
      if bool_decide (status response = 429)
      then or_else (detail errorData)
             "You have made too many requests. Please try again later."
      else errorMessage in
    Rejected (ErrorObject errorMessage)
  else if bool_decide (status response = 204) then Fulfilled None
  else
    match json_as_prompts response with
    | Fulfilled l => Fulfilled (Some l)
    | Rejected e => Rejected e
    end.

(** The result of the call and the requests it sent.  [None] as the
    argument is a null or undefined id list; [None] as the result is the
    [null] that [handleResponse] returns on status 204. *)
Definition fetchPromptsBatch (env : Env) (promptIds : option (list string))
  : settled (option (list Prompt)) * list Request :=
  match promptIds with
  | None => (Fulfilled (Some []), [])
  | Some promptIds =>
      if (length promptIds =? 0)%nat then (Fulfilled (Some []), [])
      else
        let request :=
          {| url := API_BASE_URL env +:+ "/prompts/batch/";
             method := "POST";
             content_type := "application/json";
             body_ids := promptIds |} in
        match fetch env request with
        | Fulfilled response => (handleResponse response, [request])
        | Rejected error => (Rejected error, [request])
        end
  end.

End Api.

(** ** [pages/VaultPage.tsx] *)

Module VaultPage.
Import LocalStorage Api.

(** The part of the component's state the vault logic reads and writes.
    A handler is run on the state of the latest render: the list it reads
    from its closure and the list its updater function receives are the
    same list.  [syncEffect] runs the sync effect in one piece;
    [VaultPageAwait] runs it with the handlers that are called while the
    response is awaited. *)
Record State := mkState {
  vaultPrompts : list Prompt;
  isInitialLoading : bool;
  isBatchLoading : bool;
  batchError : option string
}.

Definition initialState : State :=
  {| vaultPrompts := []; isInitialLoading := true;
     isBatchLoading := false; batchError := None |}.

Definition setVaultPrompts (f : list Prompt -> list Prompt) (s : State) : State :=
  {| vaultPrompts := f (vaultPrompts s);
     isInitialLoading := isInitialLoading s;
     isBatchLoading := isBatchLoading s;
     batchError := batchError s |}.

Definition setIsInitialLoading (b : bool) (s : State) : State :=
  {| vaultPrompts := vaultPrompts s; isInitialLoading := b;
     isBatchLoading := isBatchLoading s; batchError := batchError s |}.

Definition setIsBatchLoading (b : bool) (s : State) : State :=
  {| vaultPrompts := vaultPrompts s;
     isInitialLoading := isInitialLoading s;
     isBatchLoading := b; batchError := batchError s |}.

Definition setBatchError (e : option string) (s : State) : State :=
  {| vaultPrompts := vaultPrompts s;
     isInitialLoading := isInitialLoading s;
     isBatchLoading := isBatchLoading s; batchError := e |}.

(** The message of the [TypeError] raised by calling [.map] on [null]. *)
Definition null_map_message : string :=
  "Cannot read properties of null (reading 'map')".

Section Page.
Context {json : JSON} {intl : Intl}.

Definition loadFromLocalStorage (s : State) : JS State :=
  stored ← getVaultPrompts;
  mret (setIsInitialLoading false (setVaultPrompts (fun _ => stored) s)).

(** The [catch] branch of [syncWithServer]. *)
Definition syncFailed (error : thrown) (s : State) : State :=
  setBatchError
    (Some match error with
          | ErrorObject m => m
          | OtherValue => "Failed to sync vault with server."
          end) s.

Definition syncWithServer (env : Env) (localPrompts : list Prompt) (s : State)
  : JS State :=
  let s := setBatchError None (setIsBatchLoading true s) in
  let promptIds := map prompt_id localPrompts in
  s ← match fst (fetchPromptsBatch env (Some promptIds)) with
      | Fulfilled (Some freshPrompts) =>
          let freshPromptsMap :=
            Map_new (map (fun p => (prompt_id p, p)) freshPrompts) in
          let s :=
            setVaultPrompts (fun _ =>
              List.filter (fun p => Map_has freshPromptsMap (prompt_id p))
                (map (fun localPrompt =>
                        match Map_get freshPromptsMap (prompt_id localPrompt) with
                        | Some fresh => fresh
                        | None => localPrompt
                        end) localPrompts)) s in
          let freshIds := Set_new (map prompt_id freshPrompts) in
          forEach localPrompts (fun localPrompt =>
            if negb (Set_has freshIds (prompt_id localPrompt))
            then removePromptFromVault (prompt_id localPrompt);; mret tt
            else mret tt);;
          mret s
      | Fulfilled None => mret (syncFailed (ErrorObject null_map_message) s)
      | Rejected error => mret (syncFailed error s)
      end;
  mret (setIsBatchLoading false s).

(** The callback of the [forEach] of [syncWithServer]. *)
Definition drop_missing (freshIds : JSSet) (localPrompt : Prompt) : JS unit :=
  if negb (Set_has freshIds (prompt_id localPrompt))
  then removePromptFromVault (prompt_id localPrompt);; mret tt
  else mret tt.

(** The effect that runs when [isInitialLoading] changes. *)
Definition syncEffect (env : Env) (s : State) : JS State :=
  localPrompts ← getVaultPrompts;
  if negb (isInitialLoading s) && (0 <? length localPrompts)%nat
  then syncWithServer env localPrompts s
  else mret s.

(** [p.comment_count || 0] *)
Definition count_or_0 (p : Prompt) : Z :=
  match comment_count p with
  | Some n => n
  | None => 0
  end.

Definition handleCommentAdded (promptId : string) (s : State) : JS State :=
  let promptToUpdate :=
    List.find (fun p => bool_decide (prompt_id p = promptId)) (vaultPrompts s) in
  let s' :=
    setVaultPrompts
      (map (fun p => if bool_decide (prompt_id p = promptId)
                     then with_comment_count p (count_or_0 p + 1)
                     else p)) s in
  match promptToUpdate with
  | Some promptToUpdate =>
      savePromptToVault
        (with_comment_count promptToUpdate (count_or_0 promptToUpdate + 1));;
      mret s'
  | None => mret s'
  end.

Definition handleCommentDeleted (promptId : string) (s : State) : JS State :=
  let promptToUpdate :=
    List.find (fun p => bool_decide (prompt_id p = promptId)) (vaultPrompts s) in
  let s' :=
    setVaultPrompts
      (map (fun p => if bool_decide (prompt_id p = promptId)
                     then with_comment_count p (Z.max 0 (count_or_0 p - 1))
                     else p)) s in
  match promptToUpdate with
  | Some promptToUpdate =>
      savePromptToVault
        (with_comment_count promptToUpdate
           (Z.max 0 (count_or_0 promptToUpdate - 1)));;
      mret s'
  | None => mret s'
  end.

(** The date a sort key reads: [d ? new Date(d).getTime() : 0]. *)
Definition date_key (d : option string) : number :=
  match d with
  | Some s => if truthy s then Date_getTime s else Finite 0
  | None => Finite 0
  end.

(** The comparator handed to [Array.prototype.sort]. *)
Definition compareFn (sortCriteria : string) (a b : Prompt) : number :=
  if bool_decide (sortCriteria = "title_asc") then
    Finite (String_localeCompare (title a) (title b))
  else if bool_decide (sortCriteria = "title_desc") then
    Finite (String_localeCompare (title b) (title a))
  else if bool_decide (sortCriteria = "created_at_asc") then
    number_sub (date_key (created_at a)) (date_key (created_at b))
  else if bool_decide (sortCriteria = "created_at_desc") then
    number_sub (date_key (created_at b)) (date_key (created_at a))
  else if bool_decide (sortCriteria = "updated_at_asc") then
    number_sub (date_key (updated_at a)) (date_key (updated_at b))
  else
    number_sub (date_key (updated_at b)) (date_key (updated_at a)).

(** How [sort] reads the comparator's result: [NaN] counts as [+0]. *)
Definition SortCompare (sortCriteria : string) (a b : Prompt) : Z :=
  match compareFn sortCriteria a b with
  | Finite v => v
  | NaN => 0
  end.

End Page.
End VaultPage.

(** ** The modification codes of [src/utils/localStorage.ts] *)

Module LocalStorageCodes.
Import LocalStorage.

(** [JSON.stringify] of an array of [id, code] pairs, with the laws of
    [JSON.stringify] of a vault list. *)
Class JSONCodes {json : JSON} := {
  JSON_stringify_codes : list (string * string) -> string;
  parse_stringify_codes :
    forall l, JSON_parse_codes (JSON_stringify_codes l) = Some l;
  stringify_codes_truthy :
    forall l, truthy (JSON_stringify_codes l) = true
}.

(** [Map.prototype.delete]: whether the key was there, and the map
    without it. *)
Fixpoint Map_delete {V} (k : string) (m : Map V) : bool * Map V :=
  match m with
  | [] => (false, [])
  | (k', v') :: m' =>
      if bool_decide (k' = k) then (true, m')
      else let r := Map_delete k m' in (fst r, (k', v') :: snd r)
  end.

(** The keys of a map, in insertion order. *)
Definition keys {V} (m : Map V) : list string := map fst m.

Section Codes.
Context {json : JSON} {codes : JSONCodes}.

(** [Array.from(currentCodes.entries())] is the list of the entries in
    insertion order, which is the map itself. *)
Definition savePromptCode (promptId code : string) : JS unit :=
  try_catch
    (currentCodes ← getPromptCodes;
     let currentCodes := Map_set promptId code currentCodes in
     let codesArray := currentCodes in
     setItem PROMPT_CODES_KEY (JSON_stringify_codes codesArray))
    (fun _ => mret tt).

Definition removePromptCode (promptId : string) : JS unit :=
  try_catch
    (currentCodes ← getPromptCodes;
     let deleted := Map_delete promptId currentCodes in
     if fst deleted
     then let codesArray := snd deleted in
          setItem PROMPT_CODES_KEY (JSON_stringify_codes codesArray)
     else mret tt)
    (fun _ => mret tt).

Definition saveCommentCode (commentId code : string) : JS unit :=
  try_catch
    (currentCodes ← getCommentCodes;
     let currentCodes := Map_set commentId code currentCodes in
     let codesArray := currentCodes in
     setItem COMMENT_CODES_KEY (JSON_stringify_codes codesArray))
    (fun _ => mret tt).

Definition removeCommentCode (commentId : string) : JS unit :=
  try_catch
    (currentCodes ← getCommentCodes;
     let deleted := Map_delete commentId currentCodes in
     if fst deleted
     then let codesArray := snd deleted in
          setItem COMMENT_CODES_KEY (JSON_stringify_codes codesArray)
     else mret tt)
    (fun _ => mret tt).

(** What [getPromptCode(id)] and [getCommentCode(id)] return in a given
    storage. *)
Definition read_prompt_code (promptId : string) (st : Storage) : option string :=
  match fst (getPromptCode promptId st) with
  | Returns c => c
  | Throws _ => None
  end.

Definition read_comment_code (commentId : string) (st : Storage) : option string :=
  match fst (getCommentCode commentId st) with
  | Returns c => c
  | Throws _ => None
  end.

(** The map of codes that the getter of a key builds from the storage. *)
Definition stored_codes (key : string) (st : Storage) : Map string :=
  if access_denied st then []
  else match items st !! key with
       | Some s =>
           if truthy s
           then match JSON_parse_codes s with
                | Some l => Map_new l
                | None => []
                end
           else []
       | None => []
       end.

(** [!!getPromptCode(id)], the test [canModifyPrompt] of the detail
    modal: a code is stored and it is not the empty string. *)
Definition canModifyPrompt (promptId : string) : JS bool :=
  code ← getPromptCode promptId;
  mret match code with
       | Some c => truthy c
       | None => false
       end.

End Codes.
End LocalStorageCodes.

(** ** [getVaultPrompts] at the values [JSON.parse] returns *)

Module LocalStorageValues.

(** What [JSON.parse] can return for the text under the vault key:
    [JSArray] is an array of prompts, the type [getVaultPrompts] casts the
    value to; the other constructors are the values that are no array. *)
Inductive JSValue :=
  | JSNull
  | JSBoolean (b : bool)
  | JSNumber (n : Z)
  | JSString (s : string)
  | JSObject
  | JSArray (l : list Prompt).

(** [JSON.parse] at every value, [None] being the [SyntaxError].
    [JSON_parse_prompts] is [JSON.parse] at the type of the cast: it is
    defined on the texts of arrays only, so [LocalStorage.getVaultPrompts]
    reads a text of another value like a text that does not parse. *)
Class JSONValues {json : JSON} := {
  JSON_parse : string -> option JSValue;
  JSON_parse_prompts_spec :
    forall s, JSON_parse_prompts s
              = match JSON_parse s with
                | Some (JSArray l) => Some l
                | _ => None
                end
}.

Section Values.
Context {json : JSON} {values : JSONValues}.

(** [getVaultPrompts] with the value of [JSON.parse] returned as it is:
    the cast [as Prompt[]] checks nothing. *)
Definition getVaultPrompts : JS JSValue :=
  try_catch
    (storedValue ← getItem LocalStorage.VAULT_KEY;
     match storedValue with
     | Some s =>
         if truthy s then parse_or_throw (JSON_parse s) else mret (JSArray [])
     | None => mret (JSArray [])
     end)
    (fun _ => mret (JSArray [])).

End Values.
End LocalStorageValues.

(** ** The other handlers of [pages/VaultPage.tsx] *)

Module VaultPageHandlers.
Import LocalStorage Api VaultPage.

(** The state the handlers act on: the state of [VaultPage.State], the
    prompt shown in the detail modal and the flag of the confirmation
    dialog.  Calls of [toast], [console] and [navigate] change none of it
    and are left out. *)
Record View := mkView {
  page : State;
  selectedPrompt : option Prompt;
  isClearConfirmOpen : bool
}.

Definition setPage (f : State -> State) (v : View) : View :=
  {| page := f (page v); selectedPrompt := selectedPrompt v;
     isClearConfirmOpen := isClearConfirmOpen v |}.

Definition setSelectedPrompt (f : option Prompt -> option Prompt) (v : View)
  : View :=
  {| page := page v; selectedPrompt := f (selectedPrompt v);
     isClearConfirmOpen := isClearConfirmOpen v |}.

Definition setIsClearConfirmOpen (b : bool) (v : View) : View :=
  {| page := page v; selectedPrompt := selectedPrompt v;
     isClearConfirmOpen := b |}.

(** [{ ...p, ...updatedPrompt }] on the fields of a prompt: a field that
    [updatedPrompt] has wins, a field it misses stays. *)
Definition merge (p updatedPrompt : Prompt) : Prompt :=
  {| prompt_id := prompt_id updatedPrompt;
     title := title updatedPrompt;
     content := content updatedPrompt;
     username := username updatedPrompt;
     tags := tags updatedPrompt;
     created_at := match created_at updatedPrompt with
                   | Some d => Some d
                   | None => created_at p
                   end;
     updated_at := match updated_at updatedPrompt with
                   | Some d => Some d
                   | None => updated_at p
                   end;
     comment_count := match comment_count updatedPrompt with
                      | Some n => Some n
                      | None => comment_count p
                      end |}.

Section Handlers.
Context {json : JSON}.

Definition handlePromptDeletedCallback (deletedPromptId : string) (v : View)
  : JS View :=
  removePromptFromVault deletedPromptId;;
  mret (setSelectedPrompt (fun _ => None)
          (setPage
             (setVaultPrompts
                (List.filter
                   (fun p => negb (bool_decide (prompt_id p = deletedPromptId)))))
             v)).

Definition handlePromptClick (prompt : Prompt) (v : View) : View :=
  setSelectedPrompt (fun _ => Some prompt) v.

Definition handleCloseModal (refreshNeeded : bool) (v : View) : JS View :=
  let v := setSelectedPrompt (fun _ => None) v in
  if refreshNeeded
  then s ← loadFromLocalStorage (page v); mret (setPage (fun _ => s) v)
  else mret v.

Definition handlePromptUpdated (updatedPrompt : Prompt) (v : View) : View :=
  setPage
    (setVaultPrompts
       (map (fun p => if bool_decide (prompt_id p = prompt_id updatedPrompt)
                      then merge p updatedPrompt
                      else p))) v.

Definition handleSaveToVault (promptToSave : Prompt) (v : View)
  : JS (bool * View) :=
  try_catch
    (success ← savePromptToVault promptToSave;
     if (success : bool)
     then ret (success,
                setPage
                  (setVaultPrompts
                     (map (fun p =>
                             if bool_decide (prompt_id p = prompt_id promptToSave)
                             then promptToSave
                             else p))) v)
     else ret (success, v))
    (fun _ => mret (false, v)).

Definition handleRemoveFromVault (promptId : string) (v : View)
  : JS (bool * View) :=
  try_catch
    (success ← removePromptFromVault promptId;
     if (success : bool)
     then ret (success,
                setSelectedPrompt
                  (fun currentSelected =>
                     match currentSelected with
                     | Some selected =>
                         if bool_decide (prompt_id selected = promptId)
                         then None
                         else currentSelected
                     | None => currentSelected
                     end)
                  (setPage
                     (setVaultPrompts
                        (List.filter
                           (fun p => negb (bool_decide (prompt_id p = promptId)))))
                     v))
     else ret (success, v))
    (fun _ => mret (false, v)).

Definition handleToggleCardVault (prompt : Prompt) (currentlySaved : bool)
    (v : View) : JS (bool * View) :=
  if currentlySaved
  then
    try_catch
      (success ← removePromptFromVault (prompt_id prompt);
       if (success : bool)
       then ret (success,
                  setPage
                    (setVaultPrompts
                       (List.filter
                          (fun p =>
                             negb (bool_decide (prompt_id p = prompt_id prompt)))))
                    v)
       else ret (success, v))
      (fun _ => mret (false, v))
  else mret (false, v).

Definition checkIsSelectedPromptSaved (v : View) : bool :=
  match selectedPrompt v with
  | Some _ => true
  | None => false
  end.

Definition handleClearVaultClick (v : View) : View :=
  if (0 <? length (vaultPrompts (page v)))%nat
  then setIsClearConfirmOpen true v
  else v.

Definition handleConfirmClearVault (v : View) : JS View :=
  try_catch
    (clearVault;;
     mret (setIsClearConfirmOpen false
             (setPage (setVaultPrompts (fun _ => [])) v)))
    (fun _ => mret (setIsClearConfirmOpen false v)).

(** The events of the page after it is mounted: each is one call of a
    handler, by the page itself or by the card or the modal it handed the
    handler to. *)
Inductive Event :=
  | PromptDeleted (deletedPromptId : string)
  | PromptClick (prompt : Prompt)
  | CloseModal (refreshNeeded : bool)
  | PromptUpdated (updatedPrompt : Prompt)
  | SaveToVault (promptToSave : Prompt)
  | RemoveFromVault (promptId : string)
  | ToggleCardVault (prompt : Prompt) (currentlySaved : bool)
  | ClearVaultClick
  | ConfirmClearVault
  | CommentAdded (promptId : string)
  | CommentDeleted (promptId : string).

Definition step (e : Event) (v : View) : JS View :=
  match e with
  | PromptDeleted i => handlePromptDeletedCallback i v
  | PromptClick p => mret (handlePromptClick p v)
  | CloseModal r => handleCloseModal r v
  | PromptUpdated u => mret (handlePromptUpdated u v)
  | SaveToVault p => r ← handleSaveToVault p v; mret (snd r)
  | RemoveFromVault i => r ← handleRemoveFromVault i v; mret (snd r)
  | ToggleCardVault p b => r ← handleToggleCardVault p b v; mret (snd r)
  | ClearVaultClick => mret (handleClearVaultClick v)
  | ConfirmClearVault => handleConfirmClearVault v
  | CommentAdded i =>
      s ← handleCommentAdded i (page v); mret (setPage (fun _ => s) v)
  | CommentDeleted i =>
      s ← handleCommentDeleted i (page v); mret (setPage (fun _ => s) v)
  end.

(** A sequence of events, one after the other. *)
Fixpoint run (es : list Event) (v : View) : JS View :=
  match es with
  | [] => mret v
  | e :: es' => v' ← step e v; run es' v'
  end.






End Handlers.
End VaultPageHandlers.

(** ** The sync effect of [pages/VaultPage.tsx] across its [await] *)

Module VaultPageAwait.
Import LocalStorage Api VaultPage VaultPageHandlers.

Section Await.
Context {json : JSON}.

(** [syncWithServer] up to its [await]. *)
Definition syncStarted (s : State) : State :=
  setBatchError None (setIsBatchLoading true s).

(** [syncWithServer] from its [await] on, run on the state and on the
    storage of the moment the fetch settles.  [localPrompts] is the list
    the effect read before it started the fetch. *)
Definition syncSettled (env : Env) (localPrompts : list Prompt) (s : State)
  : JS State :=
  let promptIds := map prompt_id localPrompts in
  s ← match fst (fetchPromptsBatch env (Some promptIds)) with
      | Fulfilled (Some freshPrompts) =>
          let freshPromptsMap :=
            Map_new (map (fun p => (prompt_id p, p)) freshPrompts) in
          let s :=
            setVaultPrompts (fun _ =>
              List.filter (fun p => Map_has freshPromptsMap (prompt_id p))
                (map (fun localPrompt =>
                        match Map_get freshPromptsMap (prompt_id localPrompt) with
                        | Some fresh => fresh
                        | None => localPrompt
                        end) localPrompts)) s in
          let freshIds := Set_new (map prompt_id freshPrompts) in
          forEach localPrompts (fun localPrompt =>
            if negb (Set_has freshIds (prompt_id localPrompt))
            then removePromptFromVault (prompt_id localPrompt);; mret tt
            else mret tt);;
          mret s
      | Fulfilled None => mret (syncFailed (ErrorObject null_map_message) s)
      | Rejected error => mret (syncFailed error s)
      end;
  mret (setIsBatchLoading false s).

(** The effect together with the calls of the page's handlers that are
    made while the fetch is awaited: the cards and the modal are live
    then.  The effect reads the local list, starts the fetch, the handlers
    of [during] run, and the rest of [syncWithServer] runs on what they
    left.  Without a sync nothing is awaited. *)
Definition syncEffectDuring (env : Env) (during : list Event) (v : View)
  : JS View :=
  localPrompts ← getVaultPrompts;
  if negb (isInitialLoading (page v)) && (0 <? length localPrompts)%nat
  then
    v ← run during (setPage syncStarted v);
    s ← syncSettled env localPrompts (page v);
    mret (setPage (fun _ => s) v)
  else mret v.

(** The page right after its first effect. *)
Definition loaded (s : State) : View :=
  {| page := s; selectedPrompt := None; isClearConfirmOpen := false |}.

(** Mounting the page: the first effect loads the local list, the
    re-render it causes runs the sync effect. *)
Definition mountDuring (env : Env) (during : list Event) : JS View :=
  s ← loadFromLocalStorage initialState;
  syncEffectDuring env during (loaded s).

End Await.
End VaultPageAwait.

(** ** The vault handlers of [pages/HomePage.tsx] *)

Module HomePage.
Import LocalStorage LocalStorageCodes.

(** The part of the component's state that the vault and tag handlers
    act on.  The query cache ([queryClient]), the loading of the tag list
    and the toasts are outside of it. *)
Record State := mkState {
  vaultVersion : Z;
  selectedPrompt : option Prompt;
  isCreateModalOpen : bool;
  activeTags : JSSet
}.

Definition setVaultVersion (f : Z -> Z) (h : State) : State :=
  {| vaultVersion := f (vaultVersion h); selectedPrompt := selectedPrompt h;
     isCreateModalOpen := isCreateModalOpen h; activeTags := activeTags h |}.

Definition setSelectedPrompt (p : option Prompt) (h : State) : State :=
  {| vaultVersion := vaultVersion h; selectedPrompt := p;
     isCreateModalOpen := isCreateModalOpen h; activeTags := activeTags h |}.

Definition setIsCreateModalOpen (b : bool) (h : State) : State :=
  {| vaultVersion := vaultVersion h; selectedPrompt := selectedPrompt h;
     isCreateModalOpen := b; activeTags := activeTags h |}.

Definition setActiveTags (f : JSSet -> JSSet) (h : State) : State :=
  {| vaultVersion := vaultVersion h; selectedPrompt := selectedPrompt h;
     isCreateModalOpen := isCreateModalOpen h; activeTags := f (activeTags h) |}.

(** [Set.prototype.delete] *)
Definition Set_delete (x : string) (s : JSSet) : JSSet :=
  List.filter (fun y => negb (bool_decide (y = x))) s.

Section Handlers.
Context {json : JSON} {codes : JSONCodes}.

Definition handlePromptCreated (newPrompt : Prompt)
    (modification_code : option string) (h : State) : JS State :=
  let h := setIsCreateModalOpen false h in
  match modification_code with
  | Some code =>
      if truthy code
      then savePromptCode (prompt_id newPrompt) code;; mret h
      else mret h
  | None => mret h
  end.

Definition handlePromptClick (prompt : Prompt) (h : State) : State :=
  setSelectedPrompt (Some prompt) h.

Definition handleCloseDetailModal (h : State) : State :=
  setSelectedPrompt None h.

Definition handlePromptUpdated (updatedPrompt : Prompt) (h : State) : JS State :=
  inVault ← isPromptInVault (prompt_id updatedPrompt);
  if (inVault : bool)
  then savePromptToVault updatedPrompt;;
       mret (setVaultVersion (fun v => v + 1) h)
  else mret h.

Definition handlePromptDeleted (deletedPromptId : string) (h : State) : JS State :=
  removed ← removePromptFromVault deletedPromptId;
  let h := if (removed : bool) then setVaultVersion (fun v => v + 1) h else h in
  mret (setSelectedPrompt None h).

(** [vaultPrompts[promptIndex]] with [promptIndex] found by [findIndex] is
    an element of the list; the branch [None] of the lookup is not reached
    (lemma [findIndex_lookup]). *)
Definition handleCommentAdded (promptId : string) (h : State) : JS State :=
  inVault ← isPromptInVault promptId;
  if (inVault : bool)
  then
    vaultPrompts ← getVaultPrompts;
    let promptIndex :=
      findIndex (fun p => bool_decide (prompt_id p = promptId)) vaultPrompts in
    if negb (promptIndex =? -1)
    then
      match vaultPrompts !! Z.to_nat promptIndex with
      | Some found =>
          let updatedPrompt :=
            with_comment_count found (VaultPage.count_or_0 found + 1) in
          savePromptToVault updatedPrompt;;
          mret (setVaultVersion (fun v => v + 1) h)
      | None => mret h
      end
    else mret h
  else mret h.

Definition handleCommentDeleted (promptId : string) (h : State) : JS State :=
  inVault ← isPromptInVault promptId;
  if (inVault : bool)
  then
    vaultPrompts ← getVaultPrompts;
    let promptIndex :=
      findIndex (fun p => bool_decide (prompt_id p = promptId)) vaultPrompts in
    if negb (promptIndex =? -1)
    then
      match vaultPrompts !! Z.to_nat promptIndex with
      | Some found =>
          let updatedPrompt :=
            with_comment_count found
              (Z.max 0 (VaultPage.count_or_0 found - 1)) in
          savePromptToVault updatedPrompt;;
          mret (setVaultVersion (fun v => v + 1) h)
      | None => mret h
      end
    else mret h
  else mret h.

Definition handleVaultChangedByList (h : State) : State :=
  setVaultVersion (fun v => v + 1) h.

Definition handleSaveToVaultForModal (promptToSave : Prompt) (h : State)
  : JS (bool * State) :=
  try_catch
    (success ← savePromptToVault promptToSave;
     if (success : bool)
     then ret (success, setVaultVersion (fun v => v + 1) h)
     else ret (success, h))
    (fun _ => mret (false, h)).

Definition handleRemoveFromVaultForModal (promptId : string) (h : State)
  : JS (bool * State) :=
  try_catch
    (success ← removePromptFromVault promptId;
     if (success : bool)
     then ret (success, setVaultVersion (fun v => v + 1) h)
     else ret (success, h))
    (fun _ => mret (false, h)).

Definition checkIsSelectedPromptSaved (h : State) : JS bool :=
  match selectedPrompt h with
  | None => mret false
  | Some selected => isPromptInVault (prompt_id selected)
  end.

Definition handleTagSelectionChange (newSelectedTags : JSSet) (h : State) : State :=
  setActiveTags (fun _ => newSelectedTags) h.

Definition handleTagClickFromCard (tag : string) (h : State) : State :=
  setActiveTags
    (fun prevTags =>
       let newTags := Set_new prevTags in
       if Set_has newTags tag then Set_delete tag newTags
       else Set_add tag newTags) h.

Definition handleModalTagClick (tag : string) (h : State) : State :=
  handleCloseDetailModal
    (setActiveTags (fun prevTags => Set_add tag (Set_new prevTags)) h).

End Handlers.
End HomePage.

(** ** The vault logic of [components/PromptList.tsx] *)

Module PromptList.
Import LocalStorage.

(** The prompts of the pages fetched so far, without a second prompt of
    an id; [None] is [data] being undefined. *)
Definition prompts (data : option (list (list Prompt))) : list Prompt :=
  let allPrompts :=
    match data with
    | Some pages => concat pages
    | None => []
    end in
  let uniquePromptsMap :=
    fold_left
      (fun uniquePromptsMap prompt =>
         if negb (Map_has uniquePromptsMap (prompt_id prompt))
         then Map_set (prompt_id prompt) prompt uniquePromptsMap
         else uniquePromptsMap)
      allPrompts [] in
  map snd uniquePromptsMap.

Section Handlers.
Context {json : JSON}.

(** The handlers of the cards; [onVaultChange] is the callback of the
    parent, and [H] the state it acts on. *)
Definition handleSaveToVaultForCard {H} (onVaultChange : H -> H)
    (promptToSave : Prompt) (h : H) : JS (bool * H) :=
  try_catch
    (success ← savePromptToVault promptToSave;
     if (success : bool) then ret (success, onVaultChange h) else ret (success, h))
    (fun _ => mret (false, h)).

Definition handleRemoveFromVaultForCard {H} (onVaultChange : H -> H)
    (promptId : string) (h : H) : JS (bool * H) :=
  try_catch
    (success ← removePromptFromVault promptId;
     if (success : bool) then ret (success, onVaultChange h) else ret (success, h))
    (fun _ => mret (false, h)).

Definition handleToggleCardVault {H} (onVaultChange : H -> H)
    (prompt : Prompt) (currentlySaved : bool) (h : H) : JS (bool * H) :=
  if currentlySaved
  then handleRemoveFromVaultForCard onVaultChange (prompt_id prompt) h
  else handleSaveToVaultForCard onVaultChange prompt h.

(** [new Set(getVaultPrompts().map(p => p.prompt_id))] *)
Definition savedPromptIds : JS JSSet :=
  vault ← getVaultPrompts;
  mret (Set_new (map prompt_id vault)).

End Handlers.
End PromptList.

(** ** The vault and code writes of [components/PromptDetailModal.tsx] *)

Module PromptDetailModal.
Import LocalStorage LocalStorageCodes.

Section Modal.
Context {json : JSON} {codes : JSONCodes} {H : Type}.

(** The callbacks a page hands to the modal, on the state [H] of the
    page.  Both pages pass every one of them, so that the modal's tests
    [if (onPromptDeleted)] and the like hold. *)
Record Props := mkProps {
  onClose : bool -> H -> JS H;
  onSaveToVault : Prompt -> H -> JS (bool * H);
  onRemoveFromVault : string -> H -> JS (bool * H);
  onPromptDeleted : string -> H -> JS H;
  onPromptUpdated : Prompt -> H -> JS H;
  onCommentAdded : string -> H -> JS H;
  onCommentDeleted : string -> H -> JS H
}.

(** [handleToggleVault]: the new value of the modal's flag
    [currentlySaved] and the state of the page. *)
Definition handleToggleVault (props : Props) (currentlySaved : bool)
    (currentPromptData : Prompt) (h : H) : JS (bool * H) :=
  try_catch
    (if currentlySaved
     then r ← onRemoveFromVault props (prompt_id currentPromptData) h;
          let success : bool := fst (r : bool * H) in
          ret (if success then false else currentlySaved, snd r)
     else r ← onSaveToVault props currentPromptData h;
          let success : bool := fst (r : bool * H) in
          ret (if success then true else currentlySaved, snd r))
    (fun _ => mret (currentlySaved, h)).

(** [handleCommentSubmit] from the point where [createComment] is
    fulfilled with a comment of id [comment_id]. *)
Definition handleCommentSubmit (props : Props) (currentPromptId : string)
    (comment_id : string) (modification_code : option string) (h : H) : JS H :=
  try_catch
    (match modification_code with
     | Some code =>
         if truthy code then saveCommentCode comment_id code else mret tt
     | None => mret tt
     end;;
     onCommentAdded props currentPromptId h)
    (fun _ => mret h).

(** [handleDeleteComment] from the point where [deleteComment] is
    fulfilled; [currentPromptId] is [displayPrompt?.prompt_id]. *)
Definition handleDeleteComment (props : Props) (commentId : string)
    (currentPromptId : option string) (h : H) : JS H :=
  try_catch
    (removeCommentCode commentId;;
     match currentPromptId with
     | Some promptId =>
         if truthy promptId then onCommentDeleted props promptId h else mret h
     | None => mret h
     end)
    (fun _ => mret h).

(** [handleSavePromptEdit] from the point where [updatePrompt] is
    fulfilled with [updatedPromptData]. *)
Definition handleSavePromptEdit (props : Props) (currentlySaved : bool)
    (updatedPromptData : Prompt) (h : H) : JS H :=
  try_catch
    ((if currentlySaved
      then savePromptToVault updatedPromptData;; mret tt
      else mret tt);;
     onPromptUpdated props updatedPromptData h)
    (fun _ => mret h).

(** The confirmed action of [handleDeletePrompt] from the point where
    [deletePrompt] is fulfilled. *)
Definition handleDeletePrompt (props : Props) (currentPromptId : string)
    (h : H) : JS H :=
  try_catch
    (removePromptCode currentPromptId;;
     removePromptFromVault currentPromptId;;
     h ← onPromptDeleted props currentPromptId h;
     onClose props true h)
    (fun _ => mret h).

End Modal.
Arguments Props {H}.
End PromptDetailModal.

(** ** What happens on the home page *)

Module HomeEvents.
Import HomePage.

(** The callbacks the home page hands to the detail modal. *)
Definition modalProps {json : JSON} {codes : LocalStorageCodes.JSONCodes}
  : PromptDetailModal.Props (H := State) :=
  {| PromptDetailModal.onClose := fun _ h => mret (handleCloseDetailModal h);
     PromptDetailModal.onSaveToVault := handleSaveToVaultForModal;
     PromptDetailModal.onRemoveFromVault := handleRemoveFromVaultForModal;
     PromptDetailModal.onPromptDeleted := handlePromptDeleted;
     PromptDetailModal.onPromptUpdated := handlePromptUpdated;
     PromptDetailModal.onCommentAdded := handleCommentAdded;
     PromptDetailModal.onCommentDeleted := handleCommentDeleted |}.

(** What reaches the vault or the tags of the home page: a prompt created
    in the create modal, the actions of the detail modal, which writes to
    the storage itself before it calls the page, the star of a card and
    the clicks on tags. *)
Inductive Event :=
  | PromptCreated (newPrompt : Prompt) (modification_code : option string)
  | PromptEditSaved (currentlySaved : bool) (updatedPromptData : Prompt)
  | PromptDeleteConfirmed (currentPromptId : string)
  | CommentSubmitted (currentPromptId comment_id : string)
                     (modification_code : option string)
  | CommentDeleteDone (commentId : string) (currentPromptId : option string)
  | ModalToggleVault (currentlySaved : bool) (currentPromptData : Prompt)
  | ToggleCardVault (prompt : Prompt) (currentlySaved : bool)
  | TagClickFromCard (tag : string)
  | ModalTagClick (tag : string).

Definition step {json : JSON} {codes : LocalStorageCodes.JSONCodes}
    (e : Event) (h : State) : JS State :=
  match e with
  | PromptCreated p c => handlePromptCreated p c h
  | PromptEditSaved b u => PromptDetailModal.handleSavePromptEdit modalProps b u h
  | PromptDeleteConfirmed i => PromptDetailModal.handleDeletePrompt modalProps i h
  | CommentSubmitted i c code =>
      PromptDetailModal.handleCommentSubmit modalProps i c code h
  | CommentDeleteDone c i =>
      PromptDetailModal.handleDeleteComment modalProps c i h
  | ModalToggleVault b p =>
      r ← PromptDetailModal.handleToggleVault modalProps b p h; mret (snd r)
  | ToggleCardVault p b =>
      r ← PromptList.handleToggleCardVault handleVaultChangedByList p b h;
      mret (snd r)
  | TagClickFromCard t => mret (handleTagClickFromCard t h)
  | ModalTagClick t => mret (handleModalTagClick t h)
  end.

End HomeEvents.

(** ** The requests of [src/services/api.ts] *)

Module ApiRequests.
Import Api.

(** The request that [fetchPromptsBatch] sends for a list of ids. *)
Definition batch_request (env : Env) (promptIds : list string) : Request :=
  {| url := API_BASE_URL env +:+ "/prompts/batch/"; method := "POST";
     content_type := "application/json"; body_ids := promptIds |}.

End ApiRequests.

(** The list that [savePromptToVault] writes. *)
Definition upserted (P : Prompt) (l : list Prompt) : list Prompt :=
  if LocalStorage.findIndex (same_id P) l >? -1
  then <[Z.to_nat (LocalStorage.findIndex (same_id P) l) := P]> l
  else l ++ [P].

(** ** A reference engine

    One concrete engine, on which the code above can be run: a JSON codec
    that satisfies the laws of [JSON], and a date parser and a string
    comparison for [Intl]. *)

Module RefEngine.

Definition Prompt_to_tuple (p : Prompt) :=
  (prompt_id p, title p, content p, username p, tags p,
   created_at p, updated_at p, comment_count p).

Definition Prompt_of_tuple
  (t : string * string * string * option string * list string
       * option string * option string * option Z) : Prompt :=
  let '(i, t, c, u, g, ca, ua, n) := t in mkPrompt i t c u g ca ua n.

#[global] Instance Prompt_countable : Countable Prompt.
Proof.
  apply (inj_countable' Prompt_to_tuple Prompt_of_tuple).
  by intros [].
Defined.

(** A document is written as an opening bracket followed by the binary
    digits of its code. *)
Fixpoint digits_of_pos (p : positive) : string :=
  match p with
  | xH => ""
  | xO q => String "0"%char (digits_of_pos q)
  | xI q => String "1"%char (digits_of_pos q)
  end.

Fixpoint pos_of_digits (s : string) : positive :=
  match s with
  | EmptyString => xH
  | String c s' =>
      if bool_decide (c = "0"%char) then xO (pos_of_digits s')
      else xI (pos_of_digits s')
  end.

Definition write_doc {A} `{Countable A} (a : A) : string :=
  String "["%char (digits_of_pos (encode a)).

Definition read_doc {A} `{Countable A} (s : string) : option A :=
  match s with
  | String c s' =>
      if bool_decide (c = "["%char) then decode (pos_of_digits s') else None
  | EmptyString => None
  end.

(** Milliseconds since the epoch of a date of the proleptic Gregorian
    calendar. *)
Definition days_from_civil (y m d : Z) : Z :=
  let y := if m <=? 2 then y - 1 else y in
  let era := y / 400 in
  let yoe := y - era * 400 in
  let mp := if m >? 2 then m - 3 else m + 9 in
  let doy := (153 * mp + 2) / 5 + d - 1 in
  let doe := yoe * 365 + yoe / 4 - yoe / 100 + doy in
  era * 146097 + doe - 719468.

Definition is_leap (y : Z) : bool :=
  ((y mod 4 =? 0) && negb (y mod 100 =? 0)) || (y mod 400 =? 0).

Definition days_in_month (y m : Z) : Z :=
  if m =? 2 then (if is_leap y then 29 else 28)
  else if (m =? 4) || (m =? 6) || (m =? 9) || (m =? 11) then 30
  else 31.

Definition digit (c : ascii) : option Z :=
  let n := Z.of_N (N_of_ascii c) in
  if (48 <=? n) && (n <=? 57) then Some (n - 48) else None.

Fixpoint number_of_digits (acc : Z) (l : list ascii) : option Z :=
  match l with
  | [] => Some acc
  | c :: l' =>
      match digit c with
      | Some d => number_of_digits (acc * 10 + d) l'
      | None => None
      end
  end.

(** The engine reads the form [YYYY-MM-DDTHH:mm:ssZ]; any other text is an
    invalid date. *)
Definition getTime (s : string) : number :=
  match String.list_ascii_of_string s with
  | [y1; y2; y3; y4; c1; m1; m2; c2; d1; d2; c3;
     h1; h2; c4; n1; n2; c5; s1; s2; c6] =>
      if bool_decide ([c1; c2; c3; c4; c5; c6]
                      = ["-"%char; "-"%char; "T"%char; ":"%char; ":"%char; "Z"%char])
      then
        match number_of_digits 0 [y1; y2; y3; y4],
              number_of_digits 0 [m1; m2],
              number_of_digits 0 [d1; d2],
              number_of_digits 0 [h1; h2],
              number_of_digits 0 [n1; n2],
              number_of_digits 0 [s1; s2] with
        | Some y, Some m, Some d, Some h, Some n, Some sec =>
            if (1 <=? m) && (m <=? 12) && (1 <=? d)
               && (d <=? days_in_month y m)
               && (h <=? 23) && (n <=? 59) && (sec <=? 59)
            then Finite ((((days_from_civil y m d * 24 + h) * 60 + n) * 60
                          + sec) * 1000)
            else NaN
        | _, _, _, _, _, _ => NaN
        end
      else NaN
  | _ => NaN
  end.

Definition lower (c : ascii) : ascii :=
  let n := N_of_ascii c in
  if ((65 <=? n) && (n <=? 90))%N then ascii_of_N (n + 32) else c.

Fixpoint toLowerCase (s : string) : string :=
  match s with
  | EmptyString => EmptyString
  | String c s' => String (lower c) (toLowerCase s')
  end.

Definition sign_of (c : comparison) : Z :=
  match c with
  | Lt => -1
  | Eq => 0
  | Gt => 1
  end.

(** Letters compare without regard to case; of two texts that differ in
    case only, the one with the lower-case letter comes first. *)
Definition localeCompare (a b : string) : Z :=
  match String.compare (toLowerCase a) (toLowerCase b) with
  | Eq => sign_of (String.compare b a)
  | c => sign_of c
  end.

End RefEngine.

(** The reference engine at every value: the literals, the empty object,
    the texts of the documents and the non-negative whole numbers. *)

Module RefValues.
Import LocalStorageValues RefEngine.

Definition parse_value (s : string) : option JSValue :=
  if bool_decide (s = "null") then Some JSNull
  else if bool_decide (s = "true") then Some (JSBoolean true)
  else if bool_decide (s = "false") then Some (JSBoolean false)
  else if bool_decide (s = "{}") then Some JSObject
  else
    match s with
    | String c _ =>
        if bool_decide (c = "["%char) then JSArray <$> read_doc s
        else JSNumber <$> number_of_digits 0 (String.list_ascii_of_string s)
    | EmptyString => None
    end.

End RefValues.

(** ** A scenario

    The vault of the specification's example: three local prompts A, B and
    C, and a server that still has A and C, with new field values. *)

Module Scenario.
Import Api.

Definition prompt (i t : string) (n : option Z) : Prompt :=
  mkPrompt i t "body" None ["tag"]
    (Some "2024-01-01T00:00:00Z") (Some "2024-01-01T00:00:00Z") n.

Definition A : Prompt := prompt "A" "first" (Some 0).
Definition B : Prompt := prompt "B" "second" (Some 2).
Definition C : Prompt := prompt "C" "third" None.
Definition A' : Prompt := prompt "A" "first, edited" (Some 4).
Definition C' : Prompt := prompt "C" "third, edited" (Some 1).

Definition storage_of (l : list Prompt) : Storage :=
  {| items := {[ LocalStorage.VAULT_KEY := RefEngine.write_doc l ]};
     access_denied := false;
     quota_exceeded := false |}.

Definition corrupt_storage : Storage :=
  {| items := {[ LocalStorage.VAULT_KEY := "{not json" ]};
     access_denied := false;
     quota_exceeded := false |}.

Definition full (st : Storage) : Storage :=
  {| items := items st; access_denied := false; quota_exceeded := true |}.

(** A server that answers a batch request with the prompts it has among
    the requested ids. *)
Definition server (database : list Prompt) : Env :=
  {| API_BASE_URL := "https://example.org/api";
     fetch := fun request =>
       Fulfilled {| ok := true; status := 200; statusText := "OK";
                    json_as_error := None;
                    json_as_prompts :=
                      Fulfilled
                        (List.filter
                           (fun p => bool_decide (prompt_id p ∈ body_ids request))
                           database) |} |}.

Definition with_codes (st : Storage) : Storage :=
  {| items :=
       <[ LocalStorage.PROMPT_CODES_KEY :=
            RefEngine.write_doc [("A", "secret1"); ("B", "secret2")] ]>
         (<[ LocalStorage.COMMENT_CODES_KEY :=
               RefEngine.write_doc [("c1", "secret3")] ]> (items st));
     access_denied := access_denied st;
     quota_exceeded := quota_exceeded st |}.

Definition offline : Env :=
  {| API_BASE_URL := "https://example.org/api";
     fetch := fun _ => Rejected (ErrorObject "Failed to fetch") |}.

Definition page_of (l : list Prompt) : VaultPage.State :=
  {| VaultPage.vaultPrompts := l; VaultPage.isInitialLoading := false;
     VaultPage.isBatchLoading := false; VaultPage.batchError := None |}.

End Scenario.

(** Data for the handlers of the pages. *)

Module HandlerScenario.
Import Api Scenario.



Definition home : HomePage.State :=
  {| HomePage.vaultVersion := 0; HomePage.selectedPrompt := None;
     HomePage.isCreateModalOpen := false; HomePage.activeTags := [] |}.

(** A response with status 404 whose body has a [detail]. *)
Definition not_found : Response :=
  {| ok := false; status := 404; statusText := "Not Found";
     json_as_error := Some {| detail := Some "No such prompt."; message := None |};
     json_as_prompts := Rejected OtherValue |}.

(** A response with status 204; its body does not parse. *)
Definition no_content : Response :=
  {| ok := true; status := 204; statusText := "No Content";
     json_as_error := None;
     json_as_prompts := Rejected (ErrorObject "Unexpected end of JSON input") |}.

Definition silent_server : Env :=
  {| API_BASE_URL := "https://example.org/api";
     fetch := fun _ => Fulfilled no_content |}.

(** What the vault page shows and what the storage holds after a run. *)
Definition shown_and_stored {json : JSON}
    (r : outcome VaultPageHandlers.View * Storage) : list Prompt * list Prompt :=
  (match fst r with
   | Returns v => VaultPage.vaultPrompts (VaultPageHandlers.page v)
   | Throws _ => []
   end,
   LocalStorage.read_vault (snd r)).

End HandlerScenario.

(** * Properties *)

(** ** The reference engine satisfies the laws *)

Module RefInstances.
Import RefEngine.

Lemma pos_of_digits_of_pos (p : positive) : pos_of_digits (digits_of_pos p) = p.
Proof. induction p as [q IH|q IH|]; simpl; [rewrite IH..|]; reflexivity. Qed.

Lemma read_write_doc {A} `{Countable A} (a : A) : read_doc (write_doc a) = Some a.
Proof.
  unfold read_doc, write_doc. rewrite bool_decide_eq_true_2 by reflexivity.
  rewrite pos_of_digits_of_pos. apply decode_encode.
Qed.

Lemma write_doc_truthy {A} `{Countable A} (a : A) : truthy (write_doc a) = true.
Proof. reflexivity. Qed.

#[global] Instance ref_JSON : JSON :=
  {| JSON_stringify_prompts := write_doc;
     JSON_parse_prompts := read_doc;
     JSON_parse_codes := read_doc;
     parse_stringify_prompts := read_write_doc;
     stringify_prompts_truthy := write_doc_truthy |}.

#[global] Instance ref_Intl : Intl :=
  {| Date_getTime := getTime; String_localeCompare := localeCompare |}.

End RefInstances.

(** ** The local vault store *)

Module LocalStorageFacts.
Import LocalStorage.

Section Facts.
Context {json : JSON}.

Lemma getVaultPrompts_returns (st : Storage) :
  getVaultPrompts st = (Returns (read_vault st), st).
Proof.
  unfold read_vault, getVaultPrompts, try_catch, mbind, JS_bind, bind, getItem.
  destruct (access_denied st); [reflexivity|].
  destruct (items st !! VAULT_KEY) as [s|]; [|reflexivity].
  destruct (truthy s); [|reflexivity].
  destruct (JSON_parse_prompts s); reflexivity.
Qed.

Lemma read_vault_denied (st : Storage) :
  access_denied st = true -> read_vault st = [].
Proof.
  intros Hd. unfold read_vault, getVaultPrompts, try_catch, mbind, JS_bind,
    bind, getItem. rewrite Hd. reflexivity.
Qed.

Lemma read_vault_lookup (st : Storage) :
  access_denied st = false ->
  read_vault st =
    match items st !! VAULT_KEY with
    | Some s =>
        if truthy s
        then match JSON_parse_prompts s with Some l => l | None => [] end
        else []
    | None => []
    end.
Proof.
  intros Hd. unfold read_vault, getVaultPrompts, try_catch, mbind, JS_bind,
    bind, getItem. rewrite Hd.
  destruct (items st !! VAULT_KEY) as [s|]; [|reflexivity].
  destruct (truthy s); [|reflexivity].
  destruct (JSON_parse_prompts s); reflexivity.
Qed.

(** What a successful [setItem] of a stringified list leaves behind. *)
Lemma setItem_vault (st : Storage) (l : list Prompt) :
  access_denied st = false -> quota_exceeded st = false ->
  exists st',
    setItem VAULT_KEY (JSON_stringify_prompts l) st = (Returns tt, st')
    /\ read_vault st' = l
    /\ access_denied st' = false /\ quota_exceeded st' = false
    /\ forall k, k <> VAULT_KEY -> items st' !! k = items st !! k.
Proof.
  intros Hd Hq. unfold setItem. rewrite Hd, Hq. eexists. split; [reflexivity|].
  split; [|split; [reflexivity|split; [reflexivity|]]].
  - rewrite read_vault_lookup by reflexivity. simpl.
    rewrite lookup_insert_eq, stringify_prompts_truthy, parse_stringify_prompts.
    reflexivity.
  - intros k Hk. simpl. apply lookup_insert_ne. congruence.
Qed.

Lemma setItem_fails (st : Storage) (k v : string) :
  access_denied st = true \/ quota_exceeded st = true ->
  exists e, setItem k v st = (Throws e, st).
Proof.
  unfold setItem. intros [Hd|Hq].
  - rewrite Hd. eauto.
  - destruct (access_denied st); [eauto|]. rewrite Hq. eauto.
Qed.

(** At the type of its cast, [getVaultPrompts] is a total read: in every
    storage it returns a list, throws nothing and leaves the storage as it
    was.  The list is empty when access to the storage is denied, when the
    key is absent, when the stored text is empty and when the stored text
    does not parse to a list; when the stored text is the text of a list,
    it is that list. *)
Lemma getVaultPrompts_total_read (st : Storage) :
  exists l,
    getVaultPrompts st = (Returns l, st)
    /\ (access_denied st = true -> l = [])
    /\ (items st !! VAULT_KEY = None -> l = [])
    /\ (forall s, items st !! VAULT_KEY = Some s -> truthy s = false -> l = [])
    /\ (forall s, items st !! VAULT_KEY = Some s ->
                  JSON_parse_prompts s = None -> l = [])
    /\ (forall s l0, access_denied st = false ->
                     items st !! VAULT_KEY = Some s -> truthy s = true ->
                     JSON_parse_prompts s = Some l0 -> l = l0)
    /\ (forall l0, access_denied st = false ->
                   items st !! VAULT_KEY = Some (JSON_stringify_prompts l0) ->
                   l = l0).
Proof.
  exists (read_vault st). split; [apply getVaultPrompts_returns|].
  destruct (access_denied st) eqn:Hd.
  - rewrite (read_vault_denied st Hd). repeat split; try reflexivity; discriminate.
  - rewrite (read_vault_lookup st Hd).
    split; [discriminate|].
    split; [intros ->; reflexivity|].
    split; [intros s -> ->; reflexivity|].
    split; [intros s -> ->; destruct (truthy s); reflexivity|].
    split.
    + intros s l0 _ -> -> ->. reflexivity.
    + intros l0 _ ->.
      rewrite stringify_prompts_truthy, parse_stringify_prompts. reflexivity.
Qed.

(** Lists and [filter]. *)

Lemma other_id_true (promptId : string) (p : Prompt) :
  other_id promptId p = true <-> prompt_id p <> promptId.
Proof.
  unfold other_id. rewrite negb_true_iff, bool_decide_eq_false. reflexivity.
Qed.

Lemma other_id_false (promptId : string) (p : Prompt) :
  other_id promptId p = false <-> prompt_id p = promptId.
Proof.
  unfold other_id. rewrite negb_false_iff, bool_decide_eq_true. reflexivity.
Qed.

Lemma filter_other_id_absent (promptId : string) (l : list Prompt) :
  promptId ∉ ids l -> List.filter (other_id promptId) l = l.
Proof.
  induction l as [|p l IH]; [reflexivity|]. simpl. intros Hn.
  apply not_elem_of_cons in Hn as [Hp Hl].
  assert (E : other_id promptId p = true) by (apply other_id_true; congruence).
  rewrite E. f_equal. auto.
Qed.

Lemma filter_other_id_length (promptId : string) (l : list Prompt) :
  (length (List.filter (other_id promptId) l) <= length l)%nat
  /\ ((length (List.filter (other_id promptId) l) < length l)%nat
      <-> promptId ∈ ids l).
Proof.
  induction l as [|p l [IHle IH]]; simpl.
  - split; [lia|]. split; [lia|]. intros Hin. inversion Hin.
  - destruct (other_id promptId p) eqn:E; simpl.
    + apply other_id_true in E. split; [lia|].
      rewrite elem_of_cons, <- IH. split; [lia|].
      intros [Heq|Hlt]; [congruence|lia].
    + apply other_id_false in E. split; [lia|].
      split; [intros _; rewrite E; left|lia].
Qed.

Lemma filter_other_id_gone (promptId : string) (l : list Prompt) :
  promptId ∉ ids (List.filter (other_id promptId) l).
Proof.
  induction l as [|p l IH]; simpl; [inversion 1|].
  destruct (other_id promptId p) eqn:E; simpl; [|exact IH].
  apply other_id_true in E.
  apply not_elem_of_cons. split; [congruence|exact IH].
Qed.

Lemma removePromptFromVault_run (promptId : string) (st : Storage) :
  removePromptFromVault promptId st =
    if (length (List.filter (other_id promptId) (read_vault st))
        <? length (read_vault st))%nat
    then
      match setItem VAULT_KEY
              (JSON_stringify_prompts
                 (List.filter (other_id promptId) (read_vault st))) st with
      | (Returns _, st') => (Returns true, st')
      | (Throws _, st') => (Returns false, st')
      end
    else (Returns false, st).
Proof.
  unfold removePromptFromVault, try_catch, mbind, JS_bind, bind.
  rewrite getVaultPrompts_returns. fold (other_id promptId).
  destruct (_ <? _)%nat; [|reflexivity].
  destruct (setItem _ _ st) as [[[]|e] st']; reflexivity.
Qed.

(** C7.  [removePromptFromVault] never throws.  It returns [true] exactly
    when an entry with the id is in the vault and the quota of the storage
    is not exceeded: an id that is present is then removed, [true] is
    returned, and the vault is the old one without the entries of that id.
    It returns [true] only if the id was in the vault and is gone
    afterwards.  When it returns [false] the storage is untouched, and for
    an id that is not in the vault it returns [false]. *)
Theorem removePromptFromVault_contract (promptId : string) (st : Storage) :
  exists b st',
    removePromptFromVault promptId st = (Returns b, st')
    /\ (b = true <->
        promptId ∈ ids (read_vault st) /\ quota_exceeded st = false)
    /\ (promptId ∈ ids (read_vault st) -> quota_exceeded st = false ->
        b = true /\ (promptId ∉ ids (read_vault st'))
        /\ (length (read_vault st') < length (read_vault st))%nat)
    /\ (b = true <->
        promptId ∈ ids (read_vault st) /\ promptId ∉ ids (read_vault st'))
    /\ (b = true ->
        read_vault st' =
          List.filter (fun p => negb (bool_decide (prompt_id p = promptId)))
                      (read_vault st))
    /\ (b = false -> st' = st)
    /\ (promptId ∉ ids (read_vault st) -> b = false /\ st' = st).
Proof.
  rewrite removePromptFromVault_run.
  destruct (filter_other_id_length promptId (read_vault st)) as [_ Hlt].
  destruct (Nat.ltb_spec (length (List.filter (other_id promptId) (read_vault st)))
              (length (read_vault st))) as [Hshrink|Hsame].
  - pose proof Hshrink as Hless. apply Hlt in Hshrink.
    destruct (access_denied st) eqn:Hd; [|destruct (quota_exceeded st) eqn:Hq].
    + rewrite (read_vault_denied st Hd) in Hshrink. inversion Hshrink.
    + destruct (setItem_fails st VAULT_KEY
                  (JSON_stringify_prompts
                     (List.filter (other_id promptId) (read_vault st))))
        as [e ->]; [right; exact Hq|].
      exists false, st. split; [reflexivity|].
      split; [split; [discriminate|intros [_ Hf]; discriminate]|].
      split; [intros _ Hf; discriminate|].
      split; [split; [discriminate|intros [Hin Hnot]; contradiction]|].
      split; [discriminate|]. split; [reflexivity|]. intros Hn. contradiction.
    + destruct (setItem_vault st (List.filter (other_id promptId) (read_vault st))
                  Hd Hq) as (st' & -> & Hread & _).
      exists true, st'. split; [reflexivity|]. rewrite Hread.
      split; [split; [intros _; split; [exact Hshrink|reflexivity]|reflexivity]|].
      split; [intros _ _; split; [reflexivity|];
              split; [apply filter_other_id_gone|exact Hless]|].
      split; [split; [intros _; split; [exact Hshrink|apply filter_other_id_gone]
                     |reflexivity]|].
      split; [reflexivity|]. split; [discriminate|]. intros Hn. contradiction.
  - assert (Hn : promptId ∉ ids (read_vault st)) by (intros Hin; apply Hlt in Hin; lia).
    exists false, st. split; [reflexivity|].
    split; [split; [discriminate|intros [Hin _]; contradiction]|].
    split; [intros Hin; contradiction|].
    split; [split; [discriminate|intros [Hin _]; contradiction]|].
    split; [discriminate|]. split; [reflexivity|]. intros _. split; reflexivity.
Qed.

Lemma clearVault_run (st : Storage) :
  clearVault st =
    (Returns tt,
     if access_denied st then st
     else {| items := delete VAULT_KEY (items st);
             access_denied := access_denied st;
             quota_exceeded := quota_exceeded st |}).
Proof.
  unfold clearVault, try_catch, removeItem.
  destruct (access_denied st); reflexivity.
Qed.

Lemma read_vault_cleared (st : Storage) : read_vault (snd (clearVault st)) = [].
Proof.
  rewrite clearVault_run. simpl. destruct (access_denied st) eqn:Hd.
  - apply read_vault_denied, Hd.
  - rewrite read_vault_lookup by reflexivity. simpl.
    rewrite lookup_delete_eq. reflexivity.
Qed.

(** C8.  [clearVault] returns without throwing in every storage, and in the
    storage it leaves [getVaultPrompts] returns the empty list and
    [isPromptInVault] is false for every id. *)
Theorem clearVault_post_state (st : Storage) :
  exists st',
    clearVault st = (Returns tt, st')
    /\ getVaultPrompts st' = (Returns [], st')
    /\ forall promptId, isPromptInVault promptId st' = (Returns false, st').
Proof.
  exists (snd (clearVault st)).
  split; [rewrite clearVault_run; reflexivity|].
  pose proof (read_vault_cleared st) as Hempty.
  pose proof (getVaultPrompts_returns (snd (clearVault st))) as Hget.
  rewrite Hempty in Hget. split; [exact Hget|].
  intros promptId. unfold isPromptInVault, mbind, JS_bind, bind.
  rewrite Hget. reflexivity.
Qed.

Lemma codes_keys_differ :
  PROMPT_CODES_KEY <> VAULT_KEY /\ COMMENT_CODES_KEY <> VAULT_KEY.
Proof. split; discriminate. Qed.

Lemma getPromptCodes_depends (st1 st2 : Storage) :
  access_denied st1 = access_denied st2 ->
  items st1 !! PROMPT_CODES_KEY = items st2 !! PROMPT_CODES_KEY ->
  fst (getPromptCodes st1) = fst (getPromptCodes st2).
Proof.
  intros Hd Hl. unfold getPromptCodes, try_catch, mbind, JS_bind, bind, getItem.
  rewrite Hd, Hl. destruct (access_denied st2); [reflexivity|].
  destruct (items st2 !! PROMPT_CODES_KEY) as [s|]; [|reflexivity].
  destruct (truthy s); [|reflexivity].
  destruct (JSON_parse_codes s); reflexivity.
Qed.

Lemma getCommentCodes_depends (st1 st2 : Storage) :
  access_denied st1 = access_denied st2 ->
  items st1 !! COMMENT_CODES_KEY = items st2 !! COMMENT_CODES_KEY ->
  fst (getCommentCodes st1) = fst (getCommentCodes st2).
Proof.
  intros Hd Hl. unfold getCommentCodes, try_catch, mbind, JS_bind, bind, getItem.
  rewrite Hd, Hl. destruct (access_denied st2); [reflexivity|].
  destruct (items st2 !! COMMENT_CODES_KEY) as [s|]; [|reflexivity].
  destruct (truthy s); [|reflexivity].
  destruct (JSON_parse_codes s); reflexivity.
Qed.

Lemma getPromptCodes_total (st : Storage) :
  exists m, getPromptCodes st = (Returns m, st).
Proof.
  unfold getPromptCodes, try_catch, mbind, JS_bind, bind, getItem.
  destruct (access_denied st); [eauto|].
  destruct (items st !! PROMPT_CODES_KEY) as [s|]; [|eauto].
  destruct (truthy s); [|eauto].
  destruct (JSON_parse_codes s); eauto.
Qed.

Lemma getCommentCodes_total (st : Storage) :
  exists m, getCommentCodes st = (Returns m, st).
Proof.
  unfold getCommentCodes, try_catch, mbind, JS_bind, bind, getItem.
  destruct (access_denied st); [eauto|].
  destruct (items st !! COMMENT_CODES_KEY) as [s|]; [|eauto].
  destruct (truthy s); [|eauto].
  destruct (JSON_parse_codes s); eauto.
Qed.

(** C9.  [clearVault] touches the vault record only: the two records of
    modification codes are stored as before, and [getPromptCodes],
    [getCommentCodes], [getPromptCode] and [getCommentCode] return after
    [clearVault] what they returned before it. *)
Theorem clearVault_frame (st : Storage) :
  let st' := snd (clearVault st) in
  items st' !! PROMPT_CODES_KEY = items st !! PROMPT_CODES_KEY
  /\ items st' !! COMMENT_CODES_KEY = items st !! COMMENT_CODES_KEY
  /\ fst (getPromptCodes st') = fst (getPromptCodes st)
  /\ fst (getCommentCodes st') = fst (getCommentCodes st)
  /\ (forall promptId,
        fst (getPromptCode promptId st') = fst (getPromptCode promptId st))
  /\ (forall commentId,
        fst (getCommentCode commentId st') = fst (getCommentCode commentId st)).
Proof.
  intros st'.
  assert (Hd : access_denied st' = access_denied st).
  { subst st'. rewrite clearVault_run. simpl. destruct (access_denied st) eqn:E;
      [exact E|reflexivity]. }
  assert (Hk : forall k, k <> VAULT_KEY -> items st' !! k = items st !! k).
  { intros k Hk. subst st'. rewrite clearVault_run. simpl.
    destruct (access_denied st); [reflexivity|]. simpl.
    apply lookup_delete_ne. congruence. }
  destruct codes_keys_differ as [Hp Hc].
  pose proof (getPromptCodes_depends st' st Hd (Hk _ Hp)) as HP.
  pose proof (getCommentCodes_depends st' st Hd (Hk _ Hc)) as HC.
  split; [apply Hk, Hp|]. split; [apply Hk, Hc|].
  split; [exact HP|]. split; [exact HC|]. split.
  - intros promptId. unfold getPromptCode, mbind, JS_bind, bind.
    destruct (getPromptCodes_total st') as [m1 E1].
    destruct (getPromptCodes_total st) as [m2 E2].
    rewrite E1, E2 in *. simpl in HP. injection HP as ->. reflexivity.
  - intros commentId. unfold getCommentCode, mbind, JS_bind, bind.
    destruct (getCommentCodes_total st') as [m1 E1].
    destruct (getCommentCodes_total st) as [m2 E2].
    rewrite E1, E2 in *. simpl in HC. injection HC as ->. reflexivity.
Qed.

(** [findIndex]. *)

Lemma findIndex_lower {A} (f : A -> bool) (l : list A) : -1 <= findIndex f l.
Proof.
  induction l as [|x l IH]; simpl; [lia|].
  destruct (f x); [lia|]. destruct (Z.gtb_spec (findIndex f l) (-1)); lia.
Qed.

Lemma findIndex_none {A} (f : A -> bool) (l : list A) :
  findIndex f l = -1 <-> forall x, x ∈ l -> f x = false.
Proof.
  induction l as [|x l IH]; simpl.
  - split; [intros _ y Hy; inversion Hy|reflexivity].
  - destruct (f x) eqn:E.
    + split; [discriminate|]. intros Hall.
      rewrite (Hall x) in E by left. discriminate.
    + pose proof (findIndex_lower f l) as Hlow.
      destruct (Z.gtb_spec (findIndex f l) (-1)) as [Hgt|Hle].
      * split; [lia|]. intros Hall.
        assert (findIndex f l = -1) by (apply IH; intros y Hy; apply Hall; by right).
        lia.
      * split; [|reflexivity]. intros _ y Hy.
        apply elem_of_cons in Hy as [->|Hy]; [exact E|].
        apply IH; [lia|exact Hy].
Qed.

Lemma findIndex_some {A} (f : A -> bool) (l : list A) :
  findIndex f l <> -1 ->
  exists i x,
    findIndex f l = Z.of_nat i /\ l !! i = Some x /\ f x = true
    /\ forall j y, (j < i)%nat -> l !! j = Some y -> f y = false.
Proof.
  induction l as [|x l IH]; simpl; [congruence|].
  destruct (f x) eqn:E.
  - intros _. exists 0%nat, x. repeat split; try reflexivity; try exact E.
    intros j y Hj. lia.
  - destruct (Z.gtb_spec (findIndex f l) (-1)) as [Hgt|Hle]; [|congruence].
    intros _. destruct IH as (i & y & Hi & Hl & Hf & Hfirst); [lia|].
    exists (S i), y. split; [lia|]. split; [exact Hl|]. split; [exact Hf|].
    intros [|j] z Hj Hz; simpl in Hz.
    + injection Hz as <-. exact E.
    + apply (Hfirst j); [lia|exact Hz].
Qed.

Lemma savePromptToVault_run (promptToSave : Prompt) (st : Storage) :
  savePromptToVault promptToSave st =
    let i := findIndex (same_id promptToSave) (read_vault st) in
    match setItem VAULT_KEY
            (JSON_stringify_prompts
               (if i >? -1 then <[Z.to_nat i := promptToSave]> (read_vault st)
                else read_vault st ++ [promptToSave])) st with
    | (Returns _, st') => (Returns true, st')
    | (Throws _, st') => (Returns false, st')
    end.
Proof.
  unfold savePromptToVault, try_catch, mbind, JS_bind, bind.
  rewrite getVaultPrompts_returns. fold (same_id promptToSave). simpl.
  destruct (setItem _ _ st) as [[[]|e] st']; reflexivity.
Qed.

Lemma ids_insert_same (l : list Prompt) (i : nat) (old p : Prompt) :
  l !! i = Some old -> prompt_id old = prompt_id p ->
  ids (<[i := p]> l) = ids l.
Proof.
  intros Hl Hid. unfold ids. rewrite list_fmap_insert.
  apply list_insert_id. rewrite list_lookup_fmap, Hl. simpl. congruence.
Qed.

Lemma filter_same_id_absent (p : Prompt) (l : list Prompt) :
  prompt_id p ∉ ids l -> List.filter (same_id p) l = [].
Proof.
  induction l as [|q l IH]; [reflexivity|]. simpl. intros Hn.
  apply not_elem_of_cons in Hn as [Hq Hl]. unfold same_id at 1.
  rewrite bool_decide_eq_false_2 by congruence. auto.
Qed.

Lemma filter_same_id_unique (p : Prompt) (l : list Prompt) (i : nat) :
  NoDup (ids l) -> l !! i = Some p -> List.filter (same_id p) l = [p].
Proof.
  revert i. induction l as [|q l IH]; intros i Hnd Hl; [discriminate|].
  simpl in Hnd. pose proof (NoDup_cons_1_1 _ _ Hnd) as Hq.
  apply NoDup_cons_1_2 in Hnd. destruct i as [|i]; simpl in *.
  - injection Hl as ->. unfold same_id at 1.
    rewrite bool_decide_eq_true_2 by reflexivity.
    f_equal. apply filter_same_id_absent, Hq.
  - assert (Hin : prompt_id p ∈ ids l).
    { apply list_elem_of_fmap. exists p. split; [reflexivity|].
      apply list_elem_of_lookup. eauto. }
    unfold same_id at 1. rewrite bool_decide_eq_false_2.
    + apply (IH i); assumption.
    + intros Heq. apply Hq. rewrite Heq. exact Hin.
Qed.

(** C2.  [savePromptToVault] never throws.  When the storage cannot be
    written it returns [false] and leaves the storage untouched.  Otherwise
    it returns [true] and upserts: a prompt whose id is not in the vault is
    appended; a prompt whose id is in the vault replaces the first entry
    with that id at its position, so that the length of the list and its
    sequence of ids do not change; and when the ids of the vault were
    pairwise distinct they still are, and the saved prompt is the one entry
    of the new vault that carries its id. *)
Theorem savePromptToVault_upsert (P : Prompt) (st : Storage) :
  let v := read_vault st in
  exists b st',
    savePromptToVault P st = (Returns b, st')
    /\ (access_denied st = true \/ quota_exceeded st = true ->
        b = false /\ st' = st)
    /\ (access_denied st = false -> quota_exceeded st = false ->
        let v' := read_vault st' in
        b = true
        /\ (prompt_id P ∉ ids v -> v' = v ++ [P])
        /\ (prompt_id P ∈ ids v ->
            exists i old,
              v !! i = Some old /\ prompt_id old = prompt_id P
              /\ (forall j q, (j < i)%nat -> v !! j = Some q ->
                              prompt_id q <> prompt_id P)
              /\ v' = <[i := P]> v
              /\ length v' = length v /\ ids v' = ids v)
        /\ (NoDup (ids v) ->
            NoDup (ids v')
            /\ List.filter
                 (fun q => bool_decide (prompt_id q = prompt_id P)) v' = [P])).
Proof.
  intros v. rewrite savePromptToVault_run. fold v. cbv zeta.
  set (i := findIndex (same_id P) v).
  set (v1 := if i >? -1 then <[Z.to_nat i := P]> v else v ++ [P]).
  destruct (access_denied st) eqn:Hd; [|destruct (quota_exceeded st) eqn:Hq].
  - destruct (setItem_fails st VAULT_KEY (JSON_stringify_prompts v1)) as [e ->];
      [left; exact Hd|].
    exists false, st. split; [reflexivity|]. split; [intros _; split; reflexivity|].
    discriminate.
  - destruct (setItem_fails st VAULT_KEY (JSON_stringify_prompts v1)) as [e ->];
      [right; exact Hq|].
    exists false, st. split; [reflexivity|]. split; [intros _; split; reflexivity|].
    discriminate.
  - destruct (setItem_vault st v1 Hd Hq) as (st' & -> & Hread & _).
    exists true, st'. split; [reflexivity|].
    split; [intros [?|?]; discriminate|]. intros _ _. cbv zeta. rewrite Hread.
    split; [reflexivity|].
    assert (Habsent : prompt_id P ∉ ids v -> v1 = v ++ [P]).
    { intros Hn. subst v1.
      assert (Hi : i = -1).
      { apply findIndex_none. intros q Hq'. unfold same_id.
        apply bool_decide_eq_false. intros Heq. apply Hn. rewrite <- Heq.
        apply list_elem_of_fmap. eauto. }
      rewrite Hi. reflexivity. }
    assert (Hpresent : prompt_id P ∈ ids v ->
              exists k old, v !! k = Some old /\ prompt_id old = prompt_id P
                /\ (forall j q, (j < k)%nat -> v !! j = Some q ->
                                prompt_id q <> prompt_id P)
                /\ v1 = <[k := P]> v).
    { intros Hin. apply list_elem_of_fmap in Hin as (q & Hq' & Hqin).
      destruct (findIndex_some (same_id P) v) as (k & old & Hk & Hl & Hf & Hfirst).
      { intros Hnone. rewrite findIndex_none in Hnone.
        specialize (Hnone q Hqin). unfold same_id in Hnone.
        apply bool_decide_eq_false in Hnone. congruence. }
      exists k, old. split; [exact Hl|].
      split; [unfold same_id in Hf; apply bool_decide_eq_true in Hf; exact Hf|].
      split.
      - intros j y Hj Hy. specialize (Hfirst j y Hj Hy). unfold same_id in Hfirst.
        apply bool_decide_eq_false in Hfirst. exact Hfirst.
      - subst v1. fold i in Hk. rewrite Hk.
        destruct (Z.gtb_spec (Z.of_nat k) (-1)); [|lia].
        rewrite Nat2Z.id. reflexivity. }
    split; [exact Habsent|]. split.
    + intros Hin. destruct (Hpresent Hin) as (k & old & Hl & Hid & Hfirst & Hv1).
      exists k, old. rewrite Hv1. repeat split; try assumption.
      * apply length_insert.
      * apply (ids_insert_same v k old P Hl Hid).
    + intros Hnd. destruct (decide (prompt_id P ∈ ids v)) as [Hin|Hn].
      * destruct (Hpresent Hin) as (k & old & Hl & Hid & Hfirst & Hv1).
        assert (Hids : ids v1 = ids v)
          by (rewrite Hv1; apply (ids_insert_same v k old P Hl Hid)).
        split; [rewrite Hids; exact Hnd|].
        apply (filter_same_id_unique P v1 k); [rewrite Hids; exact Hnd|].
        rewrite Hv1. apply list_lookup_insert_eq. apply lookup_lt_Some in Hl. exact Hl.
      * rewrite (Habsent Hn).
        assert (Hnd' : NoDup (ids (v ++ [P]))).
        { unfold ids. rewrite fmap_app. apply list.NoDup_app. split; [exact Hnd|].
          split; [|apply NoDup_singleton].
          intros x Hx Hx'. apply list_elem_of_singleton in Hx'. simpl in Hx'.
          subst x. contradiction. }
        split; [exact Hnd'|].
        apply (filter_same_id_unique P (v ++ [P]) (length v)); [exact Hnd'|].
        rewrite lookup_app_r by lia. rewrite Nat.sub_diag. reflexivity.
Qed.

End Facts.
End LocalStorageFacts.

(** ** The read of the vault at every value of [JSON.parse] *)

Module LocalStorageValuesFacts.
Import LocalStorageValues.
Import LocalStorageFacts.

Section Facts.
Context {json : JSON} {values : JSONValues}.

Lemma JSON_parse_stringify_prompts (l : list Prompt) :
  JSON_parse (JSON_stringify_prompts l) = Some (JSArray l).
Proof.
  pose proof (JSON_parse_prompts_spec (JSON_stringify_prompts l)) as Hspec.
  rewrite parse_stringify_prompts in Hspec.
  destruct (JSON_parse (JSON_stringify_prompts l)) as [[| | | | |l']|];
    try discriminate.
  injection Hspec as <-. reflexivity.
Qed.

(** [getVaultPrompts] returns in every storage and leaves it as it was.
    It returns the empty array when access is denied, when the key is
    absent, when the text is empty and when the text does not parse; in
    every other storage it returns the value the text parses to, which is
    the stored list for the text of a list. *)
Lemma getVaultPrompts_value (st : Storage) :
  exists v,
    getVaultPrompts st = (Returns v, st)
    /\ (access_denied st = true -> v = JSArray [])
    /\ (items st !! LocalStorage.VAULT_KEY = None -> v = JSArray [])
    /\ (forall s, items st !! LocalStorage.VAULT_KEY = Some s ->
                  truthy s = false -> v = JSArray [])
    /\ (forall s, items st !! LocalStorage.VAULT_KEY = Some s ->
                  JSON_parse s = None -> v = JSArray [])
    /\ (forall s v0, access_denied st = false ->
                     items st !! LocalStorage.VAULT_KEY = Some s ->
                     truthy s = true -> JSON_parse s = Some v0 -> v = v0)
    /\ (forall l0, access_denied st = false ->
                   items st !! LocalStorage.VAULT_KEY
                     = Some (JSON_stringify_prompts l0) ->
                   v = JSArray l0).
Proof.
  unfold getVaultPrompts, try_catch, mbind, JS_bind, bind, getItem.
  destruct (access_denied st) eqn:Hd.
  - eexists. split; [reflexivity|]. repeat split; try reflexivity; discriminate.
  - destruct (items st !! LocalStorage.VAULT_KEY) as [s|] eqn:Hs.
    + destruct (truthy s) eqn:Ht.
      * destruct (JSON_parse s) as [v|] eqn:Hp.
        -- exists v. split; [reflexivity|]. split; [discriminate|].
           split; [discriminate|]. split; [intros s0 [= <-]; congruence|].
           split; [intros s0 [= <-]; congruence|]. split.
           ++ intros s0 v0 _ [= <-] _ Hv. congruence.
           ++ intros l0 _ [= ->]. rewrite JSON_parse_stringify_prompts in Hp.
              congruence.
        -- exists (JSArray []). split; [reflexivity|]. split; [reflexivity|].
           split; [discriminate|]. split; [reflexivity|]. split; [reflexivity|].
           split.
           ++ intros s0 v0 _ [= <-] _ Hv. congruence.
           ++ intros l0 _ [= ->]. rewrite JSON_parse_stringify_prompts in Hp.
              discriminate.
      * exists (JSArray []). split; [reflexivity|]. split; [reflexivity|].
        split; [discriminate|]. split; [reflexivity|]. split; [reflexivity|].
        split.
        -- intros s0 v0 _ [= <-] Ht'. congruence.
        -- intros l0 _ [= ->]. rewrite stringify_prompts_truthy in Ht.
           discriminate.
    + exists (JSArray []). split; [reflexivity|]. repeat split; try reflexivity;
        discriminate.
Qed.

(** A stored text that parses to a value that is no array: the value is
    returned, not the empty array. *)
Lemma getVaultPrompts_not_an_array (st : Storage) (s : string) (v : JSValue) :
  access_denied st = false ->
  items st !! LocalStorage.VAULT_KEY = Some s -> truthy s = true ->
  JSON_parse s = Some v -> (forall l, v <> JSArray l) ->
  getVaultPrompts st = (Returns v, st) /\ v <> JSArray [].
Proof.
  intros Hd Hs Ht Hp Hv.
  destruct (getVaultPrompts_value st) as (v' & Hrun & _ & _ & _ & _ & Hval & _).
  rewrite (Hval s v Hd Hs Ht Hp) in Hrun. split; [exact Hrun|apply Hv].
Qed.

(** [LocalStorage.getVaultPrompts] is [getVaultPrompts] with the values
    that are no array read as the empty list: the two agree in every
    storage whose vault text does not parse to such a value. *)
Lemma getVaultPrompts_at_type (st : Storage) :
  LocalStorage.getVaultPrompts st
  = (Returns match fst (getVaultPrompts st) with
             | Returns (JSArray l) => l
             | _ => []
             end, st).
Proof.
  unfold LocalStorage.getVaultPrompts, getVaultPrompts, try_catch, mbind,
    JS_bind, bind, getItem.
  destruct (access_denied st); [reflexivity|].
  destruct (items st !! LocalStorage.VAULT_KEY) as [s|]; [|reflexivity].
  destruct (truthy s); [|reflexivity].
  rewrite JSON_parse_prompts_spec.
  destruct (JSON_parse s) as [[| | | | |l]|]; reflexivity.
Qed.

End Facts.
End LocalStorageValuesFacts.

(** ** The read of the vault on the reference engine *)

Module RefValuesFacts.
Import LocalStorageValues RefEngine RefValues.

Lemma parse_value_spec (s : string) :
  read_doc (A := list Prompt) s
  = match parse_value s with
    | Some (JSArray l) => Some l
    | _ => None
    end.
Proof.
  unfold parse_value.
  destruct (bool_decide_reflect (s = "null")) as [->|_]; [reflexivity|].
  destruct (bool_decide_reflect (s = "true")) as [->|_]; [reflexivity|].
  destruct (bool_decide_reflect (s = "false")) as [->|_]; [reflexivity|].
  destruct (bool_decide_reflect (s = "{}")) as [->|_]; [reflexivity|].
  destruct s as [|c s']; [reflexivity|].
  destruct (bool_decide_reflect (c = "["%char)) as [->|Hc].
  - destruct (read_doc (String "["%char s')); reflexivity.
  - unfold read_doc. rewrite bool_decide_eq_false_2 by exact Hc.
    destruct (number_of_digits 0 (String.list_ascii_of_string (String c s')));
      reflexivity.
Qed.

#[global] Instance ref_JSONValues : JSONValues (json := RefInstances.ref_JSON) :=
  {| JSON_parse := parse_value; JSON_parse_prompts_spec := parse_value_spec |}.

(** C6.  On the reference engine, in a storage that can be read:
    [getVaultPrompts] returns [null] for the stored text [null], an object
    for the text of the empty object and the number 42 for the text 42,
    where the empty array is what it returns for a text that does not
    parse.  The stored text of a list gives that list. *)
Theorem getVaultPrompts_returns_what_parses :
  let stored text :=
    {| items := {[ LocalStorage.VAULT_KEY := text ]};
       access_denied := false; quota_exceeded := false |} in
  let getVaultPrompts := getVaultPrompts (values := ref_JSONValues) in
  getVaultPrompts (stored "null") = (Returns JSNull, stored "null")
  /\ getVaultPrompts (stored "{}") = (Returns JSObject, stored "{}")
  /\ getVaultPrompts (stored "42") = (Returns (JSNumber 42), stored "42")
  /\ getVaultPrompts (stored "{not json")
     = (Returns (JSArray []), stored "{not json")
  /\ fst (getVaultPrompts (Scenario.storage_of [Scenario.A; Scenario.B]))
     = Returns (JSArray [Scenario.A; Scenario.B]).
Proof. vm_compute. repeat split. Qed.

End RefValuesFacts.

(** ** The batch fetch *)

Module ApiFacts.
Import Api.

(** C10.  Called with a null or undefined id list, or with the empty list,
    [fetchPromptsBatch] is fulfilled with the empty array and sends no
    request, whatever the network would answer. *)
Theorem fetchPromptsBatch_nothing_to_fetch (env : Env) :
  fetchPromptsBatch env None = (Fulfilled (Some []), [])
  /\ fetchPromptsBatch env (Some []) = (Fulfilled (Some []), []).
Proof. split; reflexivity. Qed.

(** With at least one id the call sends exactly one request, to the batch
    endpoint, carrying the ids. *)
Lemma fetchPromptsBatch_one_request (env : Env) (i : string) (l : list string) :
  snd (fetchPromptsBatch env (Some (i :: l)))
  = [{| url := API_BASE_URL env +:+ "/prompts/batch/"; method := "POST";
        content_type := "application/json"; body_ids := i :: l |}].
Proof.
  unfold fetchPromptsBatch. simpl. destruct (fetch env _); reflexivity.
Qed.

End ApiFacts.

(** ** The vault page *)

Module VaultPageFacts.
Import LocalStorage Api VaultPage LocalStorageFacts.

Section Facts.
Context {json : JSON} {intl : Intl}.

Lemma loadFromLocalStorage_run (s : State) (st : Storage) :
  loadFromLocalStorage s st =
    (Returns (setIsInitialLoading false
                (setVaultPrompts (fun _ => read_vault st) s)), st).
Proof.
  unfold loadFromLocalStorage, mbind, JS_bind, bind.
  rewrite getVaultPrompts_returns. reflexivity.
Qed.

Lemma syncEffect_run (env : Env) (s : State) (st : Storage) :
  syncEffect env s st =
    if negb (isInitialLoading s) && (0 <? length (read_vault st))%nat
    then syncWithServer env (read_vault st) s st
    else (Returns s, st).
Proof.
  unfold syncEffect, mbind, JS_bind, bind.
  rewrite getVaultPrompts_returns. destruct (_ && _); reflexivity.
Qed.

(** C3.  When the batch fetch is rejected, the sync effect returns without
    throwing, the list the page holds and the storage are exactly what
    they were, and, the initial load being over, the message of the error
    is what [batchError] holds and the loading flag is down. *)
Theorem syncEffect_failure_keeps_local
    (env : Env) (s : State) (st : Storage) (error : thrown) :
  fst (fetchPromptsBatch env (Some (map prompt_id (read_vault st))))
    = Rejected error ->
  exists s',
    syncEffect env s st = (Returns s', st)
    /\ vaultPrompts s' = vaultPrompts s
    /\ (isInitialLoading s = false ->
        batchError s' =
          Some match error with
               | ErrorObject m => m
               | OtherValue => "Failed to sync vault with server."
               end
        /\ isBatchLoading s' = false).
Proof.
  intros Hfetch. rewrite syncEffect_run.
  destruct (read_vault st) as [|p l] eqn:Hlocal.
  - simpl in Hfetch. discriminate.
  - destruct (isInitialLoading s) eqn:Hload; simpl.
    + exists s. split; [reflexivity|]. split; [reflexivity|]. discriminate.
    + unfold syncWithServer, mbind, JS_bind, bind. rewrite Hfetch. simpl.
      eexists. split; [reflexivity|]. split; [reflexivity|].
      intros _. split; reflexivity.
Qed.

(** The comment handlers. *)

Lemma with_comment_count_twice (p : Prompt) (m n : Z) :
  with_comment_count (with_comment_count p m) n = with_comment_count p n.
Proof. reflexivity. Qed.

Lemma with_comment_count_same (p : Prompt) (n : Z) :
  comment_count p = Some n -> with_comment_count p n = p.
Proof. destruct p; simpl; intros ->; reflexivity. Qed.

Lemma find_has_id (promptId : string) (l : list Prompt) (p : Prompt) :
  List.find (has_id promptId) l = Some p -> prompt_id p = promptId.
Proof.
  intros Hf. apply List.find_some in Hf as [_ Hid].
  unfold has_id in Hid. apply bool_decide_eq_true in Hid. exact Hid.
Qed.

(** Updating the entries of one id by a function that keeps the id. *)
Lemma find_map_update (promptId : string) (g : Prompt -> Prompt)
    (l : list Prompt) :
  (forall q, prompt_id (g q) = prompt_id q) ->
  List.find (has_id promptId)
    (map (fun q => if bool_decide (prompt_id q = promptId) then g q else q) l)
  = g <$> List.find (has_id promptId) l.
Proof.
  intros Hg. induction l as [|q l IH]; [reflexivity|]. simpl.
  unfold has_id at 1 3.
  destruct (bool_decide_reflect (prompt_id q = promptId)) as [Heq|Hne].
  - rewrite bool_decide_eq_true_2 by (rewrite Hg; exact Heq). reflexivity.
  - rewrite bool_decide_eq_false_2 by exact Hne. exact IH.
Qed.

Lemma find_insert_first (promptId : string) (l : list Prompt) (i : nat)
    (old p : Prompt) :
  l !! i = Some old -> prompt_id p = promptId ->
  (forall j q, (j < i)%nat -> l !! j = Some q -> prompt_id q <> promptId) ->
  List.find (has_id promptId) (<[i := p]> l) = Some p.
Proof.
  revert i. induction l as [|q l IH]; intros i Hl Hp Hfirst; [discriminate|].
  destruct i as [|i]; simpl.
  - unfold has_id. rewrite bool_decide_eq_true_2 by exact Hp. reflexivity.
  - unfold has_id at 1. rewrite bool_decide_eq_false_2.
    + apply (IH i); [exact Hl|exact Hp|].
      intros j y Hj Hy. apply (Hfirst (S j)); [lia|exact Hy].
    + apply (Hfirst 0%nat); [lia|reflexivity].
Qed.

Lemma find_app_absent (promptId : string) (l : list Prompt) (p : Prompt) :
  (forall q, q ∈ l -> prompt_id q <> promptId) -> prompt_id p = promptId ->
  List.find (has_id promptId) (l ++ [p]) = Some p.
Proof.
  intros Hall Hp. induction l as [|q l IH]; simpl.
  - unfold has_id. rewrite bool_decide_eq_true_2 by exact Hp. reflexivity.
  - unfold has_id at 1. rewrite bool_decide_eq_false_2 by (apply Hall; left).
    apply IH. intros y Hy. apply Hall. by right.
Qed.

(** In a storage that can be written, saving a prompt succeeds, and the
    saved prompt is then the first entry of the vault with its id. *)
Lemma savePromptToVault_then_find (p : Prompt) (st : Storage) :
  access_denied st = false -> quota_exceeded st = false ->
  exists st',
    savePromptToVault p st = (Returns true, st')
    /\ access_denied st' = false /\ quota_exceeded st' = false
    /\ List.find (has_id (prompt_id p)) (read_vault st') = Some p.
Proof.
  intros Hd Hq. rewrite savePromptToVault_run. cbv zeta.
  set (i := findIndex (same_id p) (read_vault st)).
  destruct (setItem_vault st
              (if i >? -1 then <[Z.to_nat i := p]> (read_vault st)
               else read_vault st ++ [p]) Hd Hq)
    as (st' & -> & Hread & Hd' & Hq' & _).
  exists st'. split; [reflexivity|]. split; [exact Hd'|]. split; [exact Hq'|].
  rewrite Hread. destruct (decide (i = -1)) as [Hi|Hi].
  - rewrite Hi. simpl. apply find_app_absent; [|reflexivity].
    intros q Hin. subst i. rewrite findIndex_none in Hi.
    specialize (Hi q Hin). unfold same_id in Hi.
    apply bool_decide_eq_false in Hi. exact Hi.
  - destruct (findIndex_some (same_id p) (read_vault st) Hi)
      as (k & old & Hk & Hl & Hf & Hfirst).
    fold i in Hk. rewrite Hk.
    destruct (Z.gtb_spec (Z.of_nat k) (-1)); [|lia]. rewrite Nat2Z.id.
    apply (find_insert_first _ _ k old); [exact Hl|reflexivity|].
    intros j q Hj Hq0. specialize (Hfirst j q Hj Hq0). unfold same_id in Hfirst.
    apply bool_decide_eq_false in Hfirst. exact Hfirst.
Qed.

Lemma handleCommentAdded_run (promptId : string) (s : State) (st : Storage)
    (p : Prompt) :
  access_denied st = false -> quota_exceeded st = false ->
  List.find (has_id promptId) (vaultPrompts s) = Some p ->
  exists s' st',
    handleCommentAdded promptId s st = (Returns s', st')
    /\ access_denied st' = false /\ quota_exceeded st' = false
    /\ List.find (has_id promptId) (read_vault st')
       = Some (with_comment_count p (count_or_0 p + 1))
    /\ List.find (has_id promptId) (vaultPrompts s')
       = Some (with_comment_count p (count_or_0 p + 1)).
Proof.
  intros Hd Hq Hfind. unfold handleCommentAdded. fold (has_id promptId).
  rewrite Hfind. unfold mbind, JS_bind, bind.
  destruct (savePromptToVault_then_find
              (with_comment_count p (count_or_0 p + 1)) st Hd Hq)
    as (st' & -> & Hd' & Hq' & Hstored).
  simpl in Hstored. rewrite (find_has_id _ _ _ Hfind) in Hstored.
  eexists _, st'. split; [reflexivity|]. split; [exact Hd'|]. split; [exact Hq'|].
  split; [exact Hstored|]. simpl.
  rewrite (find_map_update promptId (fun q => with_comment_count q (count_or_0 q + 1)))
    by reflexivity.
  rewrite Hfind. reflexivity.
Qed.

Lemma handleCommentDeleted_run (promptId : string) (s : State) (st : Storage)
    (p : Prompt) :
  access_denied st = false -> quota_exceeded st = false ->
  List.find (has_id promptId) (vaultPrompts s) = Some p ->
  exists s' st',
    handleCommentDeleted promptId s st = (Returns s', st')
    /\ access_denied st' = false /\ quota_exceeded st' = false
    /\ List.find (has_id promptId) (read_vault st')
       = Some (with_comment_count p (Z.max 0 (count_or_0 p - 1)))
    /\ List.find (has_id promptId) (vaultPrompts s')
       = Some (with_comment_count p (Z.max 0 (count_or_0 p - 1))).
Proof.
  intros Hd Hq Hfind. unfold handleCommentDeleted. fold (has_id promptId).
  rewrite Hfind. unfold mbind, JS_bind, bind.
  destruct (savePromptToVault_then_find
              (with_comment_count p (Z.max 0 (count_or_0 p - 1))) st Hd Hq)
    as (st' & -> & Hd' & Hq' & Hstored).
  simpl in Hstored. rewrite (find_has_id _ _ _ Hfind) in Hstored.
  eexists _, st'. split; [reflexivity|]. split; [exact Hd'|]. split; [exact Hq'|].
  split; [exact Hstored|]. simpl.
  rewrite (find_map_update promptId
             (fun q => with_comment_count q (Z.max 0 (count_or_0 q - 1))))
    by reflexivity.
  rewrite Hfind. reflexivity.
Qed.

(** The lookup structures of the sync. *)

Lemma Map_get_set {V} (k k' : string) (v : V) (m : Map V) :
  Map_get (Map_set k v m) k'
  = if bool_decide (k = k') then Some v else Map_get m k'.
Proof.
  induction m as [|[k0 v0] m IH]; simpl; [reflexivity|].
  destruct (bool_decide_reflect (k0 = k)) as [->|Hne]; simpl.
  - destruct (bool_decide (k = k')); reflexivity.
  - rewrite IH. destruct (bool_decide_reflect (k0 = k')) as [->|Hne'].
    + rewrite bool_decide_eq_false_2 by congruence. reflexivity.
    + reflexivity.
Qed.

(** The entry of a map built from the response is the last prompt of the
    response with that id. *)
Lemma Map_get_fold_prompts (fresh : list Prompt) (m0 : Map Prompt) (k : string) :
  Map_get (fold_left (fun m kv => Map_set (fst kv) (snd kv) m)
             (map (fun p => (prompt_id p, p)) fresh) m0) k
  = match list.last (List.filter (has_id k) fresh) with
    | Some q => Some q
    | None => Map_get m0 k
    end.
Proof.
  revert m0. induction fresh as [|p fresh IH]; intros m0; [reflexivity|].
  simpl. rewrite IH, Map_get_set. unfold has_id at 2.
  destruct (bool_decide (prompt_id p = k)); [|reflexivity].
  rewrite list.last_cons. destruct (list.last (List.filter (has_id k) fresh)); reflexivity.
Qed.

Lemma Map_get_new_prompts (fresh : list Prompt) (k : string) :
  Map_get (Map_new (map (fun p => (prompt_id p, p)) fresh)) k
  = list.last (List.filter (has_id k) fresh).
Proof.
  unfold Map_new. rewrite Map_get_fold_prompts.
  destruct (list.last (List.filter (has_id k) fresh)); reflexivity.
Qed.

Lemma last_filter_Some {A} (f : A -> bool) (l : list A) (x : A) :
  list.last (List.filter f l) = Some x -> x ∈ l /\ f x = true.
Proof.
  intros Hlast. apply list.last_Some_elem_of, list_elem_of_In, List.filter_In in Hlast.
  destruct Hlast as [Hin Hf]. split; [apply list_elem_of_In, Hin|exact Hf].
Qed.

Lemma last_filter_None {A} (f : A -> bool) (l : list A) :
  list.last (List.filter f l) = None -> forall x, x ∈ l -> f x = false.
Proof.
  intros Hlast x Hin. apply list.last_None in Hlast.
  destruct (f x) eqn:E; [|reflexivity].
  assert (Hx : In x (List.filter f l))
    by (apply List.filter_In; split; [apply list_elem_of_In, Hin|exact E]).
  rewrite Hlast in Hx. destruct Hx.
Qed.

Lemma last_with_id_Some (fresh : list Prompt) (k : string) (q : Prompt) :
  list.last (List.filter (has_id k) fresh) = Some q -> q ∈ fresh /\ prompt_id q = k.
Proof.
  intros Hlast. apply last_filter_Some in Hlast as [Hin Hid]. split; [exact Hin|].
  unfold has_id in Hid. apply bool_decide_eq_true in Hid. exact Hid.
Qed.

Lemma last_with_id_None (fresh : list Prompt) (k : string) :
  list.last (List.filter (has_id k) fresh) = None -> k ∉ ids fresh.
Proof.
  intros Hlast Hin. apply list_elem_of_fmap in Hin as (q & -> & Hq).
  pose proof (last_filter_None _ _ Hlast q Hq) as Hf.
  unfold has_id in Hf. apply bool_decide_eq_false in Hf. congruence.
Qed.

Lemma Set_has_app (s1 s2 : JSSet) (x : string) :
  Set_has (s1 ++ s2) x = Set_has s1 x || Set_has s2 x.
Proof. unfold Set_has. apply List.existsb_app. Qed.

Lemma Set_has_add (s : JSSet) (x y : string) :
  Set_has (Set_add y s) x = Set_has s x || bool_decide (y = x).
Proof.
  unfold Set_add. destruct (Set_has s y) eqn:E.
  - destruct (bool_decide_reflect (y = x)) as [<-|Hne].
    + rewrite E. reflexivity.
    + rewrite orb_false_r. reflexivity.
  - rewrite Set_has_app. simpl. rewrite orb_false_r. reflexivity.
Qed.

Lemma Set_has_fold (l : list string) (s0 : JSSet) (x : string) :
  Set_has (fold_left (fun s y => Set_add y s) l s0) x
  = Set_has s0 x || bool_decide (x ∈ l).
Proof.
  revert s0. induction l as [|y l IH]; intros s0; cbn [fold_left].
  - rewrite (bool_decide_eq_false_2 (x ∈ [])) by inversion 1.
    rewrite orb_false_r. reflexivity.
  - rewrite IH, Set_has_add, <- orb_assoc. f_equal.
    destruct (bool_decide_reflect (y = x)) as [<-|Hne]; cbn [orb].
    + symmetry. apply bool_decide_eq_true. left.
    + apply bool_decide_ext. rewrite elem_of_cons. split; [tauto|].
      intros [Heq|Hin]; [congruence|exact Hin].
Qed.

Lemma Set_has_new (l : list string) (x : string) :
  Set_has (Set_new l) x = bool_decide (x ∈ l).
Proof. unfold Set_new. rewrite Set_has_fold. reflexivity. Qed.

(** The two passes of a successful sync. *)

Lemma filter_filter_and {A} (f g : A -> bool) (l : list A) :
  List.filter f (List.filter g l) = List.filter (fun x => g x && f x) l.
Proof.
  induction l as [|x l IH]; [reflexivity|]. simpl.
  destruct (g x); simpl; [destruct (f x)|]; rewrite ?IH; reflexivity.
Qed.

Lemma filter_all {A} (f : A -> bool) (l : list A) :
  (forall x, x ∈ l -> f x = true) -> List.filter f l = l.
Proof.
  induction l as [|x l IH]; intros Hall; [reflexivity|]. simpl.
  rewrite (Hall x) by left. f_equal. apply IH. intros y Hy. apply Hall. by right.
Qed.

Lemma ids_filter (f : string -> bool) (l : list Prompt) :
  ids (List.filter (fun p => f (prompt_id p)) l) = List.filter f (ids l).
Proof.
  induction l as [|p l IH]; [reflexivity|]. simpl.
  destruct (f (prompt_id p)); simpl; rewrite IH; reflexivity.
Qed.

(** What the page shows after the sync: for every local prompt, in order,
    the last prompt of the response with its id, when there is one. *)
Lemma shown_after_sync (fresh localPrompts : list Prompt) :
  let freshPromptsMap := Map_new (map (fun p => (prompt_id p, p)) fresh) in
  List.filter (fun p => Map_has freshPromptsMap (prompt_id p))
    (map (fun localPrompt =>
            match Map_get freshPromptsMap (prompt_id localPrompt) with
            | Some q => q
            | None => localPrompt
            end) localPrompts)
  = omap (fun localPrompt =>
            list.last (List.filter (has_id (prompt_id localPrompt)) fresh))
         localPrompts.
Proof.
  intros m. induction localPrompts as [|lp l IH]; [reflexivity|].
  cbn [map List.filter omap list_omap]. rewrite IH. unfold Map_has, m.
  rewrite (Map_get_new_prompts fresh (prompt_id lp)).
  destruct (list.last (List.filter (has_id (prompt_id lp)) fresh)) as [q|] eqn:E.
  - destruct (last_with_id_Some _ _ _ E) as [_ Hid].
    rewrite Map_get_new_prompts, Hid, E. reflexivity.
  - rewrite Map_get_new_prompts, E. reflexivity.
Qed.

Lemma ids_shown_after_sync (fresh localPrompts : list Prompt) :
  ids (omap (fun localPrompt =>
               list.last (List.filter (has_id (prompt_id localPrompt)) fresh))
            localPrompts)
  = List.filter (fun i => bool_decide (i ∈ ids fresh)) (ids localPrompts).
Proof.
  induction localPrompts as [|lp l IH]; [reflexivity|].
  cbn [omap list_omap ids map List.filter].
  destruct (list.last (List.filter (has_id (prompt_id lp)) fresh)) as [q|] eqn:E.
  - destruct (last_with_id_Some _ _ _ E) as [Hin Hid].
    rewrite bool_decide_eq_true_2
      by (rewrite <- Hid; apply list_elem_of_fmap; eauto).
    cbn [map]. rewrite Hid. f_equal. exact IH.
  - rewrite bool_decide_eq_false_2 by (apply last_with_id_None, E). exact IH.
Qed.

Lemma removePromptFromVault_writable (promptId : string) (st : Storage) :
  access_denied st = false -> quota_exceeded st = false ->
  exists b st',
    removePromptFromVault promptId st = (Returns b, st')
    /\ access_denied st' = false /\ quota_exceeded st' = false
    /\ read_vault st' = List.filter (other_id promptId) (read_vault st).
Proof.
  intros Hd Hq. rewrite removePromptFromVault_run.
  destruct (filter_other_id_length promptId (read_vault st)) as [_ Hlt].
  destruct (Nat.ltb_spec (length (List.filter (other_id promptId) (read_vault st)))
              (length (read_vault st))) as [Hshrink|Hsame].
  - destruct (setItem_vault st (List.filter (other_id promptId) (read_vault st))
                Hd Hq) as (st' & -> & Hread & Hd' & Hq' & _).
    exists true, st'. auto.
  - exists false, st. repeat split; try assumption.
    symmetry. apply filter_other_id_absent. intros Hin. apply Hlt in Hin. lia.
Qed.

Lemma forEach_drop_missing (freshIds : JSSet) (l : list Prompt) (st : Storage) :
  access_denied st = false -> quota_exceeded st = false ->
  exists st',
    forEach l (drop_missing freshIds) st = (Returns tt, st')
    /\ access_denied st' = false /\ quota_exceeded st' = false
    /\ read_vault st'
       = List.filter
           (fun p => Set_has freshIds (prompt_id p)
                     || negb (bool_decide (prompt_id p ∈ ids l)))
           (read_vault st).
Proof.
  revert st. induction l as [|x l IH]; intros st Hd Hq.
  - exists st. repeat split; try assumption.
    symmetry. apply filter_all. intros p _.
    rewrite (bool_decide_eq_false_2 (prompt_id p ∈ ids [])) by inversion 1.
    apply orb_true_r.
  - cbn [forEach]. unfold mbind, JS_bind, bind. unfold drop_missing at 1.
    destruct (Set_has freshIds (prompt_id x)) eqn:Ex; cbn [negb].
    + unfold mret, JS_ret, ret.
      destruct (IH st Hd Hq) as (st' & -> & Hd' & Hq' & Hread).
      exists st'. repeat split; try assumption. rewrite Hread.
      apply List.filter_ext. intros p.
      destruct (Set_has freshIds (prompt_id p)) eqn:Ep; [reflexivity|].
      cbn [orb]. f_equal. apply bool_decide_ext. cbn [ids map].
      rewrite elem_of_cons. split; [tauto|].
      intros [Heq|Hin]; [congruence|exact Hin].
    + unfold mbind, JS_bind, bind.
      destruct (removePromptFromVault_writable (prompt_id x) st Hd Hq)
        as (b & st1 & -> & Hd1 & Hq1 & Hread1).
      unfold mret, JS_ret, ret.
      destruct (IH st1 Hd1 Hq1) as (st' & -> & Hd' & Hq' & Hread).
      exists st'. repeat split; try assumption.
      rewrite Hread, Hread1, filter_filter_and.
      apply List.filter_ext. intros p. cbn [ids map].
      destruct (other_id (prompt_id x) p) eqn:Eo.
      * apply other_id_true in Eo. cbn [andb]. f_equal. f_equal.
        apply bool_decide_ext. rewrite elem_of_cons. split; [tauto|].
        intros [Heq|Hin]; [congruence|exact Hin].
      * apply other_id_false in Eo. cbn [andb]. rewrite Eo, Ex. cbn [orb].
        symmetry. apply negb_false_iff, bool_decide_eq_true. left.
Qed.

Lemma syncWithServer_fulfilled
    (env : Env) (fresh : list Prompt) (s : State) (st : Storage) :
  access_denied st = false -> quota_exceeded st = false ->
  fst (fetchPromptsBatch env (Some (map prompt_id (read_vault st))))
    = Fulfilled (Some fresh) ->
  exists s' st',
    syncWithServer env (read_vault st) s st = (Returns s', st')
    /\ vaultPrompts s'
       = omap (fun localPrompt =>
                 list.last (List.filter (has_id (prompt_id localPrompt)) fresh))
              (read_vault st)
    /\ read_vault st'
       = List.filter (fun p => bool_decide (prompt_id p ∈ ids fresh))
                     (read_vault st)
    /\ batchError s' = None /\ isBatchLoading s' = false.
Proof.
  intros Hd Hq Hfetch. unfold syncWithServer, mbind, JS_bind, bind.
  rewrite Hfetch.
  destruct (forEach_drop_missing (Set_new (map prompt_id fresh)) (read_vault st)
              st Hd Hq) as (st' & Hrun & _ & _ & Hread).
  unfold drop_missing, mbind, JS_bind, bind in Hrun. rewrite Hrun.
  eexists _, st'. split; [reflexivity|]. split; [apply shown_after_sync|].
  split; [|split; reflexivity].
  rewrite Hread. apply List.filter_ext_in. intros p Hin.
  rewrite Set_has_new. fold (ids fresh). rewrite (bool_decide_eq_true_2 (_ ∈ ids (read_vault st))).
  - apply orb_false_r.
  - apply list_elem_of_fmap. exists p. split; [reflexivity|].
    apply list_elem_of_In, Hin.
Qed.

Lemma date_key_missing :
  date_key None = Finite 0 /\ date_key (Some "") = Finite 0.
Proof. split; reflexivity. Qed.

Lemma date_key_parsed (d : string) :
  truthy d = true -> date_key (Some d) = Date_getTime d.
Proof. intros Ht. unfold date_key. rewrite Ht. reflexivity. Qed.

(** Whatever the engine, a date text that it cannot parse gives the key
    [NaN], and the comparator then returns [NaN]. *)
Lemma compareFn_NaN_of_unparseable (a b : Prompt) (d : string) :
  created_at a = Some d -> truthy d = true -> Date_getTime d = NaN ->
  date_key (created_at a) = NaN
  /\ compareFn "created_at_asc" a b = NaN
  /\ compareFn "created_at_desc" a b = NaN.
Proof.
  intros Ha Ht Hnan.
  assert (Hkey : date_key (created_at a) = NaN)
    by (rewrite Ha, (date_key_parsed d Ht); exact Hnan).
  split; [exact Hkey|].
  change (compareFn "created_at_asc" a b)
    with (number_sub (date_key (created_at a)) (date_key (created_at b))).
  change (compareFn "created_at_desc" a b)
    with (number_sub (date_key (created_at b)) (date_key (created_at a))).
  rewrite Hkey. destruct (date_key (created_at b)); split; reflexivity.
Qed.

End Facts.

(** C5.  On the reference engine, a prompt whose [created_at] is a text
    that is not a date has the sort key [NaN], not 0, and the comparator
    returns [NaN] for it against any prompt.  [sort] reads that as "equal",
    so that of three prompts dated 1970, "not a date" and 2024 the middle
    one is equal to both others while the first is before the last. *)
Theorem compareFn_unparseable_date_is_NaN :
  let dated d := mkPrompt d "t" "c" None [] (Some d) (Some d) None in
  let a := dated "1970-01-01T00:00:01Z" in
  let b := dated "not a date" in
  let c := dated "2024-01-01T00:00:00Z" in
  let compareFn := compareFn (intl := RefInstances.ref_Intl) in
  let SortCompare := SortCompare (intl := RefInstances.ref_Intl) in
  date_key (intl := RefInstances.ref_Intl) (created_at b) = NaN
  /\ compareFn "created_at_asc" a b = NaN
  /\ compareFn "created_at_desc" a b = NaN
  /\ compareFn "updated_at_asc" a b = NaN
  /\ compareFn "updated_at_desc" a b = NaN
  /\ SortCompare "created_at_asc" a b = 0
  /\ SortCompare "created_at_asc" b c = 0
  /\ SortCompare "created_at_asc" a c = -1704067199000.
Proof. vm_compute. repeat split. Qed.

End VaultPageFacts.

(** ** The scenario, run on the reference engine *)

Module ScenarioFacts.
Import LocalStorage Api VaultPage Scenario.
Import LocalStorageFacts VaultPageFacts.

#[local] Existing Instance RefInstances.ref_JSON.
#[local] Existing Instance RefInstances.ref_Intl.

Example read_stored_list : read_vault (storage_of [A; B; C]) = [A; B; C].
Proof. vm_compute. reflexivity. Qed.

Example read_corrupt_text : getVaultPrompts corrupt_storage = (Returns [], corrupt_storage).
Proof. vm_compute. reflexivity. Qed.

Example save_replaces_in_place :
  let r := savePromptToVault A' (storage_of [B; A; C]) in
  fst r = Returns true /\ read_vault (snd r) = [B; A'; C].
Proof. vm_compute. split; reflexivity. Qed.

Example save_appends :
  let r := savePromptToVault C (storage_of [A; B]) in
  fst r = Returns true /\ read_vault (snd r) = [A; B; C].
Proof. vm_compute. split; reflexivity. Qed.

Example save_on_full_storage :
  let r := savePromptToVault C (full (storage_of [A; B])) in
  fst r = Returns false /\ read_vault (snd r) = [A; B].
Proof. vm_compute. split; reflexivity. Qed.

Example codes_survive_clearVault :
  let st := snd (clearVault (with_codes (storage_of [A; B; C]))) in
  read_vault st = []
  /\ fst (getPromptCode "B" st) = Returns (Some "secret2")
  /\ fst (getCommentCode "c1" st) = Returns (Some "secret3").
Proof. vm_compute. repeat split. Qed.

Example sort_keys_of_dates :
  let undated := mkPrompt "D" "no date" "body" None [] None (Some "") None in
  compareFn "created_at_asc" A undated = Finite 1704067200000
  /\ compareFn "updated_at_desc" A undated = Finite (-1704067200000)
  /\ compareFn "title_asc" (prompt "1" "apple" None) (prompt "2" "Banana" None)
     = Finite (-1).
Proof. vm_compute. repeat split. Qed.

Example remove_absent_id :
  let r := removePromptFromVault "C" (storage_of [A; B]) in
  fst r = Returns false /\ read_vault (snd r) = [A; B].
Proof. vm_compute. split; reflexivity. Qed.

Example remove_present_id :
  let r := removePromptFromVault "A" (storage_of [A; B]) in
  fst r = Returns true /\ read_vault (snd r) = [B].
Proof. vm_compute. split; reflexivity. Qed.

Lemma syncEffect_failure_keeps_local_witness :
  exists s',
    syncEffect offline (page_of [A; B; C]) (storage_of [A; B; C])
      = (Returns s', storage_of [A; B; C])
    /\ vaultPrompts s' = [A; B; C]
    /\ batchError s' = Some "Failed to fetch".
Proof.
  destruct (syncEffect_failure_keeps_local offline (page_of [A; B; C])
              (storage_of [A; B; C]) (ErrorObject "Failed to fetch"))
    as (s' & Hrun & Hlist & Herr).
  - vm_compute. reflexivity.
  - exists s'. split; [exact Hrun|]. split; [exact Hlist|].
    apply Herr. reflexivity.
Defined.

End ScenarioFacts.

(** ** The modification codes *)

Module LocalStorageCodesFacts.
Import LocalStorage LocalStorageCodes LocalStorageFacts.

Lemma Map_set_keys {V} (k : string) (v : V) (m : Map V) :
  keys (Map_set k v m) = if decide (k ∈ keys m) then keys m else keys m ++ [k].
Proof.
  induction m as [|[k0 v0] m IH]; [reflexivity|]. cbn [keys map fst Map_set].
  destruct (bool_decide_reflect (k0 = k)) as [->|Hne].
  - rewrite decide_True by left. reflexivity.
  - cbn [map fst]. fold (keys (Map_set k v m)). rewrite IH. fold (keys m).
    destruct (decide (k ∈ keys m)) as [Hin|Hnin].
    + rewrite decide_True by (by right). reflexivity.
    + rewrite decide_False; [reflexivity|].
      intros Hin. apply elem_of_cons in Hin as [Heq|Hin]; congruence.
Qed.

Lemma Map_set_NoDup {V} (k : string) (v : V) (m : Map V) :
  NoDup (keys m) -> NoDup (keys (Map_set k v m)).
Proof.
  intros Hnd. rewrite Map_set_keys. destruct (decide (k ∈ keys m)); [exact Hnd|].
  apply list.NoDup_app. split; [exact Hnd|]. split; [|apply NoDup_singleton].
  intros x Hx Hx'. apply list_elem_of_singleton in Hx'. congruence.
Qed.

Lemma Map_set_fresh {V} (k : string) (v : V) (m : Map V) :
  k ∉ keys m -> Map_set k v m = m ++ [(k, v)].
Proof.
  induction m as [|[k0 v0] m IH]; intros Hn; [reflexivity|].
  cbn [keys map fst] in Hn. apply not_elem_of_cons in Hn as [Hne Hn].
  cbn [Map_set]. rewrite bool_decide_eq_false_2 by congruence.
  rewrite (IH Hn). reflexivity.
Qed.

Lemma Map_fold_NoDup {V} (l acc : Map V) :
  NoDup (keys acc) ->
  NoDup (keys (fold_left (fun m kv => Map_set (fst kv) (snd kv) m) l acc)).
Proof.
  revert acc. induction l as [|[k v] l IH]; intros acc Hnd; [exact Hnd|].
  cbn [fold_left]. apply IH, Map_set_NoDup, Hnd.
Qed.

Lemma Map_new_NoDup {V} (l : list (string * V)) : NoDup (keys (Map_new l)).
Proof. apply Map_fold_NoDup. constructor. Qed.

Lemma Map_fold_id {V} (m acc : Map V) :
  NoDup (keys (acc ++ m)) ->
  fold_left (fun m kv => Map_set (fst kv) (snd kv) m) m acc = acc ++ m.
Proof.
  revert acc. induction m as [|[k v] m IH]; intros acc Hnd.
  - cbn [fold_left]. rewrite app_nil_r. reflexivity.
  - cbn [fold_left fst snd].
    change (acc ++ (k, v) :: m) with (acc ++ [(k, v)] ++ m) in *.
    rewrite app_assoc in *. unfold keys in Hnd. rewrite fmap_app in Hnd.
    pose proof Hnd as Hnd'. apply list.NoDup_app in Hnd' as (Hleft & _ & _).
    rewrite fmap_app in Hleft. apply list.NoDup_app in Hleft as (_ & Hdisj & _).
    rewrite Map_set_fresh.
    + apply IH. unfold keys. rewrite fmap_app. exact Hnd.
    + intros Hin. apply (Hdisj k Hin). left.
Qed.

Lemma Map_new_id {V} (m : Map V) : NoDup (keys m) -> Map_new m = m.
Proof. intros Hnd. unfold Map_new. rewrite Map_fold_id; [reflexivity|exact Hnd]. Qed.

Lemma Map_get_None {V} (m : Map V) (k : string) :
  Map_get m k = None <-> k ∉ keys m.
Proof.
  induction m as [|[k0 v0] m IH]; cbn [Map_get keys map fst].
  - split; [intros _; inversion 1|reflexivity].
  - destruct (bool_decide_reflect (k0 = k)) as [->|Hne].
    + split; [discriminate|]. intros Hn. exfalso. apply Hn. left.
    + rewrite IH. fold (keys m). rewrite not_elem_of_cons. split; [|tauto].
      intros Hn. split; [congruence|exact Hn].
Qed.

Lemma Map_delete_absent {V} (k : string) (m : Map V) :
  fst (Map_delete k m) = false <-> k ∉ keys m.
Proof.
  induction m as [|[k0 v0] m IH]; cbn [Map_delete keys map fst].
  - split; [intros _; inversion 1|reflexivity].
  - destruct (bool_decide_reflect (k0 = k)) as [->|Hne]; cbn [fst].
    + split; [discriminate|]. intros Hn. exfalso. apply Hn. left.
    + rewrite IH. fold (keys m). rewrite not_elem_of_cons. split; [|tauto].
      intros Hn. split; [congruence|exact Hn].
Qed.

Lemma Map_delete_keys {V} (k : string) (m : Map V) :
  NoDup (keys m) ->
  NoDup (keys (snd (Map_delete k m)))
  /\ forall k', k' ∈ keys (snd (Map_delete k m)) <-> k' ∈ keys m /\ k' <> k.
Proof.
  induction m as [|[k0 v0] m IH]; cbn [Map_delete keys map fst]; intros Hnd.
  - split; [constructor|]. intros k'. split; [inversion 1|intros [H _]; inversion H].
  - fold (keys m) in *. pose proof (NoDup_cons_1_1 _ _ Hnd) as Hk0.
    apply NoDup_cons_1_2 in Hnd.
    destruct (bool_decide_reflect (k0 = k)) as [->|Hne]; cbn [snd].
    + split; [exact Hnd|]. intros k'. rewrite elem_of_cons. split.
      * intros Hin. split; [by right|]. intros ->. contradiction.
      * intros [[->|Hin] Hne]; [congruence|exact Hin].
    + destruct (IH Hnd) as [IHnd IHin]. cbn [keys map fst].
      fold (keys (snd (Map_delete k m))). split.
      * apply list.NoDup_cons. split; [|exact IHnd].
        intros Hin. apply IHin in Hin as [Hin _]. contradiction.
      * intros k'. rewrite !elem_of_cons, IHin. split.
        -- intros [->|[Hin Hk]]; [split; [by left|congruence]|split; [by right|exact Hk]].
        -- intros [[->|Hin] Hk]; [by left|right; split; assumption].
Qed.

Lemma Map_get_delete {V} (k k' : string) (m : Map V) :
  NoDup (keys m) ->
  Map_get (snd (Map_delete k m)) k'
  = if bool_decide (k = k') then None else Map_get m k'.
Proof.
  induction m as [|[k0 v0] m IH]; cbn [Map_delete Map_get keys map fst]; intros Hnd.
  - destruct (bool_decide (k = k')); reflexivity.
  - fold (keys m) in *. pose proof (NoDup_cons_1_1 _ _ Hnd) as Hk0.
    apply NoDup_cons_1_2 in Hnd.
    destruct (bool_decide_reflect (k0 = k)) as [->|Hne]; cbn [snd Map_get].
    + destruct (bool_decide_reflect (k = k')) as [<-|Hne']; [|reflexivity].
      apply Map_get_None, Hk0.
    + rewrite (IH Hnd). destruct (bool_decide_reflect (k0 = k')) as [->|Hne'].
      * rewrite bool_decide_eq_false_2 by congruence. reflexivity.
      * reflexivity.
Qed.

Lemma Map_delete_none {V} (k : string) (m : Map V) :
  fst (Map_delete k m) = false -> snd (Map_delete k m) = m.
Proof.
  induction m as [|[k0 v0] m IH]; cbn [Map_delete]; [reflexivity|].
  destruct (bool_decide (k0 = k)); cbn [fst snd]; [discriminate|].
  intros Hf. rewrite (IH Hf). reflexivity.
Qed.

Section Facts.
Context {json : JSON} {codes : JSONCodes}.

Lemma getPromptCodes_returns (st : Storage) :
  getPromptCodes st = (Returns (stored_codes PROMPT_CODES_KEY st), st).
Proof.
  unfold getPromptCodes, stored_codes, try_catch, mbind, JS_bind, bind, getItem.
  destruct (access_denied st); [reflexivity|].
  destruct (items st !! PROMPT_CODES_KEY) as [s|]; [|reflexivity].
  destruct (truthy s); [|reflexivity].
  destruct (JSON_parse_codes s); reflexivity.
Qed.

Lemma getCommentCodes_returns (st : Storage) :
  getCommentCodes st = (Returns (stored_codes COMMENT_CODES_KEY st), st).
Proof.
  unfold getCommentCodes, stored_codes, try_catch, mbind, JS_bind, bind, getItem.
  destruct (access_denied st); [reflexivity|].
  destruct (items st !! COMMENT_CODES_KEY) as [s|]; [|reflexivity].
  destruct (truthy s); [|reflexivity].
  destruct (JSON_parse_codes s); reflexivity.
Qed.

Lemma read_prompt_code_get (promptId : string) (st : Storage) :
  read_prompt_code promptId st
  = Map_get (stored_codes PROMPT_CODES_KEY st) promptId.
Proof.
  unfold read_prompt_code, getPromptCode, mbind, JS_bind, bind.
  rewrite getPromptCodes_returns. reflexivity.
Qed.

Lemma read_comment_code_get (commentId : string) (st : Storage) :
  read_comment_code commentId st
  = Map_get (stored_codes COMMENT_CODES_KEY st) commentId.
Proof.
  unfold read_comment_code, getCommentCode, mbind, JS_bind, bind.
  rewrite getCommentCodes_returns. reflexivity.
Qed.

Lemma stored_codes_NoDup (key : string) (st : Storage) :
  NoDup (keys (stored_codes key st)).
Proof.
  unfold stored_codes. destruct (access_denied st); [constructor|].
  destruct (items st !! key) as [s|]; [|constructor].
  destruct (truthy s); [|constructor].
  destruct (JSON_parse_codes s); [apply Map_new_NoDup|constructor].
Qed.

Lemma stored_codes_depends (key : string) (st1 st2 : Storage) :
  access_denied st1 = access_denied st2 ->
  items st1 !! key = items st2 !! key ->
  stored_codes key st1 = stored_codes key st2.
Proof. intros Hd Hl. unfold stored_codes. rewrite Hd, Hl. reflexivity. Qed.

Lemma read_vault_depends (st1 st2 : Storage) :
  access_denied st1 = access_denied st2 ->
  items st1 !! VAULT_KEY = items st2 !! VAULT_KEY ->
  read_vault st1 = read_vault st2.
Proof.
  intros Hd Hl. destruct (access_denied st2) eqn:Hd2.
  - rewrite (read_vault_denied st1 Hd), (read_vault_denied st2 Hd2). reflexivity.
  - rewrite (read_vault_lookup st1 Hd), (read_vault_lookup st2 Hd2), Hl.
    reflexivity.
Qed.

(** What a successful [setItem] of the text of a map of codes leaves
    behind. *)
Lemma setItem_codes (key : string) (m : Map string) (st : Storage) :
  access_denied st = false -> quota_exceeded st = false ->
  NoDup (keys m) ->
  exists st',
    setItem key (JSON_stringify_codes m) st = (Returns tt, st')
    /\ stored_codes key st' = m
    /\ access_denied st' = false /\ quota_exceeded st' = false
    /\ forall k, k <> key -> items st' !! k = items st !! k.
Proof.
  intros Hd Hq Hnd. unfold setItem. rewrite Hd, Hq. eexists.
  split; [reflexivity|]. split; [|split; [reflexivity|split; [reflexivity|]]].
  - unfold stored_codes. cbn [access_denied items].
    rewrite lookup_insert_eq, stringify_codes_truthy, parse_stringify_codes.
    apply Map_new_id, Hnd.
  - intros k Hk. cbn [items]. apply lookup_insert_ne. congruence.
Qed.

Lemma savePromptCode_run (promptId code : string) (st : Storage) :
  savePromptCode promptId code st =
    (Returns tt,
     snd (setItem PROMPT_CODES_KEY
            (JSON_stringify_codes
               (Map_set promptId code (stored_codes PROMPT_CODES_KEY st))) st)).
Proof.
  unfold savePromptCode, try_catch, mbind, JS_bind, bind.
  rewrite getPromptCodes_returns.
  destruct (setItem _ _ st) as [[[]|e] st']; reflexivity.
Qed.

Lemma saveCommentCode_run (commentId code : string) (st : Storage) :
  saveCommentCode commentId code st =
    (Returns tt,
     snd (setItem COMMENT_CODES_KEY
            (JSON_stringify_codes
               (Map_set commentId code (stored_codes COMMENT_CODES_KEY st))) st)).
Proof.
  unfold saveCommentCode, try_catch, mbind, JS_bind, bind.
  rewrite getCommentCodes_returns.
  destruct (setItem _ _ st) as [[[]|e] st']; reflexivity.
Qed.

Lemma removePromptCode_run (promptId : string) (st : Storage) :
  removePromptCode promptId st =
    (Returns tt,
     if fst (Map_delete promptId (stored_codes PROMPT_CODES_KEY st))
     then snd (setItem PROMPT_CODES_KEY
                 (JSON_stringify_codes
                    (snd (Map_delete promptId
                            (stored_codes PROMPT_CODES_KEY st)))) st)
     else st).
Proof.
  unfold removePromptCode, try_catch, mbind, JS_bind, bind.
  rewrite getPromptCodes_returns.
  destruct (fst (Map_delete _ _)); [|reflexivity].
  destruct (setItem _ _ st) as [[[]|e] st']; reflexivity.
Qed.

Lemma removeCommentCode_run (commentId : string) (st : Storage) :
  removeCommentCode commentId st =
    (Returns tt,
     if fst (Map_delete commentId (stored_codes COMMENT_CODES_KEY st))
     then snd (setItem COMMENT_CODES_KEY
                 (JSON_stringify_codes
                    (snd (Map_delete commentId
                            (stored_codes COMMENT_CODES_KEY st)))) st)
     else st).
Proof.
  unfold removeCommentCode, try_catch, mbind, JS_bind, bind.
  rewrite getCommentCodes_returns.
  destruct (fst (Map_delete _ _)); [|reflexivity].
  destruct (setItem _ _ st) as [[[]|e] st']; reflexivity.
Qed.

(** The storage after a write of codes at a key, in a storage that can be
    written: the codes at the key are the ones written, the flags and the
    other keys are as before. *)
Lemma after_write_codes (key : string) (m : Map string) (st : Storage) :
  access_denied st = false -> quota_exceeded st = false ->
  NoDup (keys m) ->
  let st' := snd (setItem key (JSON_stringify_codes m) st) in
  stored_codes key st' = m
  /\ access_denied st' = false /\ quota_exceeded st' = false
  /\ forall k, k <> key -> items st' !! k = items st !! k.
Proof.
  intros Hd Hq Hnd. destruct (setItem_codes key m st Hd Hq Hnd)
    as (st' & Hrun & Hrest). rewrite Hrun. exact Hrest.
Qed.

Lemma after_failed_write (key value : string) (st : Storage) :
  access_denied st = true \/ quota_exceeded st = true ->
  snd (setItem key value st) = st.
Proof.
  intros Hbad. destruct (setItem_fails st key value Hbad) as [e ->]. reflexivity.
Qed.

Lemma lookup_after_set (key : string) (m : Map string) (st : Storage)
    (k v : string) :
  access_denied st = false -> quota_exceeded st = false ->
  m = stored_codes key st ->
  let st' := snd (setItem key (JSON_stringify_codes (Map_set k v m)) st) in
  Map_get (stored_codes key st') k = Some v
  /\ forall k', k' <> k ->
       Map_get (stored_codes key st') k' = Map_get (stored_codes key st) k'.
Proof.
  intros Hd Hq -> st'.
  destruct (after_write_codes key (Map_set k v (stored_codes key st)) st Hd Hq)
    as (Hcodes & _); [apply Map_set_NoDup, stored_codes_NoDup|].
  fold st' in Hcodes. rewrite Hcodes. split.
  - rewrite VaultPageFacts.Map_get_set, bool_decide_eq_true_2 by reflexivity.
    reflexivity.
  - intros k' Hne. rewrite VaultPageFacts.Map_get_set.
    rewrite bool_decide_eq_false_2 by congruence. reflexivity.
Qed.

Lemma lookup_after_delete (key : string) (st : Storage) (k : string) :
  access_denied st = false -> quota_exceeded st = false ->
  let m := stored_codes key st in
  let st' := if fst (Map_delete k m)
             then snd (setItem key (JSON_stringify_codes (snd (Map_delete k m))) st)
             else st in
  Map_get (stored_codes key st') k = None
  /\ (forall k', k' <> k ->
        Map_get (stored_codes key st') k' = Map_get (stored_codes key st) k')
  /\ (Map_get (stored_codes key st) k = None -> st' = st).
Proof.
  intros Hd Hq m st'. pose proof (stored_codes_NoDup key st) as Hnd. fold m in Hnd.
  destruct (fst (Map_delete k m)) eqn:Hdel.
  - destruct (after_write_codes key (snd (Map_delete k m)) st Hd Hq)
      as (Hcodes & _); [apply Map_delete_keys, Hnd|].
    subst st'. rewrite Hcodes. split; [|split].
    + rewrite (Map_get_delete k k m Hnd), bool_decide_eq_true_2 by reflexivity.
      reflexivity.
    + intros k' Hne. rewrite (Map_get_delete k k' m Hnd).
      rewrite bool_decide_eq_false_2 by congruence. reflexivity.
    + intros Hnone. apply Map_get_None, Map_delete_absent in Hnone.
      fold m in Hnone. congruence.
  - subst st'. split; [|split; [reflexivity|reflexivity]].
    apply Map_get_None, Map_delete_absent, Hdel.
Qed.

(** X1.  In a storage that can be written, a code saved for a prompt or
    for a comment is the code read back for that id, and the codes of the
    other ids read as before. *)
Theorem saved_code_is_read_back (id code : string) (st : Storage) :
  access_denied st = false -> quota_exceeded st = false ->
  (read_prompt_code id (snd (savePromptCode id code st)) = Some code
   /\ forall id', id' <> id ->
        read_prompt_code id' (snd (savePromptCode id code st))
        = read_prompt_code id' st)
  /\ (read_comment_code id (snd (saveCommentCode id code st)) = Some code
      /\ forall id', id' <> id ->
           read_comment_code id' (snd (saveCommentCode id code st))
           = read_comment_code id' st).
Proof.
  intros Hd Hq. split.
  - rewrite savePromptCode_run. cbn [snd].
    destruct (lookup_after_set PROMPT_CODES_KEY _ st id code Hd Hq eq_refl)
      as [Hsame Hother].
    split; [rewrite read_prompt_code_get; exact Hsame|].
    intros id' Hne. rewrite !read_prompt_code_get. apply Hother, Hne.
  - rewrite saveCommentCode_run. cbn [snd].
    destruct (lookup_after_set COMMENT_CODES_KEY _ st id code Hd Hq eq_refl)
      as [Hsame Hother].
    split; [rewrite read_comment_code_get; exact Hsame|].
    intros id' Hne. rewrite !read_comment_code_get. apply Hother, Hne.
Qed.

(** X2.  In a storage that can be written, after the code of a prompt or
    of a comment is removed no code is read for that id, the codes of the
    other ids read as before, and when there was no code for the id the
    storage is not written. *)
Theorem removed_code_is_gone (id : string) (st : Storage) :
  access_denied st = false -> quota_exceeded st = false ->
  (read_prompt_code id (snd (removePromptCode id st)) = None
   /\ (forall id', id' <> id ->
         read_prompt_code id' (snd (removePromptCode id st))
         = read_prompt_code id' st)
   /\ (read_prompt_code id st = None -> snd (removePromptCode id st) = st))
  /\ (read_comment_code id (snd (removeCommentCode id st)) = None
      /\ (forall id', id' <> id ->
            read_comment_code id' (snd (removeCommentCode id st))
            = read_comment_code id' st)
      /\ (read_comment_code id st = None -> snd (removeCommentCode id st) = st)).
Proof.
  intros Hd Hq. split.
  - rewrite removePromptCode_run. cbn [snd].
    destruct (lookup_after_delete PROMPT_CODES_KEY st id Hd Hq)
      as (Hgone & Hother & Hnone).
    split; [rewrite read_prompt_code_get; exact Hgone|]. split.
    + intros id' Hne. rewrite !read_prompt_code_get. apply Hother, Hne.
    + rewrite read_prompt_code_get. exact Hnone.
  - rewrite removeCommentCode_run. cbn [snd].
    destruct (lookup_after_delete COMMENT_CODES_KEY st id Hd Hq)
      as (Hgone & Hother & Hnone).
    split; [rewrite read_comment_code_get; exact Hgone|]. split.
    + intros id' Hne. rewrite !read_comment_code_get. apply Hother, Hne.
    + rewrite read_comment_code_get. exact Hnone.
Qed.

(** X3.  When access to the storage is denied or its quota is exceeded,
    the four writers of codes return without throwing and leave the
    storage as it was. *)
Theorem code_writers_swallow_failures (id code : string) (st : Storage) :
  access_denied st = true \/ quota_exceeded st = true ->
  savePromptCode id code st = (Returns tt, st)
  /\ removePromptCode id st = (Returns tt, st)
  /\ saveCommentCode id code st = (Returns tt, st)
  /\ removeCommentCode id st = (Returns tt, st).
Proof.
  intros Hbad.
  rewrite savePromptCode_run, removePromptCode_run, saveCommentCode_run,
    removeCommentCode_run.
  rewrite !(after_failed_write _ _ st Hbad).
  repeat split; f_equal; destruct (fst (Map_delete _ _)); reflexivity.
Qed.

Lemma keys_differ :
  PROMPT_CODES_KEY <> VAULT_KEY /\ COMMENT_CODES_KEY <> VAULT_KEY
  /\ PROMPT_CODES_KEY <> COMMENT_CODES_KEY.
Proof. repeat split; discriminate. Qed.

(** A write at one key, successful or not, leaves the flag of access and
    the texts at the other keys. *)
Lemma setItem_frame (key value : string) (st : Storage) :
  access_denied (snd (setItem key value st)) = access_denied st
  /\ forall k, k <> key -> items (snd (setItem key value st)) !! k = items st !! k.
Proof.
  unfold setItem. destruct (access_denied st) eqn:Hd;
    [split; [cbn [snd]; exact Hd|reflexivity]|].
  destruct (quota_exceeded st); cbn [snd access_denied items].
  - split; [exact Hd|reflexivity].
  - split; [reflexivity|]. intros k Hk. apply lookup_insert_ne. congruence.
Qed.

(** X4.  In every storage, the four writers of codes leave the vault list
    as it was, and the writers of one kind of code leave the codes of the
    other kind as they were. *)
Theorem code_writers_frame (id code id' : string) (st : Storage) :
  read_vault (snd (savePromptCode id code st)) = read_vault st
  /\ read_vault (snd (removePromptCode id st)) = read_vault st
  /\ read_vault (snd (saveCommentCode id code st)) = read_vault st
  /\ read_vault (snd (removeCommentCode id st)) = read_vault st
  /\ read_comment_code id' (snd (savePromptCode id code st))
     = read_comment_code id' st
  /\ read_comment_code id' (snd (removePromptCode id st))
     = read_comment_code id' st
  /\ read_prompt_code id' (snd (saveCommentCode id code st))
     = read_prompt_code id' st
  /\ read_prompt_code id' (snd (removeCommentCode id st))
     = read_prompt_code id' st.
Proof.
  destruct keys_differ as (Hpv & Hcv & Hpc).
  rewrite savePromptCode_run, removePromptCode_run, saveCommentCode_run,
    removeCommentCode_run. cbn [snd].
  rewrite !read_comment_code_get, !read_prompt_code_get.
  assert (Hvault : forall key value, key <> VAULT_KEY ->
            read_vault (snd (setItem key value st)) = read_vault st).
  { intros key value Hk. destruct (setItem_frame key value st) as [Hd Hi].
    apply read_vault_depends; [exact Hd|]. apply Hi. congruence. }
  assert (Hcodes : forall key key' value, key' <> key ->
            stored_codes key' (snd (setItem key value st)) = stored_codes key' st).
  { intros key key' value Hk. destruct (setItem_frame key value st) as [Hd Hi].
    apply stored_codes_depends; [exact Hd|]. apply Hi, Hk. }
  repeat split.
  - apply Hvault, Hpv.
  - destruct (fst (Map_delete _ _)); [apply Hvault, Hpv|reflexivity].
  - apply Hvault, Hcv.
  - destruct (fst (Map_delete _ _)); [apply Hvault, Hcv|reflexivity].
  - rewrite Hcodes by congruence. reflexivity.
  - destruct (fst (Map_delete _ _)); [rewrite Hcodes by congruence|]; reflexivity.
  - rewrite Hcodes by congruence. reflexivity.
  - destruct (fst (Map_delete _ _)); [rewrite Hcodes by congruence|]; reflexivity.
Qed.

(** The storage that the two writers of the vault leave is the one a
    [setItem] at the key of the vault leaves, or the storage itself. *)
Lemma savePromptToVault_storage (P : Prompt) (st : Storage) :
  exists value, snd (savePromptToVault P st) = snd (setItem VAULT_KEY value st).
Proof.
  rewrite savePromptToVault_run. cbv zeta. eexists.
  destruct (setItem VAULT_KEY _ st) as [[[]|e] st'] eqn:E; cbn [snd];
    rewrite E; reflexivity.
Qed.

Lemma removePromptFromVault_storage (promptId : string) (st : Storage) :
  snd (removePromptFromVault promptId st) = st
  \/ exists value,
       snd (removePromptFromVault promptId st) = snd (setItem VAULT_KEY value st).
Proof.
  rewrite removePromptFromVault_run. destruct (_ <? _)%nat; [|left; reflexivity].
  right. eexists.
  destruct (setItem VAULT_KEY _ st) as [[[]|e] st'] eqn:E; cbn [snd];
    rewrite E; reflexivity.
Qed.

(** X5.  In every storage, saving a prompt to the vault and removing one
    from it leave the codes of prompts and of comments as they were. *)
Theorem vault_writers_frame (P : Prompt) (promptId id' : string) (st : Storage) :
  read_prompt_code id' (snd (savePromptToVault P st)) = read_prompt_code id' st
  /\ read_comment_code id' (snd (savePromptToVault P st))
     = read_comment_code id' st
  /\ read_prompt_code id' (snd (removePromptFromVault promptId st))
     = read_prompt_code id' st
  /\ read_comment_code id' (snd (removePromptFromVault promptId st))
     = read_comment_code id' st.
Proof.
  destruct keys_differ as (Hpv & Hcv & _).
  rewrite !read_comment_code_get, !read_prompt_code_get.
  assert (Hcodes : forall key value, key <> VAULT_KEY ->
            stored_codes key (snd (setItem VAULT_KEY value st)) = stored_codes key st).
  { intros key value Hk. destruct (setItem_frame VAULT_KEY value st) as [Hd Hi].
    apply stored_codes_depends; [exact Hd|]. apply Hi, Hk. }
  assert (Hsave : forall key, key <> VAULT_KEY ->
            stored_codes key (snd (savePromptToVault P st)) = stored_codes key st).
  { intros key Hk. destruct (savePromptToVault_storage P st) as [value ->].
    apply Hcodes, Hk. }
  assert (Hremove : forall key, key <> VAULT_KEY ->
            stored_codes key (snd (removePromptFromVault promptId st))
            = stored_codes key st).
  { intros key Hk. destruct (removePromptFromVault_storage promptId st)
      as [->|[value ->]]; [reflexivity|apply Hcodes, Hk]. }
  rewrite !Hsave, !Hremove by assumption. repeat split.
Qed.

(** X6.  [canModifyPrompt]: in a storage that can be written, after a code
    is saved for a prompt the test holds exactly when the code is not the
    empty string, and after the code is removed it does not hold. *)
Theorem canModifyPrompt_follows_code (promptId code : string) (st : Storage) :
  access_denied st = false -> quota_exceeded st = false ->
  fst (canModifyPrompt promptId (snd (savePromptCode promptId code st)))
    = Returns (truthy code)
  /\ fst (canModifyPrompt promptId (snd (removePromptCode promptId st)))
     = Returns false.
Proof.
  intros Hd Hq. unfold canModifyPrompt, getPromptCode, mbind, JS_bind, bind.
  rewrite !getPromptCodes_returns. cbn [fst].
  rewrite savePromptCode_run, removePromptCode_run. cbn [snd].
  destruct (lookup_after_set PROMPT_CODES_KEY _ st promptId code Hd Hq eq_refl)
    as [-> _].
  destruct (lookup_after_delete PROMPT_CODES_KEY st promptId Hd Hq) as (-> & _).
  split; reflexivity.
Qed.

End Facts.

End LocalStorageCodesFacts.

(** ** How the operations of the vault store compose *)

Module VaultStoreFacts.
Import LocalStorage LocalStorageFacts VaultPageFacts.

Section Facts.
Context {json : JSON}.

Lemma upserted_cases (P : Prompt) (l : list Prompt) :
  ((prompt_id P ∉ ids l) /\ upserted P l = l ++ [P])
  \/ (exists k old,
        l !! k = Some old /\ prompt_id old = prompt_id P
        /\ (forall j q, (j < k)%nat -> l !! j = Some q ->
                        prompt_id q <> prompt_id P)
        /\ upserted P l = <[k := P]> l).
Proof.
  unfold upserted. destruct (decide (findIndex (same_id P) l = -1)) as [Hi|Hi].
  - left. rewrite Hi. split; [|reflexivity].
    intros Hin. apply list_elem_of_fmap in Hin as (q & Hq & Hqin).
    rewrite findIndex_none in Hi. specialize (Hi q Hqin). unfold same_id in Hi.
    apply bool_decide_eq_false in Hi. congruence.
  - right. destruct (findIndex_some (same_id P) l Hi)
      as (k & old & Hk & Hl & Hf & Hfirst).
    exists k, old. split; [exact Hl|].
    split; [unfold same_id in Hf; apply bool_decide_eq_true in Hf; exact Hf|].
    split.
    + intros j q Hj Hq. specialize (Hfirst j q Hj Hq). unfold same_id in Hfirst.
      apply bool_decide_eq_false in Hfirst. exact Hfirst.
    + rewrite Hk. destruct (Z.gtb_spec (Z.of_nat k) (-1)); [|lia].
      rewrite Nat2Z.id. reflexivity.
Qed.

Lemma savePromptToVault_writable (P : Prompt) (st : Storage) :
  access_denied st = false -> quota_exceeded st = false ->
  exists st',
    savePromptToVault P st = (Returns true, st')
    /\ access_denied st' = false /\ quota_exceeded st' = false
    /\ read_vault st' = upserted P (read_vault st).
Proof.
  intros Hd Hq. rewrite savePromptToVault_run. cbv zeta.
  destruct (setItem_vault st (upserted P (read_vault st)) Hd Hq)
    as (st' & Hrun & Hread & Hd' & Hq' & _).
  unfold upserted in Hrun. rewrite Hrun. exists st'. auto.
Qed.

Lemma savePromptToVault_unwritable (P : Prompt) (st : Storage) :
  access_denied st = true \/ quota_exceeded st = true ->
  savePromptToVault P st = (Returns false, st).
Proof.
  intros Hbad. rewrite savePromptToVault_run. cbv zeta.
  destruct (setItem_fails st VAULT_KEY
              (JSON_stringify_prompts
                 (if findIndex (same_id P) (read_vault st) >? -1
                  then <[Z.to_nat (findIndex (same_id P) (read_vault st)) := P]>
                         (read_vault st)
                  else read_vault st ++ [P])) Hbad) as [e ->].
  reflexivity.
Qed.

Lemma removePromptFromVault_result (promptId : string) (st : Storage) :
  access_denied st = false -> quota_exceeded st = false ->
  exists st',
    removePromptFromVault promptId st
      = (Returns (bool_decide (promptId ∈ ids (read_vault st))), st')
    /\ access_denied st' = false /\ quota_exceeded st' = false
    /\ read_vault st' = List.filter (other_id promptId) (read_vault st).
Proof.
  intros Hd Hq. rewrite removePromptFromVault_run.
  destruct (filter_other_id_length promptId (read_vault st)) as [_ Hlt].
  destruct (Nat.ltb_spec (length (List.filter (other_id promptId) (read_vault st)))
              (length (read_vault st))) as [Hshrink|Hsame].
  - destruct (setItem_vault st (List.filter (other_id promptId) (read_vault st))
                Hd Hq) as (st' & -> & Hread & Hd' & Hq' & _).
    exists st'. rewrite bool_decide_eq_true_2 by (apply Hlt, Hshrink). auto.
  - assert (Hn : promptId ∉ ids (read_vault st))
      by (intros Hin; apply Hlt in Hin; lia).
    exists st. rewrite bool_decide_eq_false_2 by exact Hn.
    repeat split; try assumption.
    symmetry. apply filter_other_id_absent, Hn.
Qed.

Lemma removePromptFromVault_unwritable (promptId : string) (st : Storage) :
  access_denied st = true \/ quota_exceeded st = true ->
  removePromptFromVault promptId st = (Returns false, st).
Proof.
  intros Hbad. rewrite removePromptFromVault_run.
  destruct (_ <? _)%nat; [|reflexivity].
  destruct (setItem_fails st VAULT_KEY
              (JSON_stringify_prompts
                 (List.filter (other_id promptId) (read_vault st))) Hbad)
    as [e ->].
  reflexivity.
Qed.

Lemma isPromptInVault_run (promptId : string) (st : Storage) :
  isPromptInVault promptId st
  = (Returns (bool_decide (promptId ∈ ids (read_vault st))), st).
Proof.
  unfold isPromptInVault, mbind, JS_bind, bind. rewrite getVaultPrompts_returns.
  unfold mret, JS_ret, ret. f_equal. f_equal.
  induction (read_vault st) as [|p l IH]; cbn [existsb ids map].
  - symmetry. apply bool_decide_eq_false. inversion 1.
  - fold (ids l). rewrite IH.
    destruct (bool_decide_reflect (prompt_id p = promptId)) as [->|Hne]; cbn [orb].
    + symmetry. apply bool_decide_eq_true. left.
    + apply bool_decide_ext. rewrite elem_of_cons. split; [tauto|].
      intros [Heq|Hin]; [congruence|exact Hin].
Qed.

Lemma upserted_has (P : Prompt) (l : list Prompt) : prompt_id P ∈ ids (upserted P l).
Proof.
  destruct (upserted_cases P l) as [[_ ->]|(k & old & Hl & Hid & _ & ->)].
  - unfold ids. rewrite fmap_app. apply elem_of_app. right. left.
  - rewrite (ids_insert_same l k old P Hl Hid).
    rewrite <- Hid. apply list_elem_of_fmap. exists old. split; [reflexivity|].
    apply list_elem_of_lookup. eauto.
Qed.

Lemma filter_other_id_insert (l : list Prompt) (k : nat) (old P : Prompt) :
  l !! k = Some old -> prompt_id old = prompt_id P ->
  List.filter (other_id (prompt_id P)) (<[k := P]> l)
  = List.filter (other_id (prompt_id P)) l.
Proof.
  revert k. induction l as [|q l IH]; intros k Hl Hid; [discriminate|].
  destruct k as [|k].
  - cbn in Hl. injection Hl as ->.
    assert (E1 : other_id (prompt_id P) P = false)
      by (apply other_id_false; reflexivity).
    assert (E2 : other_id (prompt_id P) old = false)
      by (apply other_id_false; exact Hid).
    change (<[0%nat := P]> (old :: l)) with (P :: l).
    cbn [List.filter]. rewrite E1, E2. reflexivity.
  - cbn in Hl. change (<[S k := P]> (q :: l)) with (q :: <[k := P]> l).
    cbn [List.filter]. rewrite (IH k Hl Hid). reflexivity.
Qed.

Lemma filter_other_id_upserted (P : Prompt) (l : list Prompt) :
  List.filter (other_id (prompt_id P)) (upserted P l)
  = List.filter (other_id (prompt_id P)) l.
Proof.
  destruct (upserted_cases P l) as [[_ ->]|(k & old & Hl & Hid & _ & ->)].
  - rewrite List.filter_app. cbn [List.filter].
    assert (E : other_id (prompt_id P) P = false)
      by (apply other_id_false; reflexivity).
    rewrite E. apply app_nil_r.
  - apply (filter_other_id_insert l k old P Hl Hid).
Qed.

Lemma upserted_NoDup (P : Prompt) (l : list Prompt) :
  NoDup (ids l) -> NoDup (ids (upserted P l)).
Proof.
  intros Hnd. destruct (upserted_cases P l) as [[Hn ->]|(k & old & Hl & Hid & _ & ->)].
  - unfold ids. rewrite fmap_app. apply list.NoDup_app. split; [exact Hnd|].
    split; [|apply NoDup_singleton].
    intros x Hx Hx'. apply list_elem_of_singleton in Hx'. cbn in Hx'. subst x.
    contradiction.
  - rewrite (ids_insert_same l k old P Hl Hid). exact Hnd.
Qed.

Lemma filter_other_id_NoDup (promptId : string) (l : list Prompt) :
  NoDup (ids l) -> NoDup (ids (List.filter (other_id promptId) l)).
Proof.
  induction l as [|p l IH]; intros Hnd; [exact Hnd|].
  cbn [ids map] in Hnd. pose proof (NoDup_cons_1_1 _ _ Hnd) as Hp.
  apply NoDup_cons_1_2 in Hnd. cbn [List.filter].
  destruct (other_id promptId p); [|apply IH, Hnd].
  cbn [ids map]. apply list.NoDup_cons. split; [|apply IH, Hnd].
  intros Hin. apply Hp. apply list_elem_of_fmap in Hin as (q & Hq & Hqin).
  apply list_elem_of_In, List.filter_In in Hqin as [Hqin _].
  apply list_elem_of_fmap. exists q. split; [exact Hq|apply list_elem_of_In, Hqin].
Qed.

Lemma upserted_same (P : Prompt) (l : list Prompt) :
  upserted P (upserted P l) = upserted P l.
Proof.
  destruct (upserted_cases P (upserted P l))
    as [[Hn _]|(k & old & Hl & Hid & Hfirst & ->)].
  - exfalso. apply Hn, upserted_has.
  - apply list_insert_id.
    assert (Hfind : List.find (has_id (prompt_id P)) (upserted P l) = Some P).
    { destruct (upserted_cases P l) as [[Hn ->]|(k0 & old0 & Hl0 & Hid0 & Hf0 & ->)].
      - apply find_app_absent; [|reflexivity].
        intros q Hq Heq. apply Hn. rewrite <- Heq. apply list_elem_of_fmap. eauto.
      - apply (find_insert_first _ _ k0 old0); [exact Hl0|reflexivity|exact Hf0]. }
    clear -Hl Hid Hfirst Hfind. revert k Hl Hfirst.
    induction (upserted P l) as [|q l' IH]; intros k Hl Hfirst; [discriminate|].
    cbn [List.find] in Hfind. unfold has_id at 1 in Hfind.
    destruct k as [|k].
    + cbn in Hl. injection Hl as ->.
      rewrite bool_decide_eq_true_2 in Hfind by exact Hid.
      injection Hfind as ->. reflexivity.
    + rewrite bool_decide_eq_false_2 in Hfind
        by (apply (Hfirst 0%nat); [lia|reflexivity]).
      cbn in Hl. cbn. apply (IH Hfind k Hl).
      intros j y Hj Hy. apply (Hfirst (S j)); [lia|exact Hy].
Qed.

(** X7.  In a storage that can be written, a prompt that was just saved is
    in the vault according to [isPromptInVault], and an id that was just
    removed is not. *)
Theorem membership_follows_writes (P : Prompt) (promptId : string) (st : Storage) :
  access_denied st = false -> quota_exceeded st = false ->
  fst (isPromptInVault (prompt_id P) (snd (savePromptToVault P st)))
    = Returns true
  /\ fst (isPromptInVault promptId (snd (removePromptFromVault promptId st)))
     = Returns false.
Proof.
  intros Hd Hq.
  destruct (savePromptToVault_writable P st Hd Hq) as (st1 & -> & _ & _ & Hr1).
  destruct (removePromptFromVault_result promptId st Hd Hq)
    as (st2 & -> & _ & _ & Hr2).
  rewrite !isPromptInVault_run. cbn [fst snd]. rewrite Hr1, Hr2. split.
  - rewrite bool_decide_eq_true_2 by apply upserted_has. reflexivity.
  - rewrite bool_decide_eq_false_2 by apply filter_other_id_gone. reflexivity.
Qed.

(** X8.  In a storage that can be written, saving a prompt whose id is not
    in the vault and then removing that id succeeds twice and gives back
    the vault list as it was. *)
Theorem save_then_remove_restores (P : Prompt) (st : Storage) :
  access_denied st = false -> quota_exceeded st = false ->
  prompt_id P ∉ ids (read_vault st) ->
  let saved := savePromptToVault P st in
  let removed := removePromptFromVault (prompt_id P) (snd saved) in
  fst saved = Returns true
  /\ fst removed = Returns true
  /\ read_vault (snd removed) = read_vault st.
Proof.
  intros Hd Hq Hnew saved removed. subst saved removed.
  destruct (savePromptToVault_writable P st Hd Hq) as (st1 & -> & Hd1 & Hq1 & Hr1).
  cbn [fst snd].
  destruct (removePromptFromVault_result (prompt_id P) st1 Hd1 Hq1)
    as (st2 & -> & _ & _ & Hr2).
  cbn [fst snd]. rewrite Hr2, Hr1.
  rewrite bool_decide_eq_true_2 by apply upserted_has.
  split; [reflexivity|]. split; [reflexivity|].
  rewrite filter_other_id_upserted. apply filter_other_id_absent, Hnew.
Qed.

(** X9.  In a storage that can be written, saving the same prompt a second
    time changes nothing in the vault list. *)
Theorem save_twice_is_save_once (P : Prompt) (st : Storage) :
  access_denied st = false -> quota_exceeded st = false ->
  read_vault (snd (savePromptToVault P (snd (savePromptToVault P st))))
  = read_vault (snd (savePromptToVault P st)).
Proof.
  intros Hd Hq.
  destruct (savePromptToVault_writable P st Hd Hq) as (st1 & -> & Hd1 & Hq1 & Hr1).
  cbn [snd].
  destruct (savePromptToVault_writable P st1 Hd1 Hq1) as (st2 & -> & _ & _ & Hr2).
  cbn [snd]. rewrite Hr2, Hr1. apply upserted_same.
Qed.

(** X10.  In every storage, saving a prompt leaves the entries of the
    vault that carry another id as they were, in their order. *)
Theorem save_keeps_other_entries (P : Prompt) (st : Storage) :
  List.filter (fun q => negb (bool_decide (prompt_id q = prompt_id P)))
    (read_vault (snd (savePromptToVault P st)))
  = List.filter (fun q => negb (bool_decide (prompt_id q = prompt_id P)))
      (read_vault st).
Proof.
  fold (other_id (prompt_id P)).
  destruct (access_denied st) eqn:Hd; [|destruct (quota_exceeded st) eqn:Hq].
  - rewrite savePromptToVault_unwritable by (left; exact Hd). reflexivity.
  - rewrite savePromptToVault_unwritable by (right; exact Hq). reflexivity.
  - destruct (savePromptToVault_writable P st Hd Hq) as (st1 & -> & _ & _ & Hr1).
    cbn [snd]. rewrite Hr1. apply filter_other_id_upserted.
Qed.

(** X11.  In every storage, the three writers of the vault keep the ids of
    the vault list pairwise distinct. *)
Theorem vault_ids_stay_distinct (P : Prompt) (promptId : string) (st : Storage) :
  NoDup (ids (read_vault st)) ->
  NoDup (ids (read_vault (snd (savePromptToVault P st))))
  /\ NoDup (ids (read_vault (snd (removePromptFromVault promptId st))))
  /\ NoDup (ids (read_vault (snd (clearVault st)))).
Proof.
  intros Hnd. split; [|split].
  - destruct (access_denied st) eqn:Hd; [|destruct (quota_exceeded st) eqn:Hq].
    + rewrite savePromptToVault_unwritable by (left; exact Hd). exact Hnd.
    + rewrite savePromptToVault_unwritable by (right; exact Hq). exact Hnd.
    + destruct (savePromptToVault_writable P st Hd Hq) as (st1 & -> & _ & _ & Hr).
      cbn [snd]. rewrite Hr. apply upserted_NoDup, Hnd.
  - destruct (access_denied st) eqn:Hd; [|destruct (quota_exceeded st) eqn:Hq].
    + rewrite removePromptFromVault_unwritable by (left; exact Hd). exact Hnd.
    + rewrite removePromptFromVault_unwritable by (right; exact Hq). exact Hnd.
    + destruct (removePromptFromVault_result promptId st Hd Hq)
        as (st1 & -> & _ & _ & Hr).
      cbn [snd]. rewrite Hr. apply filter_other_id_NoDup, Hnd.
  - rewrite read_vault_cleared. constructor.
Qed.

End Facts.
End VaultStoreFacts.

(** ** The page and the storage stay in agreement *)

Module VaultPageHandlersFacts.
Import LocalStorage Api VaultPage VaultPageHandlers.
Import LocalStorageFacts VaultPageFacts VaultStoreFacts.

Section Facts.
Context {json : JSON}.

Lemma removePromptFromVault_cases (promptId : string) (st : Storage) :
  exists b st',
    removePromptFromVault promptId st = (Returns b, st')
    /\ ((b = true
         /\ read_vault st' = List.filter (other_id promptId) (read_vault st))
        \/ (b = false /\ st' = st)).
Proof.
  destruct (access_denied st) eqn:Hd; [|destruct (quota_exceeded st) eqn:Hq].
  - exists false, st. split; [|right; split; reflexivity].
    apply removePromptFromVault_unwritable. left. exact Hd.
  - exists false, st. split; [|right; split; reflexivity].
    apply removePromptFromVault_unwritable. right. exact Hq.
  - rewrite removePromptFromVault_run.
    destruct (filter_other_id_length promptId (read_vault st)) as [_ Hlt].
    destruct (Nat.ltb_spec
                (length (List.filter (other_id promptId) (read_vault st)))
                (length (read_vault st))) as [Hshrink|Hsame].
    + destruct (setItem_vault st (List.filter (other_id promptId) (read_vault st))
                  Hd Hq) as (st' & -> & Hread & _).
      exists true, st'. split; [reflexivity|]. left. split; [reflexivity|exact Hread].
    + exists false, st. split; [reflexivity|]. right. split; reflexivity.
Qed.

Lemma removePromptFromVault_when_quota (promptId : string) (st : Storage) :
  quota_exceeded st = false ->
  read_vault (snd (removePromptFromVault promptId st))
  = List.filter (other_id promptId) (read_vault st).
Proof.
  intros Hq. destruct (access_denied st) eqn:Hd.
  - rewrite removePromptFromVault_unwritable by (left; exact Hd). cbn [snd].
    rewrite (read_vault_denied st Hd). reflexivity.
  - destruct (removePromptFromVault_result promptId st Hd Hq)
      as (st' & -> & _ & _ & Hread). exact Hread.
Qed.

Lemma savePromptToVault_cases (P : Prompt) (st : Storage) :
  exists b st',
    savePromptToVault P st = (Returns b, st')
    /\ ((b = true /\ read_vault st' = upserted P (read_vault st))
        \/ (b = false /\ st' = st)).
Proof.
  destruct (access_denied st) eqn:Hd; [|destruct (quota_exceeded st) eqn:Hq].
  - exists false, st. split; [|right; split; reflexivity].
    apply savePromptToVault_unwritable. left. exact Hd.
  - exists false, st. split; [|right; split; reflexivity].
    apply savePromptToVault_unwritable. right. exact Hq.
  - destruct (savePromptToVault_writable P st Hd Hq) as (st' & -> & _ & _ & Hread).
    exists true, st'. split; [reflexivity|]. left. split; [reflexivity|exact Hread].
Qed.





Lemma upserted_present (P : Prompt) (l : list Prompt) :
  prompt_id P ∈ ids l ->
  exists k old,
    l !! k = Some old /\ prompt_id old = prompt_id P
    /\ (forall j q, (j < k)%nat -> l !! j = Some q ->
                    prompt_id q <> prompt_id P)
    /\ upserted P l = <[k := P]> l /\ ids (upserted P l) = ids l.
Proof.
  intros Hin. destruct (upserted_cases P l)
    as [[Hn _]|(k & old & Hl & Hid & Hfirst & Hup)]; [contradiction|].
  exists k, old. repeat split; try assumption.
  rewrite Hup. apply (ids_insert_same l k old P Hl Hid).
Qed.

Lemma find_first (promptId : string) (l : list Prompt) (k : nat) (old : Prompt) :
  l !! k = Some old -> prompt_id old = promptId ->
  (forall j q, (j < k)%nat -> l !! j = Some q -> prompt_id q <> promptId) ->
  List.find (has_id promptId) l = Some old.
Proof.
  revert k. induction l as [|q l IH]; intros k Hl Hid Hfirst; [discriminate|].
  cbn [List.find]. unfold has_id at 1. destruct k as [|k].
  - cbn in Hl. injection Hl as ->.
    rewrite bool_decide_eq_true_2 by exact Hid. reflexivity.
  - rewrite bool_decide_eq_false_2 by (apply (Hfirst 0%nat); [lia|reflexivity]).
    cbn in Hl. apply (IH k Hl Hid).
    intros j y Hj Hy. apply (Hfirst (S j)); [lia|exact Hy].
Qed.


(** The comment handlers of the page, in every storage. *)
Lemma handleCommentAdded_cases (promptId : string) (s : State) (st : Storage) :
  let bump q := with_comment_count q (count_or_0 q + 1) in
  handleCommentAdded promptId s st =
    (Returns (setVaultPrompts
                (map (fun q => if bool_decide (prompt_id q = promptId)
                               then bump q else q)) s),
     match List.find (has_id promptId) (vaultPrompts s) with
     | Some p => snd (savePromptToVault (bump p) st)
     | None => st
     end).
Proof.
  intros bump. unfold handleCommentAdded. fold (has_id promptId).
  destruct (List.find (has_id promptId) (vaultPrompts s)) as [p|]; [|reflexivity].
  unfold mbind, JS_bind, bind.
  destruct (savePromptToVault_cases (bump p) st) as (b & st' & Hrun & _).
  unfold bump in *. rewrite Hrun. reflexivity.
Qed.

Lemma handleCommentDeleted_cases (promptId : string) (s : State) (st : Storage) :
  let drop q := with_comment_count q (Z.max 0 (count_or_0 q - 1)) in
  handleCommentDeleted promptId s st =
    (Returns (setVaultPrompts
                (map (fun q => if bool_decide (prompt_id q = promptId)
                               then drop q else q)) s),
     match List.find (has_id promptId) (vaultPrompts s) with
     | Some p => snd (savePromptToVault (drop p) st)
     | None => st
     end).
Proof.
  intros drop. unfold handleCommentDeleted. fold (has_id promptId).
  destruct (List.find (has_id promptId) (vaultPrompts s)) as [p|]; [|reflexivity].
  unfold mbind, JS_bind, bind.
  destruct (savePromptToVault_cases (drop p) st) as (b & st' & Hrun & _).
  unfold drop in *. rewrite Hrun. reflexivity.
Qed.


Lemma upserted_of_shown (P : Prompt) (l : list Prompt) :
  prompt_id P ∈ ids l -> ids (upserted P l) = ids l.
Proof.
  intros Hin. destruct (upserted_present P l Hin) as (k & old & _ & _ & _ & _ & Hids).
  exact Hids.
Qed.









Lemma ids_filter_returned (fresh l : list Prompt) :
  ids (List.filter (fun p => bool_decide (prompt_id p ∈ ids fresh)) l)
  = List.filter (fun i => bool_decide (i ∈ ids fresh)) (ids l).
Proof.
  unfold ids. induction l as [|p l IH]; [reflexivity|]. cbn [List.filter map].
  destruct (bool_decide (prompt_id p ∈ map prompt_id fresh)); cbn [map];
    rewrite IH; reflexivity.
Qed.

(** X17.  A server that answers the batch request with status 204 makes
    [fetchPromptsBatch] fulfil with [null]; the sync effect then ends in
    its [catch] branch: it returns without throwing, the list of the page
    and the storage are what they were, and an error is set. *)
Theorem sync_on_no_content (env : Env) (s : State) (st : Storage)
    (response : Response) :
  (forall request, fetch env request = Fulfilled response) ->
  ok response = true -> status response = 204 ->
  read_vault st <> [] -> isInitialLoading s = false ->
  fst (fetchPromptsBatch env (Some (map prompt_id (read_vault st))))
    = Fulfilled None
  /\ exists s',
       syncEffect env s st = (Returns s', st)
       /\ vaultPrompts s' = vaultPrompts s
       /\ batchError s' = Some null_map_message
       /\ isBatchLoading s' = false.
Proof.
  intros Hfetch Hok Hstatus Hne Hload.
  assert (Hnull : fst (fetchPromptsBatch env
                         (Some (map prompt_id (read_vault st)))) = Fulfilled None).
  { unfold fetchPromptsBatch. destruct (read_vault st) as [|p l]; [congruence|].
    cbn [map length Nat.eqb]. rewrite Hfetch. cbn [fst].
    unfold handleResponse. rewrite Hok, Hstatus. reflexivity. }
  split; [exact Hnull|]. rewrite syncEffect_run, Hload.
  destruct (read_vault st) as [|p l] eqn:Hlocal; [congruence|].
  cbn [negb andb length Nat.ltb Nat.leb].
  unfold syncWithServer, mbind, JS_bind, bind. rewrite Hnull.
  eexists. split; [reflexivity|]. repeat split.
Qed.

End Facts.
End VaultPageHandlersFacts.

(** ** The comment handlers of the vault page, in every storage *)

Module VaultPageCommentFacts.
Import LocalStorage VaultPage.
Import LocalStorageFacts VaultPageFacts VaultStoreFacts VaultPageHandlersFacts.

Section Facts.
Context {json : JSON} {intl : Intl}.



End Facts.
End VaultPageCommentFacts.

(** ** The sync across its [await] *)

Module VaultPageAwaitFacts.
Import LocalStorage Api VaultPage VaultPageHandlers VaultPageAwait.
Import LocalStorageFacts VaultPageFacts VaultStoreFacts VaultPageHandlersFacts.

Section Facts.
Context {json : JSON} {intl : Intl}.

(** Without handlers in between, the two halves are [syncWithServer]. *)
Lemma syncWithServer_halves (env : Env) (localPrompts : list Prompt) (s : State) :
  syncWithServer env localPrompts s
  = syncSettled env localPrompts (syncStarted s).
Proof. reflexivity. Qed.

Lemma syncEffectDuring_nil (env : Env) (v : View) (st : Storage) :
  syncEffectDuring env [] v st
  = match syncEffect env (page v) st with
    | (Returns s, st') => (Returns (setPage (fun _ => s) v), st')
    | (Throws e, st') => (Throws e, st')
    end.
Proof.
  unfold syncEffectDuring, syncEffect, mbind, JS_bind, bind.
  rewrite getVaultPrompts_returns.
  destruct (negb (isInitialLoading (page v)) && (0 <? length (read_vault st))%nat).
  - cbn [run]. unfold mret at 1, JS_ret, ret.
    rewrite syncWithServer_halves. cbn [page setPage].
    destruct (syncSettled env (read_vault st) (syncStarted (page v)) st)
      as [[s'|e] st']; [|reflexivity].
    destruct v; reflexivity.
  - destruct v; reflexivity.
Qed.

(** Every handler of the page returns, and leaves the flags of the sync. *)
Lemma step_returns (e : Event) (v : View) (st : Storage) :
  exists v' st',
    step e v st = (Returns v', st')
    /\ batchError (page v') = batchError (page v).
Proof.
  destruct e as [i|p|r|u|P|i|p b| | |i|i]; cbn [step].
  - unfold handlePromptDeletedCallback, mbind, JS_bind, bind.
    destruct (removePromptFromVault_cases i st) as (b & st' & -> & _).
    eexists _, st'. split; reflexivity.
  - eexists _, st. split; reflexivity.
  - unfold handleCloseModal. destruct r.
    + unfold mbind, JS_bind, bind. rewrite loadFromLocalStorage_run.
      eexists _, st. split; reflexivity.
    + eexists _, st. split; reflexivity.
  - eexists _, st. split; reflexivity.
  - unfold handleSaveToVault, try_catch, mbind, JS_bind, bind.
    destruct (savePromptToVault_cases P st) as (b & st' & -> & _).
    destruct b; eexists _, st'; split; reflexivity.
  - unfold handleRemoveFromVault, try_catch, mbind, JS_bind, bind.
    destruct (removePromptFromVault_cases i st) as (b & st' & -> & _).
    destruct b; eexists _, st'; split; reflexivity.
  - unfold handleToggleCardVault. destruct b.
    + unfold try_catch, mbind, JS_bind, bind.
      destruct (removePromptFromVault_cases (prompt_id p) st) as (b & st' & -> & _).
      destruct b; eexists _, st'; split; reflexivity.
    + eexists _, st. split; reflexivity.
  - eexists _, st. split; [reflexivity|]. unfold handleClearVaultClick.
    destruct (_ <? _)%nat; reflexivity.
  - unfold handleConfirmClearVault, try_catch, mbind, JS_bind, bind.
    rewrite clearVault_run. eexists _, _. split; reflexivity.
  - unfold mbind, JS_bind, bind. rewrite handleCommentAdded_cases.
    eexists _, _. split; reflexivity.
  - unfold mbind, JS_bind, bind. rewrite handleCommentDeleted_cases.
    eexists _, _. split; reflexivity.
Qed.

Lemma run_returns (es : list Event) (v : View) (st : Storage) :
  exists v' st',
    run es v st = (Returns v', st')
    /\ batchError (page v') = batchError (page v).
Proof.
  revert v st. induction es as [|e es IH]; intros v st.
  - exists v, st. split; reflexivity.
  - cbn [run]. unfold mbind, JS_bind, bind.
    destruct (step_returns e v st) as (v1 & st1 & -> & Herr).
    destruct (IH v1 st1) as (v' & st' & -> & Herr').
    exists v', st'. split; [reflexivity|congruence].
Qed.

Lemma forEach_drop_missing_unwritable
    (freshIds : JSSet) (l : list Prompt) (st : Storage) :
  access_denied st = true \/ quota_exceeded st = true ->
  forEach l (drop_missing freshIds) st = (Returns tt, st).
Proof.
  intros Hbad. induction l as [|x l IH]; [reflexivity|].
  cbn [forEach]. unfold mbind, JS_bind, bind. unfold drop_missing at 1.
  destruct (Set_has freshIds (prompt_id x)); cbn [negb].
  - unfold mret, JS_ret, ret. exact IH.
  - unfold mbind, JS_bind, bind.
    rewrite (removePromptFromVault_unwritable (prompt_id x) st Hbad).
    unfold mret, JS_ret, ret. exact IH.
Qed.

(** The second half of a sync whose fetch is fulfilled with [fresh], on
    any state and storage: the page gets the server's prompts for the ids
    of [localPrompts]; the storage loses the ids of [localPrompts] that the
    response does not carry when its quota is not exceeded, and is
    untouched otherwise. *)
Lemma syncSettled_fulfilled
    (env : Env) (fresh localPrompts : list Prompt) (s : State) (st : Storage) :
  fst (fetchPromptsBatch env (Some (map prompt_id localPrompts)))
    = Fulfilled (Some fresh) ->
  exists s' st',
    syncSettled env localPrompts s st = (Returns s', st')
    /\ vaultPrompts s'
       = omap (fun localPrompt =>
                 list.last (List.filter (has_id (prompt_id localPrompt)) fresh))
              localPrompts
    /\ (quota_exceeded st = false ->
        read_vault st'
        = List.filter
            (fun p => bool_decide (prompt_id p ∈ ids fresh)
                      || negb (bool_decide (prompt_id p ∈ ids localPrompts)))
            (read_vault st))
    /\ (quota_exceeded st = true -> st' = st)
    /\ batchError s' = batchError s /\ isBatchLoading s' = false.
Proof.
  intros Hfetch. unfold syncSettled, mbind, JS_bind, bind. rewrite Hfetch.
  change (forEach localPrompts _)
    with (forEach localPrompts (drop_missing (Set_new (map prompt_id fresh)))).
  destruct (access_denied st) eqn:Hd; [|destruct (quota_exceeded st) eqn:Hq].
  - rewrite forEach_drop_missing_unwritable by (left; exact Hd).
    eexists _, st. split; [reflexivity|]. split; [apply shown_after_sync|].
    split; [|split; [reflexivity|split; reflexivity]].
    intros _. rewrite (read_vault_denied st Hd). reflexivity.
  - rewrite forEach_drop_missing_unwritable by (right; exact Hq).
    eexists _, st. split; [reflexivity|]. split; [apply shown_after_sync|].
    split; [discriminate|split; [reflexivity|split; reflexivity]].
  - destruct (forEach_drop_missing (Set_new (map prompt_id fresh)) localPrompts
                st Hd Hq) as (st' & -> & _ & _ & Hread).
    eexists _, st'. split; [reflexivity|]. split; [apply shown_after_sync|].
    split; [|split; [discriminate|split; reflexivity]].
    intros _. rewrite Hread. apply List.filter_ext. intros q.
    rewrite Set_has_new. reflexivity.
Qed.

Lemma filter_returned_of_local (fresh l : list Prompt) :
  List.filter
    (fun p => bool_decide (prompt_id p ∈ ids fresh)
              || negb (bool_decide (prompt_id p ∈ ids l))) l
  = List.filter (fun p => bool_decide (prompt_id p ∈ ids fresh)) l.
Proof.
  apply List.filter_ext_in. intros q Hin.
  rewrite (bool_decide_eq_true_2 (prompt_id q ∈ ids l)); [apply orb_false_r|].
  apply list_elem_of_fmap. exists q. split; [reflexivity|].
  apply list_elem_of_In, Hin.
Qed.


Lemma mountDuring_run (env : Env) (during : list Event) (st : Storage) :
  let s0 := setIsInitialLoading false
              (setVaultPrompts (fun _ => read_vault st) initialState) in
  mountDuring env during st
  = if (0 <? length (read_vault st))%nat
    then
      match run during (setPage syncStarted (loaded s0)) st with
      | (Returns v, st1) =>
          match syncSettled env (read_vault st) (page v) st1 with
          | (Returns s, st2) => (Returns (setPage (fun _ => s) v), st2)
          | (Throws e, st2) => (Throws e, st2)
          end
      | (Throws e, st1) => (Throws e, st1)
      end
    else (Returns (loaded s0), st).
Proof.
  intros s0. unfold mountDuring, syncEffectDuring, mbind, JS_bind, bind.
  rewrite loadFromLocalStorage_run, getVaultPrompts_returns. fold s0.
  cbn [loaded page isInitialLoading s0 setIsInitialLoading negb andb].
  destruct (0 <? length (read_vault st))%nat; [|reflexivity].
  destruct (run during _ st) as [[v|e] st1]; [|reflexivity].
  destruct (syncSettled env (read_vault st) (page v) st1) as [[s|e] st2];
    reflexivity.
Qed.

(** C1.  Mounting the page with a batch fetch that is fulfilled with the
    list [fresh], whatever handlers of the page are called while the fetch
    is awaited.  The page then shows, for each prompt of the local list
    the effect read, in order, whose id the response carries, the prompt
    of the response with that id (the last one, should the response repeat
    an id): the ids shown are the local ids that the response carries,
    every prompt shown is one of the response, and a local id that the
    response does not carry is not shown.  The storage is pruned, never
    updated: when its quota is not exceeded, the vault it holds afterwards
    is the vault it held when the fetch settled without the prompts of the
    local ids that the response does not carry; when its quota is exceeded
    it is untouched; either way every stored prompt is one that was stored
    before, with its local values.  With no handler called in between, the
    stored vault is the local list restricted to the ids of the response.
    No error is set. *)
Theorem sync_updates_page_and_prunes_storage
    (env : Env) (during : list Event) (st : Storage) (fresh : list Prompt) :
  fst (fetchPromptsBatch env (Some (map prompt_id (read_vault st))))
    = Fulfilled (Some fresh) ->
  let localPrompts := read_vault st in
  let returned i := bool_decide (i ∈ ids fresh) in
  let awaiting :=
    setPage syncStarted
      (loaded (setIsInitialLoading false
                 (setVaultPrompts (fun _ => localPrompts) initialState))) in
  (localPrompts = [] ->
   exists v', mountDuring env during st = (Returns v', st)
              /\ vaultPrompts (page v') = [])
  /\ (localPrompts <> [] ->
      exists v_mid st_mid v' st',
        run during awaiting st = (Returns v_mid, st_mid)
        /\ mountDuring env during st = (Returns v', st')
        /\ vaultPrompts (page v')
           = omap (fun localPrompt =>
                     list.last
                       (List.filter
                          (fun q => bool_decide
                                      (prompt_id q = prompt_id localPrompt))
                          fresh))
                  localPrompts
        /\ ids (vaultPrompts (page v')) = List.filter returned (ids localPrompts)
        /\ (forall q, q ∈ vaultPrompts (page v') -> q ∈ fresh)
        /\ (quota_exceeded st_mid = false ->
            read_vault st'
            = List.filter
                (fun p => returned (prompt_id p)
                          || negb (bool_decide (prompt_id p ∈ ids localPrompts)))
                (read_vault st_mid))
        /\ (quota_exceeded st_mid = true -> st' = st_mid)
        /\ (forall p, p ∈ read_vault st' -> p ∈ read_vault st_mid)
        /\ (forall i, i ∈ ids localPrompts -> i ∉ ids fresh ->
              (i ∉ ids (vaultPrompts (page v')))
              /\ (quota_exceeded st_mid = false -> i ∉ ids (read_vault st')))
        /\ (during = [] -> quota_exceeded st = false ->
            read_vault st'
              = List.filter (fun p => returned (prompt_id p)) localPrompts
            /\ ids (read_vault st') = List.filter returned (ids localPrompts))
        /\ batchError (page v') = None /\ isBatchLoading (page v') = false).
Proof.
  intros Hfetch localPrompts returned awaiting. split.
  - intros Hnil. rewrite mountDuring_run. fold localPrompts. rewrite Hnil.
    cbn [length Nat.ltb Nat.leb]. eexists. split; reflexivity.
  - intros Hne.
    destruct (run_returns during awaiting st) as (v_mid & st_mid & Hrun & Herr).
    destruct (syncSettled_fulfilled env fresh localPrompts (page v_mid) st_mid
                Hfetch)
      as (s' & st' & Hsettled & Hshown & Hpruned & Hfull & Herr' & Hload).
    exists v_mid, st_mid, (setPage (fun _ => s') v_mid), st'.
    split; [exact Hrun|]. split.
    { rewrite mountDuring_run. fold localPrompts.
      destruct localPrompts as [|p0 l0] eqn:Hlocal; [congruence|].
      cbn [length Nat.ltb Nat.leb]. fold awaiting. rewrite Hrun, Hsettled.
      reflexivity. }
    cbn [page setPage].
    assert (Hids : ids (vaultPrompts s') = List.filter returned (ids localPrompts))
      by (rewrite Hshown; apply ids_shown_after_sync).
    split; [exact Hshown|]. split; [exact Hids|]. split.
    { intros q Hin. rewrite Hshown in Hin. apply list_elem_of_omap in Hin
        as (lp & _ & Hlast). apply last_with_id_Some in Hlast as [Hfresh _].
      exact Hfresh. }
    split; [exact Hpruned|]. split; [exact Hfull|]. split.
    { intros q Hin. destruct (quota_exceeded st_mid) eqn:Hq.
      - rewrite (Hfull eq_refl) in Hin. exact Hin.
      - rewrite (Hpruned eq_refl) in Hin. apply list_elem_of_In in Hin.
        apply List.filter_In in Hin as [Hin _]. apply list_elem_of_In, Hin. }
    split.
    { intros i Hlocal Hmissing. split.
      - rewrite Hids, list_elem_of_In. intros Hin.
        apply List.filter_In in Hin as [_ Hret]. unfold returned in Hret.
        apply bool_decide_eq_true in Hret. contradiction.
      - intros Hq Hin. rewrite (Hpruned Hq) in Hin.
        apply list_elem_of_fmap in Hin as (q & -> & Hq').
        apply list_elem_of_In, List.filter_In in Hq' as [_ Hkeep].
        apply orb_true_iff in Hkeep as [Hret|Hnot].
        + apply bool_decide_eq_true in Hret. contradiction.
        + apply negb_true_iff, bool_decide_eq_false in Hnot. contradiction. }
    split.
    { intros -> Hq. cbn [run] in Hrun. injection Hrun as <- <-.
      rewrite (Hpruned Hq). fold localPrompts.
      rewrite filter_returned_of_local. split; [reflexivity|].
      apply ids_filter_returned. }
    split; [|exact Hload]. rewrite Herr', Herr. reflexivity.
Qed.


End Facts.
End VaultPageAwaitFacts.

(** ** The responses of the server *)

Module ApiResponseFacts.
Import ApiRequests.
Import Api.

Lemma or_else_truthy (a : option string) (b : string) :
  truthy b = true -> truthy (or_else a b) = true.
Proof.
  intros Hb. unfold or_else. destruct a as [s|]; [|exact Hb].
  destruct (truthy s) eqn:Hs; [exact Hs|exact Hb].
Qed.

Lemma or_else_first (d b : string) : truthy d = true -> or_else (Some d) b = d.
Proof. intros Hd. unfold or_else. rewrite Hd. reflexivity. Qed.

(** X12.  A response that is not ok is never fulfilled: [handleResponse]
    rejects with an [Error] whose message is not empty, and the message is
    the [detail] of the body whenever the body carries one that is not
    empty. *)
Theorem handleResponse_rejects_with_message (response : Response) :
  ok response = false ->
  exists msg,
    handleResponse response = Rejected (ErrorObject msg)
    /\ truthy msg = true
    /\ forall data d,
         json_as_error response = Some data -> detail data = Some d ->
         truthy d = true -> msg = d.
Proof.
  intros Hok. unfold handleResponse. rewrite Hok. cbn [negb].
  eexists. split; [reflexivity|]. split.
  - destruct (bool_decide (status response = 429)).
    + apply or_else_truthy. reflexivity.
    + apply or_else_truthy, or_else_truthy. reflexivity.
  - intros data d Hdata Hdetail Hd. rewrite Hdata, Hdetail.
    destruct (bool_decide (status response = 429)); apply or_else_first, Hd.
Qed.

(** X13.  For a list of ids that is not empty, [fetchPromptsBatch] sends
    one request, and it is fulfilled with a list exactly when the fetch is
    fulfilled with a response that is ok, whose status is not 204 and
    whose body parses to that list. *)
Theorem fetchPromptsBatch_fulfilled_iff
    (env : Env) (promptIds : list string) (l : list Prompt) :
  promptIds <> [] ->
  snd (fetchPromptsBatch env (Some promptIds)) = [batch_request env promptIds]
  /\ (fst (fetchPromptsBatch env (Some promptIds)) = Fulfilled (Some l)
      <-> exists response,
            fetch env (batch_request env promptIds) = Fulfilled response
            /\ ok response = true /\ status response <> 204
            /\ json_as_prompts response = Fulfilled l).
Proof.
  intros Hne. unfold fetchPromptsBatch. destruct promptIds as [|i ids']; [congruence|].
  cbn [length Nat.eqb]. fold (batch_request env (i :: ids')).
  destruct (fetch env (batch_request env (i :: ids'))) as [response|error] eqn:Hfetch;
    cbn [fst snd]; (split; [reflexivity|]).
  - unfold handleResponse. split.
    + destruct (ok response) eqn:Hok; cbn [negb]; [|discriminate].
      destruct (bool_decide_reflect (status response = 204)) as [|Hstatus];
        [discriminate|].
      destruct (json_as_prompts response) as [l'|e] eqn:Hjson; [|discriminate].
      intros [= ->]. exists response. auto.
    + intros (r & [= <-] & Hok & Hstatus & Hjson).
      rewrite Hok, Hjson. cbn [negb].
      rewrite bool_decide_eq_false_2 by exact Hstatus. reflexivity.
  - split; [discriminate|]. intros (r & Hr & _). discriminate.
Qed.

End ApiResponseFacts.

(** ** The home page: the vault and its version counter *)

Module HomePageFacts.
Import LocalStorage LocalStorageCodes HomePage HomeEvents.
Import LocalStorageFacts VaultPageFacts VaultStoreFacts VaultPageHandlersFacts.
Import LocalStorageCodesFacts.

Section Facts.
Context {json : JSON} {codes : JSONCodes}.

Lemma findIndex_lookup (promptId : string) (l : list Prompt) :
  findIndex (fun p => bool_decide (prompt_id p = promptId)) l <> -1 ->
  exists k p,
    findIndex (fun p => bool_decide (prompt_id p = promptId)) l = Z.of_nat k
    /\ l !! k = Some p /\ prompt_id p = promptId
    /\ (forall j q, (j < k)%nat -> l !! j = Some q -> prompt_id q <> promptId)
    /\ List.find (has_id promptId) l = Some p.
Proof.
  intros Hi. destruct (findIndex_some _ l Hi) as (k & p & Hk & Hl & Hf & Hfirst).
  apply bool_decide_eq_true in Hf.
  assert (Hfirst' : forall j q, (j < k)%nat -> l !! j = Some q ->
                                prompt_id q <> promptId).
  { intros j q Hj Hq. specialize (Hfirst j q Hj Hq).
    apply bool_decide_eq_false in Hfirst. exact Hfirst. }
  exists k, p. repeat split; try assumption.
  apply (find_first promptId l k p Hl Hf Hfirst').
Qed.

Lemma find_absent (promptId : string) (l : list Prompt) :
  promptId ∉ ids l -> List.find (has_id promptId) l = None.
Proof.
  intros Hn. destruct (List.find (has_id promptId) l) as [p|] eqn:Hfind;
    [|reflexivity].
  exfalso. apply Hn. rewrite <- (find_has_id _ _ _ Hfind).
  apply list_elem_of_fmap. exists p. split; [reflexivity|].
  apply list_elem_of_In. eapply List.find_some, Hfind.
Qed.

(** The comment handlers of the home page, in every storage: they act on
    the first prompt of the vault with the id, when there is one. *)
Lemma home_comment_cases (promptId : string) (g : Prompt -> Prompt)
    (h : State) (st : Storage) :
  (inVault ← isPromptInVault promptId;
   if (inVault : bool)
   then
     vaultPrompts ← getVaultPrompts;
     let promptIndex :=
       findIndex (fun p => bool_decide (prompt_id p = promptId)) vaultPrompts in
     if negb (promptIndex =? -1)
     then
       match vaultPrompts !! Z.to_nat promptIndex with
       | Some found =>
           savePromptToVault (g found);;
           mret (setVaultVersion (fun v => v + 1) h)
       | None => mret h
       end
     else mret h
   else mret h) st
  = match List.find (has_id promptId) (read_vault st) with
    | Some p => (Returns (setVaultVersion (fun v => v + 1) h),
                 snd (savePromptToVault (g p) st))
    | None => (Returns h, st)
    end.
Proof.
  unfold mbind, JS_bind, bind. rewrite isPromptInVault_run.
  destruct (bool_decide_reflect (promptId ∈ ids (read_vault st))) as [Hin|Hn].
  - rewrite getVaultPrompts_returns.
    assert (Hi : findIndex (fun p => bool_decide (prompt_id p = promptId))
                   (read_vault st) <> -1).
    { intros Hnone. rewrite findIndex_none in Hnone.
      apply list_elem_of_fmap in Hin as (q & -> & Hq). specialize (Hnone q Hq).
      apply bool_decide_eq_false in Hnone. congruence. }
    destruct (findIndex_lookup promptId _ Hi) as (k & p & Hk & Hl & _ & _ & Hfind).
    rewrite Hk, Hfind. destruct (Z.eqb_spec (Z.of_nat k) (-1)); [lia|].
    cbn [negb]. rewrite Nat2Z.id, Hl.
    destruct (savePromptToVault_cases (g p) st) as (b & st' & -> & _). reflexivity.
  - rewrite (find_absent _ _ Hn). reflexivity.
Qed.

Lemma handleCommentAdded_home (promptId : string) (h : State) (st : Storage) :
  handleCommentAdded promptId h st
  = match List.find (has_id promptId) (read_vault st) with
    | Some p =>
        (Returns (setVaultVersion (fun v => v + 1) h),
         snd (savePromptToVault
                (with_comment_count p (VaultPage.count_or_0 p + 1)) st))
    | None => (Returns h, st)
    end.
Proof.
  apply (home_comment_cases promptId
           (fun p => with_comment_count p (VaultPage.count_or_0 p + 1))).
Qed.

Lemma handleCommentDeleted_home (promptId : string) (h : State) (st : Storage) :
  handleCommentDeleted promptId h st
  = match List.find (has_id promptId) (read_vault st) with
    | Some p =>
        (Returns (setVaultVersion (fun v => v + 1) h),
         snd (savePromptToVault
                (with_comment_count p (Z.max 0 (VaultPage.count_or_0 p - 1))) st))
    | None => (Returns h, st)
    end.
Proof.
  apply (home_comment_cases promptId
           (fun p => with_comment_count p (Z.max 0 (VaultPage.count_or_0 p - 1)))).
Qed.

Lemma savePromptCode_keeps_vault (id code : string) (st : Storage) :
  read_vault (snd (savePromptCode id code st)) = read_vault st.
Proof.
  rewrite savePromptCode_run. cbn [snd].
  destruct (setItem_frame PROMPT_CODES_KEY
              (JSON_stringify_codes
                 (Map_set id code (stored_codes PROMPT_CODES_KEY st))) st)
    as [Hd Hi].
  apply read_vault_depends; [exact Hd|]. apply Hi. discriminate.
Qed.

Lemma setItem_quota (key value : string) (st : Storage) :
  quota_exceeded (snd (setItem key value st)) = quota_exceeded st.
Proof.
  unfold setItem. destruct (access_denied st); [reflexivity|].
  destruct (quota_exceeded st) eqn:Hq; [exact Hq|reflexivity].
Qed.

(** A write under a key of codes leaves the vault list and the flags. *)
Lemma codes_write_keeps (key value : string) (st : Storage) :
  key <> VAULT_KEY ->
  read_vault (snd (setItem key value st)) = read_vault st
  /\ access_denied (snd (setItem key value st)) = access_denied st
  /\ quota_exceeded (snd (setItem key value st)) = quota_exceeded st.
Proof.
  intros Hkey. destruct (setItem_frame key value st) as [Hd Hi].
  split; [|split; [exact Hd|apply setItem_quota]].
  apply read_vault_depends; [exact Hd|]. apply Hi. congruence.
Qed.

Lemma removePromptCode_keeps (id : string) (st : Storage) :
  read_vault (snd (removePromptCode id st)) = read_vault st
  /\ access_denied (snd (removePromptCode id st)) = access_denied st
  /\ quota_exceeded (snd (removePromptCode id st)) = quota_exceeded st.
Proof.
  rewrite removePromptCode_run. cbn [snd].
  destruct (fst (Map_delete id (stored_codes PROMPT_CODES_KEY st)));
    [apply codes_write_keeps; discriminate|repeat split].
Qed.

Lemma saveCommentCode_keeps_vault (id code : string) (st : Storage) :
  read_vault (snd (saveCommentCode id code st)) = read_vault st.
Proof.
  rewrite saveCommentCode_run. cbn [snd]. apply codes_write_keeps. discriminate.
Qed.

Lemma removeCommentCode_keeps_vault (id : string) (st : Storage) :
  read_vault (snd (removeCommentCode id st)) = read_vault st.
Proof.
  rewrite removeCommentCode_run. cbn [snd].
  destruct (fst (Map_delete id (stored_codes COMMENT_CODES_KEY st)));
    [apply codes_write_keeps; discriminate|reflexivity].
Qed.

(** A second removal of the same id finds nothing to remove. *)
Lemma removePromptFromVault_twice (promptId : string) (st : Storage) :
  removePromptFromVault promptId (snd (removePromptFromVault promptId st))
  = (Returns false, snd (removePromptFromVault promptId st)).
Proof.
  destruct (removePromptFromVault_cases promptId st)
    as (b & st1 & Hrun & [[-> Hread]|[-> ->]]); rewrite Hrun; cbn [snd].
  - rewrite removePromptFromVault_run, Hread.
    rewrite (filter_other_id_absent promptId
               (List.filter (other_id promptId) (read_vault st)))
      by apply filter_other_id_gone.
    rewrite Nat.ltb_irrefl. reflexivity.
  - exact Hrun.
Qed.

(** One event either adds one to the version, or leaves the version; it
    then leaves the vault list too, unless it is a deletion confirmed in
    the modal, which always leaves the version. *)
Lemma step_version (e : Event) (h : State) (st : Storage) :
  exists h' st',
    step e h st = (Returns h', st')
    /\ ((vaultVersion h' = vaultVersion h
         /\ (read_vault st' = read_vault st
             \/ exists i, e = PromptDeleteConfirmed i))
        \/ vaultVersion h' = vaultVersion h + 1)
    /\ (forall i, e = PromptDeleteConfirmed i ->
        vaultVersion h' = vaultVersion h
        /\ st' = snd (removePromptFromVault i (snd (removePromptCode i st)))).
Proof.
  destruct e as [p c|b u|i|i c code|c i|b p|p b|t|t]; cbn [step].
  - unfold handlePromptCreated.
    destruct c as [code|]; [destruct (truthy code)|].
    + unfold mbind, JS_bind, bind. pose proof (savePromptCode_keeps_vault
        (prompt_id p) code st) as Hkeep.
      rewrite savePromptCode_run in *. cbn [snd] in Hkeep.
      eexists _, _. split; [reflexivity|]. split; [|discriminate].
      left. split; [reflexivity|left; exact Hkeep].
    + eexists _, st. split; [reflexivity|]. split; [|discriminate].
      left. split; [reflexivity|left; reflexivity].
    + eexists _, st. split; [reflexivity|]. split; [|discriminate].
      left. split; [reflexivity|left; reflexivity].
  - unfold PromptDetailModal.handleSavePromptEdit, try_catch, mbind, JS_bind, bind.
    cbn [PromptDetailModal.onPromptUpdated modalProps].
    unfold handlePromptUpdated, mbind, JS_bind, bind.
    destruct b.
    + destruct (savePromptToVault_cases u st)
        as (b1 & st1 & -> & [[-> Hread]|[-> ->]]);
        unfold mret at 1, JS_ret, ret; rewrite isPromptInVault_run.
      * rewrite Hread, bool_decide_eq_true_2 by apply upserted_has.
        destruct (savePromptToVault_cases u st1) as (b2 & st2 & -> & _).
        eexists _, st2. split; [reflexivity|]. split; [|discriminate].
        right. reflexivity.
      * destruct (bool_decide (prompt_id u ∈ ids (read_vault st))).
        -- destruct (savePromptToVault_cases u st) as (b2 & st2 & -> & _).
           eexists _, st2. split; [reflexivity|]. split; [|discriminate].
           right. reflexivity.
        -- eexists _, st. split; [reflexivity|]. split; [|discriminate].
           left. split; [reflexivity|left; reflexivity].
    + unfold mret at 1, JS_ret, ret. rewrite isPromptInVault_run.
      destruct (bool_decide (prompt_id u ∈ ids (read_vault st))).
      * destruct (savePromptToVault_cases u st) as (b2 & st2 & -> & _).
        eexists _, st2. split; [reflexivity|]. split; [|discriminate].
        right. reflexivity.
      * eexists _, st. split; [reflexivity|]. split; [|discriminate].
        left. split; [reflexivity|left; reflexivity].
  - unfold PromptDetailModal.handleDeletePrompt, try_catch, mbind, JS_bind, bind.
    cbn [PromptDetailModal.onPromptDeleted PromptDetailModal.onClose modalProps].
    unfold handlePromptDeleted, mbind, JS_bind, bind.
    rewrite removePromptCode_run.
    set (st0 := if fst (Map_delete i (stored_codes PROMPT_CODES_KEY st))
                then _ else st).
    pose proof (removePromptFromVault_twice i st0) as Htwice.
    destruct (removePromptFromVault i st0) as [[b1|e1] st1] eqn:Hfirst.
    + cbn [snd] in Htwice. rewrite Htwice.
      eexists _, st1. split; [reflexivity|]. split.
      * left. split; [reflexivity|right; eauto].
      * intros i' [= <-]. split; [reflexivity|].
        rewrite removePromptCode_run. cbn [snd]. fold st0. rewrite Hfirst.
        reflexivity.
    + destruct (removePromptFromVault_cases i st0) as (b & st' & Hrun & _).
      rewrite Hrun in Hfirst. discriminate.
  - unfold PromptDetailModal.handleCommentSubmit, try_catch, mbind, JS_bind, bind.
    cbn [PromptDetailModal.onCommentAdded modalProps].
    assert (Hflow : forall st0, read_vault st0 = read_vault st ->
              exists h' st',
                handleCommentAdded i h st0 = (Returns h', st')
                /\ ((vaultVersion h' = vaultVersion h
                     /\ (read_vault st' = read_vault st
                         \/ exists i0, CommentSubmitted i c code
                                       = PromptDeleteConfirmed i0))
                    \/ vaultVersion h' = vaultVersion h + 1)).
    { intros st0 Hkeep. rewrite handleCommentAdded_home.
      destruct (List.find (has_id i) (read_vault st0)).
      - eexists _, _. split; [reflexivity|]. right. reflexivity.
      - eexists _, st0. split; [reflexivity|]. left.
        split; [reflexivity|left; exact Hkeep]. }
    destruct code as [code|]; [destruct (truthy code)|].
    + rewrite saveCommentCode_run.
      pose proof (saveCommentCode_keeps_vault c code st) as Hkeep.
      rewrite saveCommentCode_run in Hkeep. cbn [snd] in Hkeep.
      destruct (Hflow _ Hkeep) as (h' & st' & -> & Hcases).
      exists h', st'. split; [reflexivity|]. split; [exact Hcases|discriminate].
    + unfold mret at 1, JS_ret, ret.
      destruct (Hflow st eq_refl) as (h' & st' & -> & Hcases).
      exists h', st'. split; [reflexivity|]. split; [exact Hcases|discriminate].
    + unfold mret at 1, JS_ret, ret.
      destruct (Hflow st eq_refl) as (h' & st' & -> & Hcases).
      exists h', st'. split; [reflexivity|]. split; [exact Hcases|discriminate].
  - unfold PromptDetailModal.handleDeleteComment, try_catch, mbind, JS_bind, bind.
    cbn [PromptDetailModal.onCommentDeleted modalProps].
    rewrite removeCommentCode_run.
    pose proof (removeCommentCode_keeps_vault c st) as Hkeep.
    rewrite removeCommentCode_run in Hkeep. cbn [snd] in Hkeep.
    set (st0 := if fst (Map_delete c (stored_codes COMMENT_CODES_KEY st))
                then _ else st) in *.
    destruct i as [i|]; [destruct (truthy i)|].
    + rewrite handleCommentDeleted_home.
      destruct (List.find (has_id i) (read_vault st0)).
      * eexists _, _. split; [reflexivity|]. split; [|discriminate].
        right. reflexivity.
      * eexists _, st0. split; [reflexivity|]. split; [|discriminate].
        left. split; [reflexivity|left; exact Hkeep].
    + eexists _, st0. split; [reflexivity|]. split; [|discriminate].
      left. split; [reflexivity|left; exact Hkeep].
    + eexists _, st0. split; [reflexivity|]. split; [|discriminate].
      left. split; [reflexivity|left; exact Hkeep].
  - unfold PromptDetailModal.handleToggleVault, try_catch, mbind, JS_bind, bind.
    cbn [PromptDetailModal.onRemoveFromVault PromptDetailModal.onSaveToVault
           modalProps].
    destruct b.
    + unfold handleRemoveFromVaultForModal, try_catch, mbind, JS_bind, bind.
      destruct (removePromptFromVault_cases (prompt_id p) st)
        as (b & st' & -> & [[-> _]|[-> ->]]).
      * eexists _, st'. split; [reflexivity|]. split; [|discriminate].
        right. reflexivity.
      * eexists _, st. split; [reflexivity|]. split; [|discriminate].
        left. split; [reflexivity|left; reflexivity].
    + unfold handleSaveToVaultForModal, try_catch, mbind, JS_bind, bind.
      destruct (savePromptToVault_cases p st) as (b & st' & -> & [[-> _]|[-> ->]]).
      * eexists _, st'. split; [reflexivity|]. split; [|discriminate].
        right. reflexivity.
      * eexists _, st. split; [reflexivity|]. split; [|discriminate].
        left. split; [reflexivity|left; reflexivity].
  - unfold PromptList.handleToggleCardVault. destruct b.
    + unfold PromptList.handleRemoveFromVaultForCard, try_catch, mbind, JS_bind,
        bind.
      destruct (removePromptFromVault_cases (prompt_id p) st)
        as (b & st' & -> & [[-> _]|[-> ->]]).
      * eexists _, st'. split; [reflexivity|]. split; [|discriminate].
        right. reflexivity.
      * eexists _, st. split; [reflexivity|]. split; [|discriminate].
        left. split; [reflexivity|left; reflexivity].
    + unfold PromptList.handleSaveToVaultForCard, try_catch, mbind, JS_bind, bind.
      destruct (savePromptToVault_cases p st) as (b & st' & -> & [[-> _]|[-> ->]]).
      * eexists _, st'. split; [reflexivity|]. split; [|discriminate].
        right. reflexivity.
      * eexists _, st. split; [reflexivity|]. split; [|discriminate].
        left. split; [reflexivity|left; reflexivity].
  - eexists _, st. split; [reflexivity|]. split; [|discriminate].
    left. split; [reflexivity|left; reflexivity].
  - eexists _, st. split; [reflexivity|]. split; [|discriminate].
    left. split; [reflexivity|left; reflexivity].
Qed.

(** X18.  The version counter of the home page follows the vault in every
    flow but one.  Every flow returns, and leaves the counter or adds one
    to it.  In a flow other than a deletion confirmed in the modal, a
    counter that is left means that the vault list is what it was, so that
    the set of saved ids that the list computes for a version is still the
    set of the stored ids.  A deletion confirmed in the modal always leaves
    the counter: the modal removes the prompt from the vault itself before
    it calls the page, so when the quota is not exceeded the vault loses
    the entries of the id, and a prompt that was in the vault is gone with
    the counter unchanged. *)
Theorem vaultVersion_follows_vault (e : Event) (h : State) (st : Storage) :
  exists h' st',
    step e h st = (Returns h', st')
    /\ (vaultVersion h' = vaultVersion h \/ vaultVersion h' = vaultVersion h + 1)
    /\ ((forall i, e <> PromptDeleteConfirmed i) ->
        vaultVersion h' = vaultVersion h ->
        read_vault st' = read_vault st
        /\ fst (PromptList.savedPromptIds st') = fst (PromptList.savedPromptIds st))
    /\ (forall i, e = PromptDeleteConfirmed i ->
        vaultVersion h' = vaultVersion h
        /\ (quota_exceeded st = false ->
            read_vault st'
            = List.filter (fun p => negb (bool_decide (prompt_id p = i)))
                          (read_vault st))
        /\ (quota_exceeded st = false -> i ∈ ids (read_vault st) ->
            (i ∉ ids (read_vault st')) /\ read_vault st' <> read_vault st)).
Proof.
  destruct (step_version e h st) as (h' & st' & Hrun & Hcases & Hdel).
  exists h', st'. split; [exact Hrun|]. split; [tauto|]. split.
  - intros Hother Hsame.
    assert (Hread : read_vault st' = read_vault st).
    { destruct Hcases as [[_ [Hr|[i Hi]]]|Hbump];
        [exact Hr|exfalso; exact (Hother i Hi)|lia]. }
    split; [exact Hread|].
    unfold PromptList.savedPromptIds, mbind, JS_bind, bind.
    rewrite !getVaultPrompts_returns, Hread. reflexivity.
  - intros i Hi. destruct (Hdel i Hi) as [Hsame ->]. split; [exact Hsame|].
    destruct (removePromptCode_keeps i st) as (Hkeep & _ & Hquota).
    assert (Hread : quota_exceeded st = false ->
              read_vault (snd (removePromptFromVault i (snd (removePromptCode i st))))
              = List.filter (other_id i) (read_vault st)).
    { intros Hq. rewrite removePromptFromVault_when_quota by congruence.
      rewrite Hkeep. reflexivity. }
    split; [exact Hread|]. intros Hq Hin.
    assert (Hgone : i ∉ ids (read_vault
              (snd (removePromptFromVault i (snd (removePromptCode i st))))))
      by (rewrite (Hread Hq); apply filter_other_id_gone).
    split; [exact Hgone|]. intros Heq. rewrite Heq in Hgone. contradiction.
Qed.

(** X19.  An update that the home page receives from the modal never
    puts a prompt into the vault: in every storage the ids of the vault
    list are what they were, and for a prompt that is not in the vault
    neither the storage nor the state changes.  For a prompt that is in
    the vault, in a storage that can be written, the stored prompt becomes
    the updated one and the version counter gets one more. *)
Theorem home_update_never_inserts (u : Prompt) (h : State) (st : Storage) :
  exists h' st',
    handlePromptUpdated u h st = (Returns h', st')
    /\ ids (read_vault st') = ids (read_vault st)
    /\ (prompt_id u ∉ ids (read_vault st) -> h' = h /\ st' = st)
    /\ (access_denied st = false -> quota_exceeded st = false ->
        prompt_id u ∈ ids (read_vault st) ->
        List.find (fun q => bool_decide (prompt_id q = prompt_id u))
                  (read_vault st') = Some u
        /\ vaultVersion h' = vaultVersion h + 1).
Proof.
  unfold handlePromptUpdated, mbind, JS_bind, bind. rewrite isPromptInVault_run.
  destruct (bool_decide_reflect (prompt_id u ∈ ids (read_vault st))) as [Hin|Hn].
  - destruct (savePromptToVault_cases u st) as (b & st' & Hrun & Hcases).
    rewrite Hrun. eexists _, st'. split; [reflexivity|]. split; [|split].
    + destruct Hcases as [[_ ->]|[_ ->]]; [|reflexivity].
      apply upserted_of_shown, Hin.
    + intros Hn. contradiction.
    + intros Hd Hq _.
      destruct (savePromptToVault_then_find u st Hd Hq) as (st1 & Hrun1 & _ & _ & Hf).
      rewrite Hrun in Hrun1. injection Hrun1 as _ ->.
      split; [exact Hf|reflexivity].
  - eexists _, st. split; [reflexivity|]. split; [reflexivity|].
    split; [intros _; split; reflexivity|]. intros _ _ Hin. contradiction.
Qed.

Lemma upserted_at (P : Prompt) (l : list Prompt) (k : nat) (old : Prompt) :
  l !! k = Some old -> prompt_id old = prompt_id P ->
  (forall j q, (j < k)%nat -> l !! j = Some q -> prompt_id q <> prompt_id P) ->
  upserted P l = <[k := P]> l.
Proof.
  intros Hl Hid Hfirst.
  destruct (upserted_cases P l) as [[Hn _]|(k' & old' & Hl' & Hid' & Hfirst' & ->)].
  - exfalso. apply Hn. rewrite <- Hid. apply list_elem_of_fmap. exists old.
    split; [reflexivity|]. apply list_elem_of_lookup. eauto.
  - destruct (Nat.lt_trichotomy k' k) as [Hlt|[->|Hgt]]; [|reflexivity|].
    + exfalso. apply (Hfirst k' old' Hlt Hl'), Hid'.
    + exfalso. apply (Hfirst' k old Hgt Hl), Hid.
Qed.

(** X20.  On the home page, for a prompt of the vault that carries a
    count that is not negative, in a storage that can be written: a
    comment added makes the stored count one more, and a comment added and
    then deleted gives back the vault list exactly as it was, with the
    version counter two more. *)
Theorem home_comment_round_trip
    (promptId : string) (h : State) (st : Storage) (p : Prompt) (n : Z) :
  access_denied st = false -> quota_exceeded st = false ->
  List.find (fun q => bool_decide (prompt_id q = promptId)) (read_vault st)
    = Some p ->
  comment_count p = Some n -> 0 <= n ->
  exists h1 st1 h2 st2,
    handleCommentAdded promptId h st = (Returns h1, st1)
    /\ handleCommentDeleted promptId h1 st1 = (Returns h2, st2)
    /\ List.find (fun q => bool_decide (prompt_id q = promptId)) (read_vault st1)
       = Some (with_comment_count p (n + 1))
    /\ read_vault st2 = read_vault st
    /\ vaultVersion h2 = vaultVersion h + 2.
Proof.
  intros Hd Hq Hfind Hcount Hpos.
  change (List.find (has_id promptId) (read_vault st) = Some p) in Hfind.
  pose proof (find_has_id _ _ _ Hfind) as Hid.
  assert (Hc : VaultPage.count_or_0 p = n)
    by (unfold VaultPage.count_or_0; rewrite Hcount; reflexivity).
  set (p1 := with_comment_count p (n + 1)).
  assert (Hi : findIndex (fun q => bool_decide (prompt_id q = promptId))
                 (read_vault st) <> -1).
  { intros Hnone. rewrite findIndex_none in Hnone.
    apply List.find_some in Hfind as [Hin _]. apply list_elem_of_In in Hin.
    specialize (Hnone p Hin). apply bool_decide_eq_false in Hnone. congruence. }
  destruct (findIndex_lookup promptId _ Hi) as (k & p' & _ & Hl & _ & Hfirst & Hfind').
  rewrite Hfind in Hfind'. injection Hfind' as <-.
  destruct (savePromptToVault_writable p1 st Hd Hq) as (st1 & Hrun1 & Hd1 & Hq1 & Hr1).
  assert (Hup1 : read_vault st1 = <[k := p1]> (read_vault st)).
  { rewrite Hr1. apply (upserted_at p1 _ k p Hl); [exact eq_refl|].
    intros j q Hj Hjq. cbn [p1 prompt_id with_comment_count].
    rewrite Hid. apply (Hfirst j q Hj Hjq). }
  assert (Hk : (k < length (read_vault st))%nat) by (apply lookup_lt_Some in Hl; exact Hl).
  assert (Hfind1 : List.find (has_id promptId) (read_vault st1) = Some p1).
  { rewrite Hup1. apply (find_insert_first promptId _ k p p1 Hl); [exact Hid|exact Hfirst]. }
  assert (Hback : with_comment_count p1 (Z.max 0 (VaultPage.count_or_0 p1 - 1)) = p).
  { change (VaultPage.count_or_0 p1) with (n + 1).
    replace (Z.max 0 (n + 1 - 1)) with n by lia.
    unfold p1. rewrite with_comment_count_twice.
    apply with_comment_count_same, Hcount. }
  destruct (savePromptToVault_writable p st1 Hd1 Hq1) as (st2 & Hrun2 & _ & _ & Hr2).
  exists (setVaultVersion (fun v => v + 1) h), st1,
         (setVaultVersion (fun v => v + 1) (setVaultVersion (fun v => v + 1) h)), st2.
  split; [|split; [|split; [exact Hfind1|split]]].
  - rewrite handleCommentAdded_home, Hfind, Hc. fold p1. rewrite Hrun1. reflexivity.
  - rewrite handleCommentDeleted_home, Hfind1, Hback, Hrun2. reflexivity.
  - rewrite Hr2, Hup1.
    rewrite (upserted_at p _ k p1).
    + rewrite list_insert_insert_eq. apply list_insert_id, Hl.
    + apply list_lookup_insert_eq, Hk.
    + reflexivity.
    + intros j q Hj Hjq. rewrite list_lookup_insert_ne in Hjq by lia.
      rewrite Hid. apply (Hfirst j q Hj Hjq).
  - cbn [vaultVersion setVaultVersion]. lia.
Qed.

Lemma Set_has_delete (t x : string) (s : JSSet) :
  Set_has (Set_delete t s) x = Set_has s x && negb (bool_decide (x = t)).
Proof.
  unfold Set_has, Set_delete. induction s as [|y s IH]; [reflexivity|].
  cbn [List.filter existsb].
  destruct (bool_decide_reflect (y = t)) as [->|Hne]; cbn [negb existsb].
  - rewrite IH. destruct (bool_decide_reflect (t = x)) as [->|Hne'].
    + rewrite bool_decide_eq_true_2 by reflexivity. cbn [negb orb].
      rewrite !andb_false_r. reflexivity.
    + reflexivity.
  - rewrite IH. destruct (bool_decide_reflect (y = x)) as [->|Hne'].
    + rewrite bool_decide_eq_false_2 by exact Hne. reflexivity.
    + reflexivity.
Qed.

Lemma Set_has_copy (s : JSSet) (x : string) : Set_has (Set_new s) x = Set_has s x.
Proof.
  rewrite Set_has_new. unfold Set_has. induction s as [|y s IH].
  - apply bool_decide_eq_false. inversion 1.
  - cbn [existsb]. rewrite <- IH.
    destruct (bool_decide_reflect (y = x)) as [->|Hne]; cbn [orb].
    + apply bool_decide_eq_true. left.
    + apply bool_decide_ext. rewrite elem_of_cons. split; [|tauto].
      intros [Heq|Hin]; [congruence|exact Hin].
Qed.

(** X21.  A click on a tag of a card flips the tag in the set of active
    tags and leaves every other tag, so that a second click on the same
    tag gives back a set with the same tags. *)
Theorem tag_click_flips_tag (tag x : string) (h : State) :
  Set_has (activeTags (handleTagClickFromCard tag h)) x
    = (if bool_decide (x = tag) then negb (Set_has (activeTags h) tag)
       else Set_has (activeTags h) x)
  /\ Set_has (activeTags (handleTagClickFromCard tag (handleTagClickFromCard tag h))) x
     = Set_has (activeTags h) x.
Proof.
  assert (Hflip : forall s y,
            Set_has (let newTags := Set_new s in
                     if Set_has newTags tag then Set_delete tag newTags
                     else Set_add tag newTags) y
            = if bool_decide (y = tag) then negb (Set_has s tag) else Set_has s y).
  { intros s y. cbv zeta. rewrite Set_has_copy.
    destruct (Set_has s tag) eqn:Ht.
    - rewrite Set_has_delete, Set_has_copy.
      destruct (bool_decide_reflect (y = tag)) as [->|Hne];
        [rewrite Ht; reflexivity|apply andb_true_r].
    - rewrite Set_has_add, Set_has_copy.
      destruct (bool_decide_reflect (y = tag)) as [->|Hne].
      + rewrite bool_decide_eq_true_2 by reflexivity. apply orb_true_r.
      + rewrite bool_decide_eq_false_2 by congruence. apply orb_false_r. }
  cbn [handleTagClickFromCard activeTags setActiveTags]. split; [apply Hflip|].
  rewrite Hflip. destruct (bool_decide_reflect (x = tag)) as [->|Hne].
  - rewrite Hflip, bool_decide_eq_true_2 by reflexivity. apply negb_involutive.
  - rewrite Hflip, bool_decide_eq_false_2 by exact Hne. reflexivity.
Qed.

End Facts.
End HomePageFacts.

(** ** The list of the cards *)

Module PromptListFacts.
Import LocalStorage LocalStorageCodes PromptList.
Import VaultPageFacts LocalStorageCodesFacts.

Lemma find_over_app {A} (f : A -> bool) (l1 l2 : list A) :
  List.find f (l1 ++ l2)
  = match List.find f l1 with Some x => Some x | None => List.find f l2 end.
Proof.
  induction l1 as [|x l1 IH]; [reflexivity|]. cbn [app List.find].
  destruct (f x); [reflexivity|exact IH].
Qed.

Lemma find_keyed_None (m : Map Prompt) (i : string) :
  Forall (fun kv => prompt_id (snd kv) = fst kv) m ->
  List.find (has_id i) (map snd m) = None <-> i ∉ keys m.
Proof.
  intros Hkeyed. induction Hkeyed as [|[k v] m Hkv _ IH]; cbn [map snd keys fst List.find].
  - split; [intros _; inversion 1|reflexivity].
  - cbn [fst snd] in Hkv. unfold has_id at 1. rewrite Hkv.
    destruct (bool_decide_reflect (k = i)) as [->|Hne].
    + split; [discriminate|]. intros Hn. exfalso. apply Hn. left.
    + rewrite IH. fold (keys m). rewrite not_elem_of_cons. split; [|tauto].
      intros Hn. split; [congruence|exact Hn].
Qed.

Lemma Map_has_keys {V} (m : Map V) (k : string) :
  Map_has m k = bool_decide (k ∈ keys m).
Proof.
  unfold Map_has. destruct (Map_get m k) eqn:E.
  - symmetry. apply bool_decide_eq_true. destruct (decide (k ∈ keys m)) as [Hin|Hn];
      [exact Hin|]. apply Map_get_None in Hn. congruence.
  - symmetry. apply bool_decide_eq_false. apply Map_get_None, E.
Qed.

(** What the loop over the fetched prompts keeps true of its map. *)
Lemma dedupe_fold (l : list Prompt) (m : Map Prompt) :
  Forall (fun kv => prompt_id (snd kv) = fst kv) m -> NoDup (keys m) ->
  let r :=
    fold_left
      (fun uniquePromptsMap prompt =>
         if negb (Map_has uniquePromptsMap (prompt_id prompt))
         then Map_set (prompt_id prompt) prompt uniquePromptsMap
         else uniquePromptsMap) l m in
  Forall (fun kv => prompt_id (snd kv) = fst kv) r
  /\ NoDup (keys r)
  /\ (forall i, List.find (has_id i) (map snd r)
                = match List.find (has_id i) (map snd m) with
                  | Some p => Some p
                  | None => List.find (has_id i) l
                  end)
  /\ (exists rest, r = m ++ rest /\ sublist (map snd rest) l)
  /\ (NoDup (ids l) -> (forall p, p ∈ l -> prompt_id p ∉ keys m) ->
      r = m ++ map (fun p => (prompt_id p, p)) l).
Proof.
  revert m. induction l as [|p l IH]; intros m Hkeyed Hnd; cbv zeta.
  - cbn [fold_left]. split; [exact Hkeyed|]. split; [exact Hnd|]. split; [|split].
    + intros i. destruct (List.find (has_id i) (map snd m)); reflexivity.
    + exists []. rewrite app_nil_r. split; [reflexivity|constructor].
    + intros _ _. rewrite app_nil_r. reflexivity.
  - cbn [fold_left]. rewrite Map_has_keys.
    destruct (bool_decide_reflect (prompt_id p ∈ keys m)) as [Hin|Hn]; cbn [negb].
    + destruct (IH m Hkeyed Hnd) as (Hk & Hn' & Hf & (rest & Hr & Hsub) & _).
      split; [exact Hk|]. split; [exact Hn'|]. split; [|split].
      * intros i. rewrite Hf.
        destruct (List.find (has_id i) (map snd m)) eqn:E; [reflexivity|].
        cbn [List.find]. unfold has_id at 2.
        destruct (bool_decide_reflect (prompt_id p = i)) as [<-|Hne]; [|reflexivity].
        apply (find_keyed_None m _ Hkeyed) in E. contradiction.
      * exists rest. split; [exact Hr|]. apply sublist_cons_r. left. exact Hsub.
      * intros _ Hfresh. exfalso. apply (Hfresh p); [left|exact Hin].
    + rewrite (Map_set_fresh _ _ _ Hn).
      assert (Hkeyed' : Forall (fun kv => prompt_id (snd kv) = fst kv)
                          (m ++ [(prompt_id p, p)])).
      { apply Forall_app. split; [exact Hkeyed|]. constructor; [reflexivity|constructor]. }
      assert (Hnd' : NoDup (keys (m ++ [(prompt_id p, p)]))).
      { rewrite <- (Map_set_fresh _ _ _ Hn). apply Map_set_NoDup, Hnd. }
      destruct (IH _ Hkeyed' Hnd') as (Hk & Hn' & Hf & (rest & Hr & Hsub) & Hid).
      split; [exact Hk|]. split; [exact Hn'|]. split; [|split].
      * intros i. rewrite Hf, map_app, find_over_app.
        destruct (List.find (has_id i) (map snd m)); [reflexivity|].
        cbn [map snd List.find]. destruct (has_id i p); reflexivity.
      * exists ((prompt_id p, p) :: rest). split.
        -- rewrite Hr, <- app_assoc. reflexivity.
        -- cbn [map snd]. apply sublist_skip, Hsub.
      * intros Hndl Hfresh. cbn [ids map] in Hndl. fold (ids l) in Hndl.
        rewrite Hid.
        -- rewrite <- app_assoc. reflexivity.
        -- apply NoDup_cons_1_2 in Hndl. exact Hndl.
        -- intros q Hq. unfold keys. rewrite map_app. fold (keys m).
           cbn [map fst]. rewrite elem_of_app, list_elem_of_singleton.
           intros [Hqm|Heq].
           ++ apply (Hfresh q); [right; exact Hq|exact Hqm].
           ++ apply NoDup_cons_1_1 in Hndl. apply Hndl. rewrite <- Heq.
              apply list_elem_of_fmap. exists q. split; [reflexivity|exact Hq].
Qed.

(** X22.  The list of the cards is the fetched pages, one after the other,
    without the later prompts of an id that came before: no id is twice
    in it, it is a sub-list of the pages in their order, for every id it
    holds the first prompt of the pages with that id, and pages without a
    repeated id are shown as they are. *)
Theorem prompts_keeps_first_of_each_id (data : option (list (list Prompt))) :
  let allPrompts := match data with Some pages => concat pages | None => [] end in
  NoDup (ids (prompts data))
  /\ sublist (prompts data) allPrompts
  /\ (forall i, List.find (has_id i) (prompts data)
                = List.find (has_id i) allPrompts)
  /\ (NoDup (ids allPrompts) -> prompts data = allPrompts).
Proof.
  cbv zeta. unfold prompts.
  set (allPrompts := match data with Some pages => concat pages | None => [] end).
  destruct (dedupe_fold allPrompts [] (Forall_nil_2 _) (NoDup_nil_2))
    as (Hk & Hnd & Hf & (rest & Hr & Hsub) & Hid).
  cbv zeta in Hk, Hnd, Hf, Hr, Hid. split; [|split; [|split]].
  - replace (ids (map snd _)) with (keys (fold_left
      (fun uniquePromptsMap prompt =>
         if negb (Map_has uniquePromptsMap (prompt_id prompt))
         then Map_set (prompt_id prompt) prompt uniquePromptsMap
         else uniquePromptsMap) allPrompts [])); [exact Hnd|].
    revert Hk. generalize (fold_left
      (fun uniquePromptsMap prompt =>
         if negb (Map_has uniquePromptsMap (prompt_id prompt))
         then Map_set (prompt_id prompt) prompt uniquePromptsMap
         else uniquePromptsMap) allPrompts []).
    intros m Hk. induction Hk as [|[k v] m Hkv _ IH]; [reflexivity|].
    cbn [keys map fst snd ids]. cbn [fst snd] in Hkv. rewrite Hkv. f_equal. exact IH.
  - rewrite Hr. exact Hsub.
  - intros i. rewrite Hf. reflexivity.
  - intros Hndl. rewrite Hid; [|exact Hndl|intros p _; inversion 1].
    cbn [app]. rewrite map_map. cbn [snd]. apply map_id.
Qed.

End PromptListFacts.

(** ** The properties of the codes, the store and the handlers on the
    reference engine *)

Module HandlerScenarioFacts.
Import LocalStorage LocalStorageCodes Api ApiRequests Scenario HandlerScenario.

#[local] Existing Instance RefInstances.ref_JSON.

#[local] Instance ref_JSONCodes : JSONCodes :=
  {| JSON_stringify_codes := RefEngine.write_doc;
     parse_stringify_codes := RefInstances.read_write_doc;
     stringify_codes_truthy := RefInstances.write_doc_truthy |}.

Example codes_of_the_scenario :
  let st := with_codes (storage_of [A; B]) in
  read_prompt_code "A" st = Some "secret1"
  /\ read_prompt_code "C" st = None
  /\ read_comment_code "c1" st = Some "secret3"
  /\ fst (canModifyPrompt "B" st) = Returns true
  /\ fst (canModifyPrompt "C" st) = Returns false.
Proof. vm_compute. repeat split. Qed.

Example an_empty_code_does_not_unlock :
  fst (canModifyPrompt "C" (snd (savePromptCode "C" "" (storage_of [A]))))
  = Returns false.
Proof. vm_compute. reflexivity. Qed.

Lemma saved_code_is_read_back_witness :
  let st := with_codes (storage_of [A; B]) in
  read_prompt_code "C" (snd (savePromptCode "C" "secret9" st)) = Some "secret9"
  /\ read_prompt_code "A" (snd (savePromptCode "C" "secret9" st))
     = read_prompt_code "A" st.
Proof.
  intros st.
  destruct (LocalStorageCodesFacts.saved_code_is_read_back "C" "secret9" st)
    as [[Hsame Hother] _]; [reflexivity|reflexivity|].
  split; [exact Hsame|]. apply Hother. discriminate.
Defined.

Lemma removed_code_is_gone_witness :
  let st := with_codes (storage_of [A; B]) in
  read_prompt_code "A" (snd (removePromptCode "A" st)) = None
  /\ read_comment_code "c1" (snd (removeCommentCode "c1" st)) = None.
Proof.
  intros st.
  destruct (LocalStorageCodesFacts.removed_code_is_gone "A" st)
    as [[Hp _] _]; [reflexivity|reflexivity|].
  destruct (LocalStorageCodesFacts.removed_code_is_gone "c1" st)
    as [_ [Hc _]]; [reflexivity|reflexivity|].
  split; [exact Hp|exact Hc].
Defined.

Lemma code_writers_swallow_failures_witness :
  let st := full (with_codes (storage_of [A])) in
  savePromptCode "C" "secret9" st = (Returns tt, st)
  /\ removePromptCode "C" st = (Returns tt, st)
  /\ saveCommentCode "C" "secret9" st = (Returns tt, st)
  /\ removeCommentCode "C" st = (Returns tt, st).
Proof.
  intros st.
  apply (LocalStorageCodesFacts.code_writers_swallow_failures "C" "secret9" st).
  right. reflexivity.
Defined.

Lemma canModifyPrompt_follows_code_witness :
  let st := with_codes (storage_of [A; B]) in
  fst (canModifyPrompt "C" (snd (savePromptCode "C" "secret9" st)))
    = Returns (truthy "secret9")
  /\ fst (canModifyPrompt "C" (snd (removePromptCode "C" st))) = Returns false.
Proof.
  intros st.
  apply (LocalStorageCodesFacts.canModifyPrompt_follows_code "C" "secret9" st);
    reflexivity.
Defined.

Lemma membership_follows_writes_witness :
  let st := storage_of [A; B] in
  fst (isPromptInVault "C" (snd (savePromptToVault C st))) = Returns true
  /\ fst (isPromptInVault "A" (snd (removePromptFromVault "A" st)))
     = Returns false.
Proof.
  intros st.
  apply (VaultStoreFacts.membership_follows_writes C "A" st); reflexivity.
Defined.

Lemma save_then_remove_restores_witness :
  let st := storage_of [A; B] in
  fst (savePromptToVault C st) = Returns true
  /\ fst (removePromptFromVault "C" (snd (savePromptToVault C st))) = Returns true
  /\ read_vault (snd (removePromptFromVault "C" (snd (savePromptToVault C st))))
     = read_vault st.
Proof.
  intros st.
  apply (VaultStoreFacts.save_then_remove_restores C st);
    [reflexivity|reflexivity|].
  apply (bool_decide_unpack _). vm_compute. exact I.
Defined.

Lemma save_twice_is_save_once_witness :
  let st := storage_of [A; B] in
  read_vault (snd (savePromptToVault A' (snd (savePromptToVault A' st))))
  = read_vault (snd (savePromptToVault A' st)).
Proof.
  intros st.
  apply (VaultStoreFacts.save_twice_is_save_once A' st); reflexivity.
Defined.

Lemma vault_ids_stay_distinct_witness :
  let st := storage_of [A; B; C] in
  NoDup (ids (read_vault (snd (savePromptToVault A' st))))
  /\ NoDup (ids (read_vault (snd (removePromptFromVault "B" st))))
  /\ NoDup (ids (read_vault (snd (clearVault st)))).
Proof.
  intros st.
  apply (VaultStoreFacts.vault_ids_stay_distinct A' "B" st).
  apply (bool_decide_unpack _). vm_compute. exact I.
Defined.

Lemma handleResponse_rejects_with_message_witness :
  exists msg,
    handleResponse not_found = Rejected (ErrorObject msg)
    /\ truthy msg = true
    /\ forall data d,
         json_as_error not_found = Some data -> detail data = Some d ->
         truthy d = true -> msg = d.
Proof.
  apply (ApiResponseFacts.handleResponse_rejects_with_message not_found).
  reflexivity.
Defined.

Lemma fetchPromptsBatch_fulfilled_iff_witness :
  snd (fetchPromptsBatch (server [A'; C']) (Some ["A"; "B"]))
    = [batch_request (server [A'; C']) ["A"; "B"]]
  /\ fst (fetchPromptsBatch (server [A'; C']) (Some ["A"; "B"]))
     = Fulfilled (Some [A']).
Proof.
  destruct (ApiResponseFacts.fetchPromptsBatch_fulfilled_iff
              (server [A'; C']) ["A"; "B"] [A']) as [Hsent Hiff];
    [discriminate|].
  split; [exact Hsent|]. apply Hiff.
  eexists. split; [reflexivity|]. split; [reflexivity|].
  split; [discriminate|]. vm_compute. reflexivity.
Defined.



Lemma sync_on_no_content_witness :
  fst (fetchPromptsBatch silent_server
         (Some (map prompt_id (read_vault (storage_of [A; B])))))
    = Fulfilled None
  /\ exists s',
       VaultPage.syncEffect silent_server (page_of [A; B]) (storage_of [A; B])
         = (Returns s', storage_of [A; B])
       /\ VaultPage.vaultPrompts s' = VaultPage.vaultPrompts (page_of [A; B])
       /\ VaultPage.batchError s' = Some VaultPage.null_map_message
       /\ VaultPage.isBatchLoading s' = false.
Proof.
  apply (VaultPageHandlersFacts.sync_on_no_content silent_server (page_of [A; B])
           (storage_of [A; B]) no_content).
  - intros request. reflexivity.
  - reflexivity.
  - reflexivity.
  - vm_compute. discriminate.
  - reflexivity.
Defined.

Lemma home_comment_round_trip_witness :
  exists h1 st1 h2 st2,
    HomePage.handleCommentAdded "B" home (storage_of [A; B; C]) = (Returns h1, st1)
    /\ HomePage.handleCommentDeleted "B" h1 st1 = (Returns h2, st2)
    /\ List.find (fun q => bool_decide (prompt_id q = "B")) (read_vault st1)
       = Some (with_comment_count B (2 + 1))
    /\ read_vault st2 = read_vault (storage_of [A; B; C])
    /\ HomePage.vaultVersion h2 = HomePage.vaultVersion home + 2.
Proof.
  apply (HomePageFacts.home_comment_round_trip "B" home (storage_of [A; B; C]) B 2).
  - reflexivity.
  - reflexivity.
  - vm_compute. reflexivity.
  - reflexivity.
  - lia.
Defined.

Example home_update_of_a_stranger :
  let r := HomePage.handlePromptUpdated C' home (storage_of [A; B]) in
  fst r = Returns home /\ read_vault (snd r) = [A; B].
Proof. vm_compute. split; reflexivity. Qed.

Example a_repeated_card_is_shown_once :
  PromptList.prompts (Some [[A; B]; [A'; C]]) = [A; B; C]
  /\ PromptList.prompts None = [].
Proof. vm_compute. split; reflexivity. Qed.

Example tag_click_adds_then_removes :
  HomePage.activeTags (HomePage.handleTagClickFromCard "tag" home) = ["tag"]
  /\ HomePage.activeTags
       (HomePage.handleTagClickFromCard "tag"
          (HomePage.handleTagClickFromCard "tag" home)) = [].
Proof. vm_compute. split; reflexivity. Qed.

End HandlerScenarioFacts.

(** ** The sync, the comment handlers and the modal on the reference
    engine *)

Module AwaitScenarioFacts.
Import LocalStorage Api VaultPage VaultPageHandlers VaultPageAwait.
Import Scenario HandlerScenario.

#[local] Existing Instance RefInstances.ref_JSON.
#[local] Existing Instance RefInstances.ref_Intl.
#[local] Existing Instance HandlerScenarioFacts.ref_JSONCodes.

(** The server sends [A'] and [C'] for the local list of [A], [B] and
    [C]: the page shows the server's prompts, and the storage keeps [A] and
    [C] as they were stored; on a full storage it keeps [B] too. *)
Lemma sync_leaves_local_values_stored :
  let synced st := shown_and_stored (mountDuring (server [A'; C']) [] st) in
  synced (storage_of [A; B; C]) = ([A'; C'], [A; C])
  /\ snd (synced (storage_of [A; B; C])) <> [A'; C']
  /\ synced (full (storage_of [A; B; C])) = ([A'; C'], [A; B; C]).
Proof. vm_compute. split; [reflexivity|]. split; [discriminate|reflexivity]. Qed.

Lemma sync_updates_page_and_prunes_storage_witness :
  exists v' st',
    mountDuring (server [A'; C']) [ToggleCardVault A true] (storage_of [A; B; C])
      = (Returns v', st')
    /\ vaultPrompts (page v') = [A'; C']
    /\ read_vault st' = [C]
    /\ batchError (page v') = None.
Proof.
  destruct (VaultPageAwaitFacts.sync_updates_page_and_prunes_storage
              (server [A'; C']) [ToggleCardVault A true] (storage_of [A; B; C])
              [A'; C']) as [_ Hsync]; [vm_compute; reflexivity|].
  destruct Hsync as (v_mid & st_mid & v' & st' & Hmid & Hrun & Hshown & _ & _
                     & Hpruned & _ & _ & _ & _ & Herr & _);
    [vm_compute; discriminate|].
  assert (Hquota : quota_exceeded
            (snd (run [ToggleCardVault A true]
                    (setPage syncStarted
                       (loaded (setIsInitialLoading false
                          (setVaultPrompts
                             (fun _ => read_vault (storage_of [A; B; C]))
                             initialState))))
                    (storage_of [A; B; C]))) = false)
    by (vm_compute; reflexivity).
  assert (Hstored : read_vault
            (snd (run [ToggleCardVault A true]
                    (setPage syncStarted
                       (loaded (setIsInitialLoading false
                          (setVaultPrompts
                             (fun _ => read_vault (storage_of [A; B; C]))
                             initialState))))
                    (storage_of [A; B; C]))) = [B; C])
    by (vm_compute; reflexivity).
  rewrite Hmid in Hquota, Hstored. cbn [snd] in Hquota, Hstored.
  exists v', st'. split; [exact Hrun|].
  split; [rewrite Hshown; vm_compute; reflexivity|].
  split; [rewrite (Hpruned Hquota), Hstored; vm_compute; reflexivity|exact Herr].
Defined.


(** A card removed while the fetch is awaited is shown again by the sync,
    and is not stored. *)
Example card_removed_while_awaiting :
  shown_and_stored
    (mountDuring (server [A'; B; C']) [ToggleCardVault A true]
       (storage_of [A; B; C]))
  = ([A'; B; C'], [B; C]).
Proof. vm_compute. reflexivity. Qed.



(** A deletion confirmed in the modal of the home page: the prompt leaves
    the vault and the version stays. *)
Example modal_deletion_leaves_version :
  let r := HomeEvents.step (HomeEvents.PromptDeleteConfirmed "B") home
             (with_codes (storage_of [A; B; C])) in
  match fst r with
  | Returns h => HomePage.vaultVersion h
  | Throws _ => -1
  end = 0
  /\ read_vault (snd r) = [A; C].
Proof. vm_compute. split; reflexivity. Qed.

End AwaitScenarioFacts.
